(** * dboom: an HTTP load generator on libdill coroutines

    A shallow embedding of [dboom.c] and the properties of its
    orchestration core: share computation, argument conversion and
    validation, the join barrier, the stop/ack handshake and the
    statistics loop.

    The three functions of the program that talk to the outside world
    ([main], [boom] and [stats]) are written in a small monad that threads
    an oracle (the values the C library, libdill and [MakeRequest] hand
    back, in call order) and collects the trace of calls made. *)

From Stdlib Require Import ZArith List String Ascii Bool Lia DecimalString Permutation.
From Stdlib Require DecimalPos.
Import ListNotations.
Local Open Scope string_scope.
Local Open Scope list_scope.
Local Open Scope Z_scope.

(** ** Machine integers *)

Module CInt.

Definition INT_MAX : Z := 2147483647.
Definition INT_MIN : Z := -2147483648.
Definition UINT_MAX : Z := 4294967295.
Definition LONG_MAX : Z := 9223372036854775807.
Definition LONG_MIN : Z := -9223372036854775808.

(** Conversion to [unsigned int]: reduction modulo 2^32. *)
Definition to_uint (z : Z) : Z := z mod 4294967296.

(** Conversion to [int] of a value that may not fit: the
    implementation-defined result of gcc and clang, reduction modulo 2^32
    into the signed range. *)
Definition to_int (z : Z) : Z := (z + 2147483648) mod 4294967296 - 2147483648.

(** [printf]'s [%d] reads its argument as an [int], [%ld] as a [long]. *)
Definition fmt_d (z : Z) : string := NilZero.string_of_int (Z.to_int (to_int z)).
Definition fmt_ld (z : Z) : string := NilZero.string_of_int (Z.to_int z).

End CInt.
Import CInt.

Definition nl : string := String (ascii_of_nat 10) EmptyString.

Definition EXIT_SUCCESS : Z := 0.
Definition EXIT_FAILURE : Z := 1.

(** ** The C library's [atoi]

    [atoi] is not code of the program; it is modelled the way glibc
    implements it, [(int) strtol (s, NULL, 10)]: leading white space is
    skipped, an optional sign is read, then decimal digits; the value
    saturates at the range of [long] and is then converted to [int]. *)

Module Libc.

Definition isspace (c : ascii) : bool :=
  let n := nat_of_ascii c in
  (Nat.eqb n 32 || (Nat.leb 9 n && Nat.leb n 13))%bool.

Definition digit_of (c : ascii) : option Z :=
  let n := Z.of_nat (nat_of_ascii c) in
  if ((48 <=? n) && (n <=? 57))%bool then Some (n - 48) else None.

Fixpoint skip_space (s : string) : string :=
  match s with
  | String c s' => if isspace c then skip_space s' else s
  | EmptyString => s
  end.

Fixpoint digits (s : string) (acc : Z) : Z :=
  match s with
  | String c s' =>
      match digit_of c with
      | Some d => digits s' (10 * acc + d)
      | None => acc
      end
  | EmptyString => acc
  end.

Definition strtol (s : string) : Z :=
  let v :=
    match skip_space s with
    | String "-" s' => - digits s' 0
    | String "+" s' => digits s' 0
    | s' => digits s' 0
    end in
  Z.max LONG_MIN (Z.min LONG_MAX v).

Definition atoi (s : string) : Z := to_int (strtol s).

End Libc.
Import Libc.

(** ** Argument conversion *)

Definition DEFAULT_REQUESTS : Z := 10.
Definition DEFAULT_CONCURR : Z := 5.
Definition DEFAULT_TIMEOUT : Z := 5000.

(** The [const char*] parameter is [None] for a null pointer.  The return
    type [unsigned int] converts [atoi]'s [int]. *)
Definition getRequests (requests : option string) : Z :=
  to_uint (match requests with Some s => atoi s | None => DEFAULT_REQUESTS end).

Definition getConcurrentReqs (concurr : option string) : Z :=
  to_uint (match concurr with Some s => atoi s | None => DEFAULT_CONCURR end).

Definition getTimeout (timeout : option string) : Z :=
  match timeout with Some s => atoi s | None => DEFAULT_TIMEOUT end.

(** ** Data *)

(** Modelled from the spec: [struct reqstats] is declared in [req.h], which
    is not among the sources.  The spec's RequestResult is
    [{ status: integer, latency: duration }]; [dboom.c] names the fields
    [http_code] and [tm] and prints them with [%d] and [%ld]. *)
Record reqstats : Type := mk_reqstats { tm : Z; http_code : Z }.

Definition reqstats_new : reqstats := {| tm := 0; http_code := 0 |}.

(** A coroutine started with [go], with its arguments. *)
Inductive coroutine : Type :=
| Boom (url : string) (nreqs timeout done_ch stats_ch : Z)
| Stats (stats_ch stop_ch verbose : Z).

(** What is sent on a channel: an [int] or a [struct reqstats]. *)
Inductive msg : Type :=
| MInt (v : Z)
| MStats (rs : reqstats).

(** What [choose] over the two clauses of [stats] hands back: [-1] on
    error; [0] with the received value stored in [stop]; [1] with the
    received statistics stored in [rs]. *)
Inductive choose_ret : Type :=
| ChooseFail
| ChooseStop (v : Z)
| ChooseStats (rs : reqstats).

Definition choose_rc (c : choose_ret) : Z :=
  match c with
  | ChooseFail => -1
  | ChooseStop _ => 0
  | ChooseStats _ => 1
  end.

(** The calls a run makes, each with the value it returned. *)
Inductive event : Type :=
| Stdout (s : string)
| Stderr (s : string)
| Perror (s : string)
| Chmake (itemsz : Z) (ret : Z)
| Go (c : coroutine) (ret : Z)
| Malloc (size : Z) (ret : Z)
| Chrecv (ch : Z) (rc : Z)
| Chsend (ch : Z) (m : msg) (rc : Z)
| Choose (stop_ch stats_ch : Z) (r : choose_ret)
| MakeRequest (url : string) (timeout : Z) (rc : Z)
| Hclose (h : Z) (rc : Z)
| Free
| Time (t : Z).

(** ** The monad *)

(** The environment's answers, in call order: [rets] for the calls that
    return an integer (libdill's, [malloc], [time]), [reqs] for
    [MakeRequest], [chooses] for [choose]. *)
Record oracle : Type := mk_oracle {
  rets : list Z;
  reqs : list (Z * reqstats);
  chooses : list choose_ret
}.

(** How a run stops short of returning: the process exits; the pending
    call has not been answered (a channel operation with deadline [-1]
    that blocks for good, or the end of the oracle); or the C program has
    no defined behaviour from there on. *)
Inductive halt : Type :=
| Exit (status : Z)
| Waiting
| Undefined.

Inductive res (A : Type) : Type :=
| Ret (a : A) (o : oracle)
| Stop (h : halt).
Arguments Ret {A} a o.
Arguments Stop {A} h.

Definition M (A : Type) : Type := oracle -> list event * res A.

Definition ret {A} (a : A) : M A := fun o => ([], Ret a o).

Definition bind {A B} (m : M A) (f : A -> M B) : M B :=
  fun o =>
    match m o with
    | (t1, Ret a o1) => let (t2, r) := f a o1 in (t1 ++ t2, r)
    | (t1, Stop h) => (t1, Stop h)
    end.

Notation "x <- m ;; k" := (bind m (fun x => k))
  (at level 61, m at next level, right associativity).
Notation "m ;; k" := (bind m (fun _ => k))
  (at level 61, right associativity).

Definition emit (e : event) : M unit := fun o => ([e], Ret tt o).

Definition exit {A} (status : Z) : M A := fun _ => ([], Stop (Exit status)).

Definition undefined {A} : M A := fun _ => ([], Stop Undefined).

(** A call that returns an integer. *)
Definition call (ev : Z -> event) : M Z :=
  fun o =>
    match rets o with
    | [] => ([], Stop Waiting)
    | r :: rs => ([ev r], Ret r (mk_oracle rs (reqs o) (chooses o)))
    end.

Definition perror (s : string) : M unit := emit (Perror s).
Definition chmake (itemsz : Z) : M Z := call (Chmake itemsz).
Definition go (c : coroutine) : M Z := call (Go c).
Definition malloc (size : Z) : M Z := call (Malloc size).
Definition chrecv (ch : Z) : M Z := call (Chrecv ch).
Definition chsend (ch : Z) (m : msg) : M Z := call (Chsend ch m).
Definition hclose (h : Z) : M Z := call (Hclose h).
Definition time : M Z := call Time.

(** Modelled from the spec: [MakeRequest] is defined in [req.c], which is
    not among the sources: "given a URL and timeout, produces a latency
    and status code or fails", one blocking call.  The answer is the
    return code and the contents of [*rs] after the call. *)
Definition makeRequest (url : string) (timeout : Z) (rs : reqstats)
  : M (Z * reqstats) :=
  fun o =>
    match reqs o with
    | [] => ([], Stop Waiting)
    | (rc, rs') :: qs =>
        ([MakeRequest url timeout rc],
         Ret (rc, rs') (mk_oracle (rets o) qs (chooses o)))
    end.

Definition when (b : bool) (m : M unit) : M unit := if b then m else ret tt.

(** ** The program *)

Definition usage {A} : M A :=
  emit (Stderr ("Usage: dboom [-n nreqs] [-c nconcurr] [-t timeoutms] URL." ++ nl)) ;;
  exit EXIT_FAILURE.

(** *** The worker, [boom] *)

(** [for(int i = nreqs; i > 0; --i)]: the recursion is on the counter [i]
    itself, which runs down to [0]. *)
Fixpoint boom_loop (i : nat) (url : string) (timeout stats_ch : Z) : M unit :=
  match i with
  | O => ret tt
  | S i' =>
      r <- makeRequest url timeout reqstats_new ;;
      (if fst r =? 0 then
         rc <- chsend stats_ch (MStats (snd r)) ;;
         when (negb (rc =? 0)) (perror "Failed to send request stats")
       else ret tt) ;;
      boom_loop i' url timeout stats_ch
  end.

(** [nreqs] is an [unsigned int]; the counter it initialises is an [int]. *)
Definition boom (url : string) (nreqs timeout done_ch stats_ch : Z) : M unit :=
  boom_loop (Z.to_nat (to_int nreqs)) url timeout stats_ch ;;
  rc <- chsend done_ch (MInt 1) ;;
  when (negb (rc =? 0)) (perror "boom() - chsend() failed").

(** *** The aggregator, [stats] *)

(** The locals of [stats]: [int nrequests], [unsigned int total],
    [int stop] and [struct reqstats rs]. *)
Record stats_vars : Type := mk_vars {
  nrequests : Z;
  total : Z;
  stop : Z;
  rs : reqstats
}.

(** [choose] stores what it received through the clause that fired. *)
Definition store (c : choose_ret) (v : stats_vars) : stats_vars :=
  match c with
  | ChooseFail => v
  | ChooseStop s => mk_vars (nrequests v) (total v) s (rs v)
  | ChooseStats r => mk_vars (nrequests v) (total v) (stop v) r
  end.

(** The line of verbose mode, [printf("%d,%ld\n", rs.http_code, rs.tm)]. *)
Definition echo_line (r : reqstats) : string :=
  fmt_d (http_code r) ++ "," ++ fmt_ld (tm r) ++ nl.

(** [while(stop == 0)], one answer of [choose] per turn.  The function is
    written on the list of answers still to come, [cs]; [rs0] and [qs] are
    the rest of the oracle, which the loop does not touch.  [nrequests++]
    on [INT_MAX] has no defined behaviour. *)
Fixpoint stats_loop (stats_ch stop_ch verbose : Z) (rs0 : list Z)
    (qs : list (Z * reqstats)) (cs : list choose_ret) (v : stats_vars)
  : list event * res stats_vars :=
  if stop v =? 0 then
    match cs with
    | [] => ([], Stop Waiting)
    | c :: cs' =>
        let rc := choose_rc c in
        let v1 := store c v in
        if rc <? 0 then
          ([Choose stop_ch stats_ch c;
            Perror "Could not read from stop or stats channel"],
           Ret v1 (mk_oracle rs0 qs cs'))
        else if rc =? 1 then
          if nrequests v1 =? INT_MAX then
            ([Choose stop_ch stats_ch c], Stop Undefined)
          else
            let v2 := mk_vars (nrequests v1 + 1)
                              (to_uint (total v1 + tm (rs v1)))
                              (stop v1) (rs v1) in
            let echo :=
              if negb (verbose =? 0)
              then [Stdout (echo_line (rs v1))]
              else [] in
            let (t, r) := stats_loop stats_ch stop_ch verbose rs0 qs cs' v2 in
            (Choose stop_ch stats_ch c :: echo ++ t, r)
        else
          let (t, r) := stats_loop stats_ch stop_ch verbose rs0 qs cs' v1 in
          (Choose stop_ch stats_ch c :: t, r)
    end
  else ([], Ret v (mk_oracle rs0 qs cs)).

(** The summary line; [total/nrequests] divides as [unsigned int] and is
    printed with [%d]. *)
Definition avg_line (nrequests total : Z) : string :=
  "Avg response time for " ++ fmt_d nrequests ++ " requests: "
    ++ fmt_d (total / to_uint nrequests) ++ " ms" ++ nl.

Definition stats (stats_ch stop_ch verbose : Z) : M unit :=
  v <- (fun o => stats_loop stats_ch stop_ch verbose (rets o) (reqs o) (chooses o)
                   (mk_vars 0 0 0 reqstats_new)) ;;
  when (nrequests v >? 0) (emit (Stdout (avg_line (nrequests v) (total v)))) ;;
  rc <- chsend stop_ch (MInt (stop v)) ;;
  when (negb (rc =? 0)) (perror "stats() - chsend() failed").

Definition run_coroutine (c : coroutine) : M unit :=
  match c with
  | Boom url nreqs timeout done_ch stats_ch => boom url nreqs timeout done_ch stats_ch
  | Stats stats_ch stop_ch verbose => stats stats_ch stop_ch verbose
  end.

(** *** The orchestrator, [main] *)

(** The command line as [getopt] delivers it: the options in order, each
    with its [optarg] (['?'] stands for an option [getopt] rejects; the
    diagnostic [getopt] prints itself is left out), and the operands from
    [argv[optind]] on. *)
Record cmdline : Type := mk_cmdline {
  options : list (ascii * string);
  operands : list string
}.

Record args : Type := mk_args {
  requests : option string;
  concurr : option string;
  timeout : option string;
  verbose : Z
}.

Definition args0 : args := mk_args None None None 0.

(** The [getopt] loop; [None] when the [default] branch calls [usage]. *)
Fixpoint getopt_loop (opts : list (ascii * string)) (a : args) : option args :=
  match opts with
  | [] => Some a
  | (c, optarg) :: rest =>
      if Ascii.eqb c "n" then
        getopt_loop rest (mk_args (Some optarg) (concurr a) (timeout a) (verbose a))
      else if Ascii.eqb c "c" then
        getopt_loop rest (mk_args (requests a) (Some optarg) (timeout a) (verbose a))
      else if Ascii.eqb c "t" then
        getopt_loop rest (mk_args (requests a) (concurr a) (Some optarg) (verbose a))
      else if Ascii.eqb c "v" then
        getopt_loop rest (mk_args (requests a) (concurr a) (timeout a) 1)
      else None
  end.

Definition sizeof_int : Z := 4.

(** Modelled from the spec: the size of [struct reqstats] (see [reqstats]);
    two eight-byte slots on an LP64 target. *)
Definition sizeof_reqstats : Z := 16.

Definition zero_msg (nreqs nconcurr : Z) : string :=
  "The number of requests (" ++ fmt_d nreqs ++ ") and the number of"
    ++ "concurrent requests (" ++ fmt_d nconcurr ++ ") must be greater than 0." ++ nl.

Definition less_msg (nreqs nconcurr : Z) : string :=
  "The number of requests (" ++ fmt_d nreqs ++ ") cannot be less than the number of "
    ++ "concurrent requests (" ++ fmt_d nconcurr ++ ")" ++ nl.

Definition banner (url : string) (nreqs nconcurr ntimeout : Z) : string :=
  "Running dboom" ++ nl
    ++ "        Url: " ++ url ++ nl
    ++ "        Total Requests: " ++ fmt_d nreqs ++ nl
    ++ "        Concurrent Requests: " ++ fmt_d nconcurr ++ nl
    ++ "        Timeout: " ++ fmt_d ntimeout ++ " ms" ++ nl.

(** [(double) n] for [0 <= n]: the nearest number with a significand of 53
    bits, ties to the even one.  The numbers met here are below [2^64], far
    inside the exponent range of [double]. *)
Definition to_double (n : Z) : Z :=
  let sh := Z.log2 n + 1 - 53 in
  if sh <=? 0 then n
  else
    let q := Z.shiftr n sh in
    let r := n - Z.shiftl q sh in
    let half := Z.shiftl 1 (sh - 1) in
    Z.shiftl (if (half <? r) || ((r =? half) && Z.odd q) then q + 1 else q) sh.

(** [difftime] is not code of the program; with the 64-bit [time_t] it is
    modelled the way glibc computes it: the smaller time is subtracted from
    the larger one exactly, the difference is converted to [double], and
    the sign is put back.  The result is a whole number. *)
Definition difftime (time1 time0 : Z) : Z :=
  if time1 <? time0 then - to_double (time0 - time1) else to_double (time1 - time0).

(** [printf]'s [%f] of a [double] that is a whole number: all its digits,
    then six zeros. *)
Definition fmt_f (x : Z) : string := fmt_ld x ++ ".000000".

(** [printf("Run time: %fs\n", difftime(end_t, start_t))]. *)
Definition run_time_line (start_t end_t : Z) : string :=
  "Run time: " ++ fmt_f (difftime end_t start_t) ++ "s" ++ nl.

(** [for(int i = 0; i < nconcurr; ++i)] starting the workers: [todo] is
    [nconcurr - i], the turns left; the handles collected are the array
    [pcoh].  [++i] on [INT_MAX] has no defined behaviour. *)
Fixpoint spawn_loop (todo : nat) (i : Z) (worker : coroutine) (pcoh : list Z)
  : M (list Z) :=
  match todo with
  | O => ret pcoh
  | S todo' =>
      h <- go worker ;;
      if h <? 0 then
        perror "Could not launch coroutine" ;; exit EXIT_FAILURE
      else if i =? INT_MAX then undefined
      else spawn_loop todo' (i + 1) worker (pcoh ++ [h])
  end.

(** [for(int i = nconcurr; i > 0; --i)] receiving on [done_ch]; as in
    [boom_loop] the recursion is on the counter. *)
Fixpoint barrier_loop (i : nat) (done_ch : Z) : M unit :=
  match i with
  | O => ret tt
  | S i' =>
      rc <- chrecv done_ch ;;
      if negb (rc =? 0) then
        perror "Could not receive on done_ch" ;; exit EXIT_FAILURE
      else barrier_loop i' done_ch
  end.

(** [for(int i = 0; i < nconcurr; ++i)] closing [pcoh[i]]. *)
Fixpoint close_loop (pcoh : list Z) : M unit :=
  match pcoh with
  | [] => ret tt
  | h :: rest =>
      rc <- hclose h ;;
      when (negb (rc =? 0)) (perror "Could not close boom coroutine") ;;
      close_loop rest
  end.

(** Lines 139-156: the release of handles, channels and memory, and the
    run time. *)
Definition release (done_ch stats_ch stop_ch stats_cor start_t : Z)
    (pcoh : list Z) : M Z :=
  close_loop pcoh ;;
  rc <- hclose stats_cor ;;
  when (negb (rc =? 0)) (perror "Could not close stats coroutine") ;;
  rc <- hclose done_ch ;;
  when (negb (rc =? 0)) (perror "Could not close done_ch") ;;
  rc <- hclose stats_ch ;;
  when (negb (rc =? 0)) (perror "Could not close stats_ch") ;;
  rc <- hclose stop_ch ;;
  when (negb (rc =? 0)) (perror "Could not close stop_ch") ;;
  emit Free ;;
  end_t <- time ;;
  emit (Stdout (run_time_line start_t end_t)) ;;
  exit EXIT_SUCCESS.

(** Lines 122-137: the join barrier and the stop/ack exchange; then the
    release. *)
Definition shutdown (nconcurr done_ch stats_ch stop_ch stats_cor start_t : Z)
    (pcoh : list Z) : M Z :=
  barrier_loop (Z.to_nat (to_int nconcurr)) done_ch ;;
  rc <- chsend stop_ch (MInt 1) ;;
  when (negb (rc =? 0)) (perror "Failed to send on stop_ch") ;;
  rc <- chrecv stop_ch ;;
  when (negb (rc =? 0)) (perror "Failed to receive on stop_ch") ;;
  release done_ch stats_ch stop_ch stats_cor start_t pcoh.

(** Lines 78-120: the three channels, the aggregator, the workers. *)
Definition launch (url : string) (nreqs nconcurr ntimeout verbose : Z) : M Z :=
  emit (Stdout (banner url nreqs nconcurr ntimeout)) ;;
  done_ch <- chmake sizeof_int ;;
  stats_ch <- chmake sizeof_reqstats ;;
  stop_ch <- chmake sizeof_int ;;
  if ((done_ch <? 0) || (stats_ch <? 0) || (stop_ch <? 0))%bool then
    perror "Could not create channel" ;; exit EXIT_FAILURE
  else
    start_t <- time ;;
    stats_cor <- go (Stats stats_ch stop_ch verbose) ;;
    if stats_cor <? 0 then
      perror "Could not start stats coroutine" ;; exit EXIT_FAILURE
    else
      p <- malloc (nconcurr * sizeof_int) ;;
      if p =? 0 then
        perror "Could not allocate memory for coroutine handles" ;;
        exit EXIT_FAILURE
      else
        pcoh <- spawn_loop (Z.to_nat nconcurr) 0
                  (Boom url (nreqs / nconcurr) ntimeout done_ch stats_ch) [] ;;
        shutdown nconcurr done_ch stats_ch stop_ch stats_cor start_t pcoh.

(** Lines 57-76: the conversion and validation of the arguments. *)
Definition start (url : string) (a : args) : M Z :=
  let nreqs := getRequests (requests a) in
  let nconcurr := getConcurrentReqs (concurr a) in
  let ntimeout := getTimeout (timeout a) in
  if ((nreqs =? 0) || (nconcurr =? 0))%bool then
    emit (Stderr (zero_msg nreqs nconcurr)) ;; exit EXIT_FAILURE
  else if nreqs <? nconcurr then
    emit (Stderr (less_msg nreqs nconcurr)) ;; exit EXIT_FAILURE
  else launch url nreqs nconcurr ntimeout (verbose a).

Definition main (cl : cmdline) : M Z :=
  match getopt_loop (options cl) args0 with
  | None => usage
  | Some a =>
      match operands cl with
      | [] => usage
      | url :: _ => start url a
      end
  end.

(** ** Observing a run *)

(** *** Kinds of events *)

Definition is_chsend (e : event) : bool :=
  match e with Chsend _ _ _ => true | _ => false end.

Definition is_chrecv (e : event) : bool :=
  match e with Chrecv _ _ => true | _ => false end.

(** A message received: a [chrecv] that returned [0]. *)
Definition is_signal (e : event) : bool :=
  match e with Chrecv _ rc => rc =? 0 | _ => false end.

Definition is_chmake (e : event) : bool :=
  match e with Chmake _ _ => true | _ => false end.

(** The release of a resource, or the run time printed at the end. *)
Definition is_release (e : event) : bool :=
  match e with
  | Hclose _ _ | Free => true
  | Stdout s => String.prefix "Run time: " s
  | _ => false
  end.

(** A call that failed: [chmake] and [go] return a negative handle,
    [malloc] returns [NULL], [chrecv] and [chsend] return non-zero. *)
Definition failed (e : event) : bool :=
  match e with
  | Chmake _ r | Go _ r => r <? 0
  | Malloc _ r => r =? 0
  | Chrecv _ rc | Chsend _ _ rc => negb (rc =? 0)
  | _ => false
  end.

(** The calls answered from [rets]. *)
Definition is_call (e : event) : bool :=
  match e with
  | Chmake _ _ | Go _ _ | Malloc _ _ | Chrecv _ _ | Chsend _ _ _
  | Hclose _ _ | Time _ => true
  | _ => false
  end.

Definition no_go (e : event) : bool :=
  match e with Go _ _ => false | _ => true end.

(** An event that is no channel operation. *)
Definition calm (e : event) : bool := negb (is_chrecv e) && negb (is_chsend e).

(** An event that is neither a channel operation nor a release. *)
Definition flat (e : event) : bool := calm e && negb (is_release e).

(** *** What a trace tells *)

Definition sends (t : list event) : nat := List.length (filter is_chsend t).
Definition receives (t : list event) : nat := List.length (filter is_chrecv t).
Definition signals (t : list event) : nat := List.length (filter is_signal t).
Definition calls (t : list event) : nat := List.length (filter is_call t).

(** The lines a run printed on [stdout], in order. *)
Fixpoint stdout_of (t : list event) : list string :=
  match t with
  | [] => []
  | Stdout s :: t' => s :: stdout_of t'
  | _ :: t' => stdout_of t'
  end.

(** The handles [chmake] returned, in order: [main] makes the completion
    channel first, the stats channel second, the stop/ack channel third. *)
Fixpoint chmakes (t : list event) : list Z :=
  match t with
  | [] => []
  | Chmake _ h :: t' => h :: chmakes t'
  | _ :: t' => chmakes t'
  end.

Definition done_channel (t : list event) (ch : Z) : Prop :=
  nth_error (chmakes t) 0 = Some ch.

Definition stats_channel (t : list event) (ch : Z) : Prop :=
  nth_error (chmakes t) 1 = Some ch.

Definition stop_channel (t : list event) (ch : Z) : Prop :=
  nth_error (chmakes t) 2 = Some ch.

(** An acknowledgment has been received: a send is followed by a receive
    on the same channel that returned [0]. *)
Fixpoint acked (t : list event) : bool :=
  match t with
  | [] => false
  | Chsend ch _ _ :: t' =>
      existsb (fun e => match e with
                        | Chrecv ch' rc => (ch' =? ch) && (rc =? 0)
                        | _ => false
                        end) t'
      || acked t'
  | _ :: t' => acked t'
  end.

(** The run was turned down: one message on [stderr], exit status
    [EXIT_FAILURE], and no other call. *)
Definition rejected (x : list event * res Z) : Prop :=
  exists m, x = ([Stderr m], Stop (Exit EXIT_FAILURE)).

(** A computation that takes one answer of [rets] per call it makes and
    waits only when none is left. *)
Definition metered {A} (m : M A) : Prop :=
  forall o,
    match snd (m o) with
    | Ret _ o' => List.length (rets o) = (calls (fst (m o)) + List.length (rets o'))%nat
    | Stop Waiting => calls (fst (m o)) = List.length (rets o)
    | Stop _ => (calls (fst (m o)) <= List.length (rets o))%nat
    end.

(** *** Observing the workers *)

(** The requests a run attempted: its calls of [MakeRequest]. *)
Definition attempts (t : list event) : nat :=
  List.length (filter (fun e => match e with MakeRequest _ _ _ => true | _ => false end) t).

(** The results a run published: the [struct reqstats] it sent, in order. *)
Fixpoint published (t : list event) : list reqstats :=
  match t with
  | [] => []
  | Chsend _ (MStats r) _ :: t' => r :: published t'
  | _ :: t' => published t'
  end.

(** The [int] messages a run sent, each with its channel: completion
    signals, stop request, acknowledgment. *)
Fixpoint int_sends (t : list event) : list (Z * Z) :=
  match t with
  | [] => []
  | Chsend ch (MInt v) _ :: t' => (ch, v) :: int_sends t'
  | _ :: t' => int_sends t'
  end.

(** The results [MakeRequest] reported as successes among its answers. *)
Definition successes (qs : list (Z * reqstats)) : list reqstats :=
  map snd (filter (fun q => fst q =? 0) qs).

(** The workers a run of [main] started. *)
Fixpoint workers (t : list event) : list coroutine :=
  match t with
  | [] => []
  | Go (Boom url n tmo d s) h :: t' =>
      if h <? 0 then workers t' else Boom url n tmo d s :: workers t'
  | _ :: t' => workers t'
  end.

(** A worker started on [url] with [share] requests and the time-out
    [tmo]. *)
Definition worker_of (url : string) (share tmo : Z) (w : coroutine) : Prop :=
  exists d s, w = Boom url share tmo d s.

(** The requests attempted by workers [ws], each run against its own
    answers. *)
Fixpoint attempted (ws : list coroutine) (os : list oracle) : nat :=
  match ws, os with
  | w :: ws', o :: os' => (attempts (fst (run_coroutine w o)) + attempted ws' os')%nat
  | _, _ => O
  end.

(** *** Observing the aggregator *)

(** The results a run received through [choose], in order of arrival. *)
Fixpoint received (t : list event) : list reqstats :=
  match t with
  | [] => []
  | Choose _ _ (ChooseStats r) :: t' => r :: received t'
  | _ :: t' => received t'
  end.

(** The results among answers of [choose]. *)
Fixpoint results (cs : list choose_ret) : list reqstats :=
  match cs with
  | [] => []
  | ChooseStats r :: cs' => r :: results cs'
  | _ :: cs' => results cs'
  end.

(** The sum of the latencies. *)
Definition latency (l : list reqstats) : Z := fold_right (fun r z => tm r + z) 0 l.

(** What one turn of the loop of [stats] does with an answer of [choose]. *)
Definition turn_events (stats_ch stop_ch verbose : Z) (c : choose_ret) : list event :=
  Choose stop_ch stats_ch c
    :: match c with
       | ChooseFail => [Perror "Could not read from stop or stats channel"]
       | ChooseStop _ => []
       | ChooseStats r => if negb (verbose =? 0) then [Stdout (echo_line r)] else []
       end.

(** The summary line as the spec words it, for [k] results whose
    latencies add up to [sum]: the average is [floor(sum / k)]. *)
Definition spec_avg_line (k sum : Z) : string :=
  "Avg response time for " ++ fmt_ld k ++ " requests: " ++ fmt_ld (sum / k) ++ " ms" ++ nl.

(** ** The runs of [main] past the validation

    The shapes a trace of [launch] can take, as a relation between the
    trace and the way the run stops.  [launch_sound] below shows that every
    run has one of them. *)

(** [perror] after a call that returned non-zero. *)
Definition report (rc : Z) (m : string) : list event :=
  if rc =? 0 then [] else [Perror m].

(** An event of the set-up that went well; a worker among them was started
    on [url] with [share] requests and the time-out [tmo]. *)
Definition quiet (url : string) (share tmo : Z) (e : event) : bool :=
  match e with
  | Time _ => true
  | Stdout s => negb (String.prefix "Run time: " s)
  | Chmake _ r => 0 <=? r
  | Go (Stats _ _ _) h => 0 <=? h
  | Go (Boom u n t _ _) h => (0 <=? h) && String.eqb u url && (n =? share) && (t =? tmo)
  | Malloc _ r => negb (r =? 0)
  | _ => false
  end.

(** An event of the release of resources. *)
Definition teardown_ev (e : event) : bool :=
  match e with
  | Hclose _ _ | Perror _ | Free | Time _ | Stdout _ => true
  | _ => false
  end.

(** From the join barrier on, with [c] workers, [done_ch] and [stop_ch]:
    waiting for a completion signal after [k < c] of them; a receive of the
    barrier that fails; waiting for the stop request to be taken; waiting
    for the acknowledgment; the release. *)
Inductive shutdown_run (c : nat) (done_ch stop_ch : Z) : list event -> halt -> Prop :=
| SdWaitSignal (k : nat) :
    (k < c)%nat ->
    shutdown_run c done_ch stop_ch (repeat (Chrecv done_ch 0) k) Waiting
| SdSignalFails (k : nat) (rc : Z) :
    (k < c)%nat -> rc <> 0 ->
    shutdown_run c done_ch stop_ch
      (repeat (Chrecv done_ch 0) k
         ++ [Chrecv done_ch rc; Perror "Could not receive on done_ch"])
      (Exit EXIT_FAILURE)
| SdWaitSend :
    shutdown_run c done_ch stop_ch (repeat (Chrecv done_ch 0) c) Waiting
| SdWaitAck (rc1 : Z) :
    shutdown_run c done_ch stop_ch
      (repeat (Chrecv done_ch 0) c
         ++ Chsend stop_ch (MInt 1) rc1 :: report rc1 "Failed to send on stop_ch")
      Waiting
| SdRelease (rc1 rc2 : Z) (rel : list event) (h : halt) :
    forallb teardown_ev rel = true ->
    h = Waiting \/ h = Exit EXIT_SUCCESS ->
    shutdown_run c done_ch stop_ch
      (repeat (Chrecv done_ch 0) c
         ++ Chsend stop_ch (MInt 1) rc1 :: report rc1 "Failed to send on stop_ch"
         ++ Chrecv stop_ch rc2 :: report rc2 "Failed to receive on stop_ch"
         ++ rel)
      h.

(** The set-up when every call in it went well. *)
Definition setup_trace (url : string) (nreqs nconcurr ntimeout verbose : Z)
    (done_ch stats_ch stop_ch start_t stats_cor p : Z) (pcoh : list Z) : list event :=
  Stdout (banner url nreqs nconcurr ntimeout)
    :: Chmake sizeof_int done_ch
    :: Chmake sizeof_reqstats stats_ch
    :: Chmake sizeof_int stop_ch
    :: Time start_t
    :: Go (Stats stats_ch stop_ch verbose) stats_cor
    :: Malloc (nconcurr * sizeof_int) p
    :: map (Go (Boom url (nreqs / nconcurr) ntimeout done_ch stats_ch)) pcoh.

(** The runs of [launch]: stopped in the set-up with every call so far
    gone well (waiting, or at the overflow of the counter of the spawn
    loop); stopped by a call of the set-up that failed; waiting for a
    [chmake] after one that failed; or through the set-up and into
    [shutdown]. *)
Inductive launch_run (url : string) (nreqs nconcurr ntimeout verbose : Z)
  : list event -> halt -> Prop :=
| LQuiet (t : list event) (h : halt) :
    forallb (quiet url (nreqs / nconcurr) ntimeout) t = true ->
    h = Waiting \/ h = Undefined ->
    launch_run url nreqs nconcurr ntimeout verbose t h
| LFatal (q : list event) (e : event) (cs : list event) (m : string) :
    forallb (quiet url (nreqs / nconcurr) ntimeout) q = true ->
    failed e = true ->
    is_chmake e = true
      \/ (cs = [] /\ ((exists c h, e = Go c h) \/ (exists n r, e = Malloc n r))) ->
    forallb is_chmake cs = true ->
    launch_run url nreqs nconcurr ntimeout verbose
      (q ++ e :: cs ++ [Perror m]) (Exit EXIT_FAILURE)
| LChmakeWait (q : list event) (e : event) (cs : list event) :
    forallb (quiet url (nreqs / nconcurr) ntimeout) q = true ->
    failed e = true ->
    is_chmake e = true ->
    forallb is_chmake cs = true ->
    launch_run url nreqs nconcurr ntimeout verbose (q ++ e :: cs) Waiting
| LShutdown (done_ch stats_ch stop_ch start_t stats_cor p : Z) (pcoh : list Z)
    (t : list event) (h : halt) :
    0 <= done_ch -> 0 <= stats_ch -> 0 <= stop_ch -> 0 <= stats_cor -> p <> 0 ->
    Forall (fun h => 0 <= h) pcoh ->
    List.length pcoh = Z.to_nat nconcurr ->
    nconcurr <= INT_MAX ->
    shutdown_run (Z.to_nat nconcurr) done_ch stop_ch t h ->
    launch_run url nreqs nconcurr ntimeout verbose
      (setup_trace url nreqs nconcurr ntimeout verbose
         done_ch stats_ch stop_ch start_t stats_cor p pcoh ++ t) h.

(** *** After a failed call *)

(** The failure is reported and the process exits with [EXIT_FAILURE] at
    once. *)
Definition fatal_here (post : list event) (r : res Z) : Prop :=
  exists m, post = [Perror m] /\ r = Stop (Exit EXIT_FAILURE).

(** The failure is reported and the run goes on; if it ends, it ends with
    [EXIT_SUCCESS]. *)
Definition reported_and_continues (post : list event) (r : res Z) : Prop :=
  exists m post',
    post = Perror m :: post' /\ (r = Stop Waiting \/ r = Stop (Exit EXIT_SUCCESS)).

(** After a failed [chmake]: the [chmake] calls still to come are made
    (or awaited), then the failure is reported and the process exits with
    [EXIT_FAILURE]. *)
Definition fatal_after_chmakes (post : list event) (r : res Z) : Prop :=
  exists cs,
    forallb is_chmake cs = true
    /\ ((exists m, post = cs ++ [Perror m] /\ r = Stop (Exit EXIT_FAILURE))
        \/ (post = cs /\ r = Stop Waiting)).

(** ** Sample runs *)

Definition cmd (opts : list (ascii * string)) (url : string) : cmdline :=
  mk_cmdline opts [url].

(** [dboom -n 2 -c 2 http://localhost/]. *)
Definition two_by_two : cmdline :=
  cmd [("n"%char, "2"); ("c"%char, "2")] "http://localhost/".

Definition two_by_two_args : args := mk_args (Some "2") (Some "2") None 0.

(** Answers for [two_by_two]: the channels 3, 4, 5, the start time, the
    aggregator 6, the array, the workers 7 and 8, then the answers of the
    two receives of the barrier, of the stop send ([sent]), of the receive
    of the acknowledgment ([ack]), of the six [hclose]; the end time. *)
Definition answers (sent ack : Z) : oracle :=
  mk_oracle [3; 4; 5; 1000; 6; 77; 7; 8; 0; 0; sent; ack; 0; 0; 0; 0; 0; 0; 1003] [] [].

(** The trace of [two_by_two] on [answers sent ack] up to the join
    barrier. *)
Definition two_by_two_setup : list event :=
  [Stdout (banner "http://localhost/" 2 2 5000);
   Chmake 4 3; Chmake 16 4; Chmake 4 5; Time 1000; Go (Stats 4 5 0) 6; Malloc 8 77;
   Go (Boom "http://localhost/" 1 5000 3 4) 7;
   Go (Boom "http://localhost/" 1 5000 3 4) 8].

(** [dboom -n 10 -c 3 http://localhost/], the example of the spec. *)
Definition ten_by_three : cmdline :=
  cmd [("n"%char, "10"); ("c"%char, "3")] "http://localhost/".

Definition ten_by_three_args : args := mk_args (Some "10") (Some "3") None 0.

(** Answers for [ten_by_three] with which the run goes through. *)
Definition ten_by_three_answers : oracle :=
  mk_oracle [3; 4; 5; 1000; 6; 77; 7; 8; 9; 0; 0; 0; 0; 0; 0; 0; 0; 0; 0; 0; 0; 1003]
    [] [].

(** [dboom -n -1 -c 1 http://localhost/]. *)
Definition minus_one : cmdline :=
  cmd [("n"%char, "-1"); ("c"%char, "1")] "http://localhost/".

Definition minus_one_args : args := mk_args (Some "-1") (Some "1") None 0.

(** Answers for [minus_one] with which the run goes through. *)
Definition minus_one_answers : oracle :=
  mk_oracle [3; 4; 5; 1000; 6; 77; 7; 0; 0; 0; 0; 0; 0; 0; 0; 1003] [] [].

(** Answers for a worker: every request succeeds in 120 ms with status
    200, every send goes through. *)
Definition worker_answers (n : nat) : oracle :=
  mk_oracle (repeat 0 (S n)) (repeat (0, mk_reqstats 120 200) n) [].

(** ** Further observations *)

(** *** The command line *)

(** The line [usage] prints. *)
Definition usage_line : string :=
  "Usage: dboom [-n nreqs] [-c nconcurr] [-t timeoutms] URL." ++ nl.

(** The options of the [getopt] string ["n:c:t:v"]. *)
Definition known_option (c : ascii) : bool :=
  Ascii.eqb c "n" || Ascii.eqb c "c" || Ascii.eqb c "t" || Ascii.eqb c "v".

(** The argument of the last occurrence of the option [c]. *)
Fixpoint optarg_of (c : ascii) (opts : list (ascii * string)) : option string :=
  match opts with
  | [] => None
  | (c', x) :: rest =>
      match optarg_of c rest with
      | Some y => Some y
      | None => if Ascii.eqb c' c then Some x else None
      end
  end.

(** The option [c] occurs. *)
Definition given (c : ascii) (opts : list (ascii * string)) : bool :=
  existsb (fun o => Ascii.eqb (fst o) c) opts.

(** *** What a coroutine may do *)

Definition is_perror (e : event) : bool :=
  match e with Perror _ => true | _ => false end.

(** The failures a run reported with [perror]. *)
Definition reports (t : list event) : nat := List.length (filter is_perror t).

(** The sends of a run that failed. *)
Definition failed_sends (t : list event) : nat :=
  List.length (filter (fun e => is_chsend e && failed e) t).

(** The events of a worker started on [url] with the time-out [tmo] and
    the channels [done_ch] and [stats_ch]: a request to [url] with [tmo], a
    result sent on [stats_ch], the signal [1] sent on [done_ch], a
    [perror]. *)
Definition worker_event (url : string) (tmo done_ch stats_ch : Z) (e : event) : bool :=
  match e with
  | MakeRequest u t _ => String.eqb u url && (t =? tmo)
  | Chsend ch (MStats _) _ => ch =? stats_ch
  | Chsend ch (MInt v) _ => (ch =? done_ch) && (v =? 1)
  | Perror _ => true
  | _ => false
  end.

(** The events of an aggregator started on [stats_ch] and [stop_ch]: a
    [choose] over the two channels, a line on [stdout], an [int] sent on
    [stop_ch], a [perror]. *)
Definition aggregator_event (stats_ch stop_ch : Z) (e : event) : bool :=
  match e with
  | Choose p s _ => (p =? stop_ch) && (s =? stats_ch)
  | Chsend ch (MInt _) _ => ch =? stop_ch
  | Stdout _ | Perror _ => true
  | _ => false
  end.

(** An answer of [choose] after which the loop of [stats] goes on: a
    result, or the value [0] received on the stop channel. *)
Definition stays (c : choose_ret) : bool :=
  match c with
  | ChooseStats _ => true
  | ChooseStop v => v =? 0
  | ChooseFail => false
  end.

(** *** Handles and times *)

(** The handles passed to [hclose], in order. *)
Definition closed (t : list event) : list Z :=
  flat_map (fun e => match e with Hclose h _ => [h] | _ => [] end) t.

(** The handles of the coroutines started, in order: what [go] returned
    when it did not fail. *)
Definition started (t : list event) : list Z :=
  flat_map (fun e => match e with
                     | Go _ h => if h <? 0 then [] else [h]
                     | _ => []
                     end) t.

(** The aggregators a run of [main] started. *)
Definition aggregators (t : list event) : list coroutine :=
  flat_map (fun e => match e with
                     | Go (Stats s p v) h => if h <? 0 then [] else [Stats s p v]
                     | _ => []
                     end) t.

(** The times read with [time], in order. *)
Definition times (t : list event) : list Z :=
  flat_map (fun e => match e with Time x => [x] | _ => [] end) t.

(** The calls of [free]. *)
Definition frees (t : list event) : nat :=
  List.length (flat_map (fun e => match e with Free => [tt] | _ => [] end) t).

(** The closing of the handles [hs], answered [rcs]: each [hclose], and
    the report [m] after one that failed. *)
Fixpoint closing (m : string) (hs rcs : list Z) : list event :=
  match hs, rcs with
  | h :: hs', rc :: rcs' => Hclose h rc :: report rc m ++ closing m hs' rcs'
  | _, _ => []
  end.

(** The release of a run that goes through: the workers [pcoh], the
    aggregator, the three channels, each closed once, in this order; the
    array freed; the end time [end_t] read and the run time printed. *)
Definition release_trace (done_ch stats_ch stop_ch stats_cor start_t : Z)
    (pcoh rcs : list Z) (r1 r2 r3 r4 end_t : Z) : list event :=
  closing "Could not close boom coroutine" pcoh rcs
    ++ Hclose stats_cor r1 :: report r1 "Could not close stats coroutine"
    ++ Hclose done_ch r2 :: report r2 "Could not close done_ch"
    ++ Hclose stats_ch r3 :: report r3 "Could not close stats_ch"
    ++ Hclose stop_ch r4 :: report r4 "Could not close stop_ch"
    ++ [Free; Time end_t; Stdout (run_time_line start_t end_t)].

(** The trace of a run of [main] that goes through. *)
Definition success_trace (url : string) (nreqs nconcurr ntimeout verbose : Z)
    (done_ch stats_ch stop_ch start_t stats_cor p : Z) (pcoh : list Z)
    (rc1 rc2 : Z) (rcs : list Z) (r1 r2 r3 r4 end_t : Z) : list event :=
  setup_trace url nreqs nconcurr ntimeout verbose
    done_ch stats_ch stop_ch start_t stats_cor p pcoh
    ++ repeat (Chrecv done_ch 0) (Z.to_nat nconcurr)
    ++ Chsend stop_ch (MInt 1) rc1 :: report rc1 "Failed to send on stop_ch"
    ++ Chrecv stop_ch rc2 :: report rc2 "Failed to receive on stop_ch"
    ++ release_trace done_ch stats_ch stop_ch stats_cor start_t pcoh rcs r1 r2 r3 r4 end_t.

(** *** After a failure that is not fatal *)

(** The runs of the release on the workers [pcoh], the aggregator and the
    three channels: it goes through, as in [release_trace], and the process
    exits with [EXIT_SUCCESS]; or it has come a part of that way and is
    left waiting in the call [c] that comes next. *)
Definition release_run (done_ch stats_ch stop_ch stats_cor start_t : Z)
    (pcoh : list Z) (rel : list event) (r : res Z) : Prop :=
  exists rcs r1 r2 r3 r4 end_t,
    List.length rcs = List.length pcoh
    /\ ((rel = release_trace done_ch stats_ch stop_ch stats_cor start_t
                 pcoh rcs r1 r2 r3 r4 end_t
         /\ r = Stop (Exit EXIT_SUCCESS))
        \/ (exists c rest,
              is_call c = true
              /\ rel ++ c :: rest
                 = release_trace done_ch stats_ch stop_ch stats_cor start_t
                     pcoh rcs r1 r2 r3 r4 end_t
              /\ r = Stop Waiting)).

(** The send of the stop request [e] has failed, after the set-up and the
    [C] signals of [pre]: the failure is reported and the shutdown sequence
    goes on, with the receive of the acknowledgment (whose failure is
    reported in turn) and the release; [main] is left waiting in that
    receive, or the release runs. *)
Definition goes_on_after_stop_send (url : string) (nreqs nconcurr ntimeout verbose : Z)
    (pre : list event) (e : event) (post : list event) (r : res Z) : Prop :=
  exists d s p st cor m hs rc1,
    List.length hs = Z.to_nat nconcurr
    /\ pre = setup_trace url nreqs nconcurr ntimeout verbose d s p st cor m hs
               ++ repeat (Chrecv d 0) (Z.to_nat nconcurr)
    /\ e = Chsend p (MInt 1) rc1
    /\ ((post = [Perror "Failed to send on stop_ch"] /\ r = Stop Waiting)
        \/ (exists rc2 rel,
              post = Perror "Failed to send on stop_ch"
                       :: Chrecv p rc2 :: report rc2 "Failed to receive on stop_ch"
                       ++ rel
              /\ release_run d s p cor st hs rel r)).

(** The receive of the acknowledgment [e] has failed, after the set-up,
    the [C] signals and the stop request of [pre]: the failure is reported
    and the release runs. *)
Definition goes_on_after_ack_receive (url : string)
    (nreqs nconcurr ntimeout verbose : Z)
    (pre : list event) (e : event) (post : list event) (r : res Z) : Prop :=
  exists d s p st cor m hs rc1 rc2 rel,
    List.length hs = Z.to_nat nconcurr
    /\ pre = setup_trace url nreqs nconcurr ntimeout verbose d s p st cor m hs
               ++ repeat (Chrecv d 0) (Z.to_nat nconcurr)
               ++ Chsend p (MInt 1) rc1 :: report rc1 "Failed to send on stop_ch"
    /\ e = Chrecv p rc2
    /\ post = Perror "Failed to receive on stop_ch" :: rel
    /\ release_run d s p cor st hs rel r.

(** * Properties *)

(** ** Equations of the monad *)

Lemma pair_eta {A B} (x : A * B) : x = (fst x, snd x).
Proof. now destruct x. Qed.

Lemma bind_ret {A B} (a : A) (f : A -> M B) (o : oracle) :
  bind (ret a) f o = f a o.
Proof. unfold bind, ret. now destruct (f a o). Qed.

Lemma bind_emit {B} (e : event) (f : unit -> M B) (o : oracle) :
  bind (emit e) f o = (e :: fst (f tt o), snd (f tt o)).
Proof. unfold bind, emit. now destruct (f tt o). Qed.

Lemma bind_exit {A B} (status : Z) (f : A -> M B) (o : oracle) :
  bind (exit status) f o = ([], Stop (Exit status)).
Proof. reflexivity. Qed.

Lemma bind_call {B} (ev : Z -> event) (f : Z -> M B) (o : oracle) :
  bind (call ev) f o =
    match rets o with
    | [] => ([], Stop Waiting)
    | r :: rs =>
        (ev r :: fst (f r (mk_oracle rs (reqs o) (chooses o))),
         snd (f r (mk_oracle rs (reqs o) (chooses o))))
    end.
Proof.
  unfold bind, call. destruct (rets o) as [|r rs]; [reflexivity|].
  now destruct (f r _).
Qed.

Lemma bind_when {B} (b : bool) (m : M unit) (f : unit -> M B) (o : oracle) :
  bind (when b m) f o = if b then bind m f o else f tt o.
Proof. destruct b; [reflexivity|]. apply bind_ret. Qed.

Lemma bind_bind {A B C} (m : M A) (f : A -> M B) (g : B -> M C) (o : oracle) :
  bind (bind m f) g o = bind m (fun a => bind (f a) g) o.
Proof.
  unfold bind. destruct (m o) as [t1 [a o1|h]]; [|reflexivity].
  destruct (f a o1) as [t2 [b o2|h]]; [|reflexivity].
  destruct (g b o2) as [t3 r]. now rewrite app_assoc.
Qed.

Lemma fst_bind {A B} (m : M A) (f : A -> M B) (o : oracle) :
  fst (bind m f o) =
    fst (m o) ++ match snd (m o) with
                 | Ret a o1 => fst (f a o1)
                 | Stop _ => []
                 end.
Proof.
  unfold bind. destruct (m o) as [t1 [a o1|h]]; simpl.
  - now destruct (f a o1).
  - now rewrite app_nil_r.
Qed.

Lemma snd_bind {A B} (m : M A) (f : A -> M B) (o : oracle) :
  snd (bind m f o) =
    match snd (m o) with
    | Ret a o1 => snd (f a o1)
    | Stop h => Stop h
    end.
Proof.
  unfold bind. destruct (m o) as [t1 [a o1|h]]; simpl; [|reflexivity].
  now destruct (f a o1).
Qed.

(** ** Argument conversion and validation *)


Lemma to_int_small (z : Z) : INT_MIN <= z <= INT_MAX -> to_int z = z.
Proof.
  unfold to_int, INT_MIN, INT_MAX. intros H.
  rewrite Z.mod_small by lia. lia.
Qed.

Lemma to_int_big (z : Z) : INT_MAX < z <= UINT_MAX -> to_int z = z - 4294967296.
Proof.
  unfold to_int, INT_MAX, UINT_MAX. intros H.
  replace (z + 2147483648) with ((z - 2147483648) + 1 * 4294967296) by lia.
  rewrite Z.mod_add by lia. rewrite Z.mod_small by lia. lia.
Qed.

Lemma to_uint_range (z : Z) : 0 <= to_uint z <= UINT_MAX.
Proof.
  unfold to_uint, UINT_MAX.
  pose proof (Z.mod_pos_bound z 4294967296 eq_refl). lia.
Qed.

Lemma to_uint_small (z : Z) : 0 <= z <= UINT_MAX -> to_uint z = z.
Proof. unfold to_uint, UINT_MAX. intros H. apply Z.mod_small. lia. Qed.



Lemma getRequests_range (r : option string) : 0 <= getRequests r <= UINT_MAX.
Proof. apply to_uint_range. Qed.

Lemma getConcurrentReqs_range (c : option string) :
  0 <= getConcurrentReqs c <= UINT_MAX.
Proof. apply to_uint_range. Qed.

Lemma main_start (cl : cmdline) (a : args) (url : string) (rest : list string) :
  getopt_loop (options cl) args0 = Some a ->
  operands cl = url :: rest ->
  main cl = start url a.
Proof. intros Ha Hu. unfold main. now rewrite Ha, Hu. Qed.

Lemma start_rejects (url : string) (a : args) (o : oracle) :
  getRequests (requests a) = 0 \/ getConcurrentReqs (concurr a) = 0
    \/ getRequests (requests a) < getConcurrentReqs (concurr a) ->
  rejected (start url a o).
Proof.
  intros H. unfold start, rejected.
  destruct (getRequests (requests a) =? 0) eqn:En; simpl.
  - eexists. reflexivity.
  - destruct (getConcurrentReqs (concurr a) =? 0) eqn:Ec; simpl.
    + eexists. reflexivity.
    + destruct (getRequests (requests a) <? getConcurrentReqs (concurr a)) eqn:El.
      * eexists. reflexivity.
      * apply Z.eqb_neq in En, Ec. apply Z.ltb_ge in El. lia.
Qed.

Lemma start_launches (url : string) (a : args) :
  getRequests (requests a) <> 0 ->
  getConcurrentReqs (concurr a) <> 0 ->
  getConcurrentReqs (concurr a) <= getRequests (requests a) ->
  start url a =
    launch url (getRequests (requests a)) (getConcurrentReqs (concurr a))
      (getTimeout (timeout a)) (verbose a).
Proof.
  intros Hn Hc Hle. unfold start.
  apply Z.eqb_neq in Hn, Hc. rewrite Hn, Hc. simpl.
  apply Z.ltb_ge in Hle. now rewrite Hle.
Qed.


(** C2: a command line whose counts convert to [N = 0], [C = 0] or [N < C]
    is turned down: the whole run is one diagnostic on [stderr] followed by
    [exit(EXIT_FAILURE)]; no channel is made and no coroutine is started,
    whatever the environment would have answered. *)
Theorem invalid_configuration_rejected
    (cl : cmdline) (a : args) (url : string) (rest : list string) (o : oracle) :
  getopt_loop (options cl) args0 = Some a ->
  operands cl = url :: rest ->
  getRequests (requests a) = 0 \/ getConcurrentReqs (concurr a) = 0
    \/ getRequests (requests a) < getConcurrentReqs (concurr a) ->
  exists m,
    main cl o = ([Stderr m], Stop (Exit EXIT_FAILURE))
    /\ EXIT_FAILURE <> 0
    /\ (m = zero_msg (getRequests (requests a)) (getConcurrentReqs (concurr a))
        \/ m = less_msg (getRequests (requests a)) (getConcurrentReqs (concurr a))).
Proof.
  intros Ha Hu H. rewrite (main_start cl a url rest Ha Hu).
  unfold start.
  destruct (getRequests (requests a) =? 0) eqn:En; simpl.
  - eexists. split; [reflexivity|]. split; [discriminate|now left].
  - destruct (getConcurrentReqs (concurr a) =? 0) eqn:Ec; simpl.
    + eexists. split; [reflexivity|]. split; [discriminate|now left].
    + destruct (getRequests (requests a) <? getConcurrentReqs (concurr a)) eqn:El.
      * eexists. split; [reflexivity|]. split; [discriminate|now right].
      * apply Z.eqb_neq in En, Ec. apply Z.ltb_ge in El. lia.
Qed.

Lemma invalid_configuration_rejected_witness :
  exists m,
    main (cmd [("n"%char, "5"); ("c"%char, "10")] "http://localhost/")
         (mk_oracle [] [] [])
      = ([Stderr m], Stop (Exit EXIT_FAILURE))
    /\ EXIT_FAILURE <> 0
    /\ (m = zero_msg 5 10 \/ m = less_msg 5 10).
Proof.
  apply (invalid_configuration_rejected
           (cmd [("n"%char, "5"); ("c"%char, "10")] "http://localhost/")
           (mk_args (Some "5") (Some "10") None 0) "http://localhost/" []
           (mk_oracle [] [] []) eq_refl eq_refl).
  right. right. reflexivity.
Defined.

(** ** The worker *)

Lemma attempts_app (t1 t2 : list event) :
  attempts (t1 ++ t2) = (attempts t1 + attempts t2)%nat.
Proof. unfold attempts. now rewrite filter_app, List.length_app. Qed.

Lemma published_app (t1 t2 : list event) :
  published (t1 ++ t2) = published t1 ++ published t2.
Proof.
  induction t1 as [|e t1 IH]; [reflexivity|].
  destruct e; simpl; auto. destruct m; simpl; auto. now rewrite IH.
Qed.

Lemma int_sends_app (t1 t2 : list event) :
  int_sends (t1 ++ t2) = int_sends t1 ++ int_sends t2.
Proof.
  induction t1 as [|e t1 IH]; [reflexivity|].
  destruct e; simpl; auto. destruct m; simpl; auto. now rewrite IH.
Qed.

(** One turn of the loop of [boom], by the answer of [MakeRequest] and of
    the send that follows a success. *)
Lemma boom_loop_step (i : nat) (url : string) (tmo stats_ch : Z) (o : oracle) :
  boom_loop (S i) url tmo stats_ch o =
    match reqs o with
    | [] => ([], Stop Waiting)
    | (rc, r) :: qs =>
        if rc =? 0 then
          match rets o with
          | [] => ([MakeRequest url tmo rc], Stop Waiting)
          | rc' :: rs' =>
              let x := boom_loop i url tmo stats_ch (mk_oracle rs' qs (chooses o)) in
              (MakeRequest url tmo rc :: Chsend stats_ch (MStats r) rc'
                 :: (if rc' =? 0 then [] else [Perror "Failed to send request stats"])
                 ++ fst x, snd x)
          end
        else
          let x := boom_loop i url tmo stats_ch (mk_oracle (rets o) qs (chooses o)) in
          (MakeRequest url tmo rc :: fst x, snd x)
    end.
Proof.
  simpl. unfold makeRequest, bind at 1.
  destruct (reqs o) as [|[rc r] qs]; [reflexivity|]. simpl fst; simpl snd.
  destruct (rc =? 0).
  - rewrite bind_bind. unfold chsend. rewrite bind_call. simpl.
    destruct (rets o) as [|rc' rs']; [reflexivity|].
    rewrite bind_when. destruct (rc' =? 0); simpl.
    + now destruct (boom_loop i _ _ _ _).
    + unfold perror. rewrite bind_emit. now destruct (boom_loop i _ _ _ _).
  - rewrite bind_ret. now destruct (boom_loop i _ _ _ _).
Qed.

(** A loop of [i] turns that runs to its end has made [i] requests and
    published the successes among the [i] answers, in order, and nothing
    else; it has sent no [int]. *)
Lemma boom_loop_returns (i : nat) (url : string) (tmo stats_ch : Z) :
  forall (o o' : oracle) (t : list event),
    boom_loop i url tmo stats_ch o = (t, Ret tt o') ->
    attempts t = i
    /\ published t = successes (firstn i (reqs o))
    /\ int_sends t = []
    /\ reqs o' = skipn i (reqs o).
Proof.
  induction i as [|i IH]; intros o o' t H.
  - inversion H; subst. now repeat split.
  - rewrite boom_loop_step in H.
    destruct (reqs o) as [|[rc r] qs] eqn:Eq; [discriminate|].
    destruct (rc =? 0) eqn:Erc.
    + destruct (rets o) as [|rc' rs']; [discriminate|].
      destruct (boom_loop i _ _ _ _) as [t1 r1] eqn:E1. simpl in H.
      inversion H; subst. destruct (IH _ _ _ E1) as (A & P & S & Q). simpl in P, Q.
      unfold successes. simpl. rewrite Erc. simpl.
      destruct (rc' =? 0); simpl; unfold attempts in *; simpl;
        repeat split; auto; now f_equal.
    + destruct (boom_loop i _ _ _ _) as [t1 r1] eqn:E1. simpl in H.
      inversion H; subst. destruct (IH _ _ _ E1) as (A & P & S & Q). simpl in P, Q.
      unfold successes. simpl. rewrite Erc.
      unfold attempts in *; simpl; repeat split; auto.
Qed.

(** With answers enough the loop does run to its end. *)
Lemma boom_loop_total (i : nat) (url : string) (tmo stats_ch : Z) :
  forall o : oracle,
    (i <= List.length (reqs o))%nat -> (i <= List.length (rets o))%nat ->
    exists t o', boom_loop i url tmo stats_ch o = (t, Ret tt o')
                 /\ (List.length (rets o) - i <= List.length (rets o'))%nat.
Proof.
  induction i as [|i IH]; intros o Hq Hr.
  - exists [], o. split; [reflexivity|lia].
  - rewrite boom_loop_step.
    destruct (reqs o) as [|[rc r] qs] eqn:Eq; [simpl in Hq; lia|].
    destruct (rets o) as [|rc' rs'] eqn:Er; [simpl in Hr; lia|].
    simpl in Hq, Hr |- *.
    destruct (rc =? 0).
    + destruct (IH (mk_oracle rs' qs (chooses o))) as (t & o' & E & L);
        [simpl; lia..|].
      rewrite E. eexists _, o'. split; [reflexivity|].
      cbn [rets List.length] in L |- *. lia.
    + destruct (IH (mk_oracle (rc' :: rs') qs (chooses o))) as (t & o' & E & L);
        [simpl; lia..|].
      rewrite E. eexists _, o'. split; [reflexivity|].
      cbn [rets List.length] in L |- *. lia.
Qed.

(** Within the range of [int] the worker does what is asked of it: a
    worker given [n] that returns has made [n] requests, published the
    successes and sent one completion signal, last. *)
Lemma boom_in_range (url : string) (n tmo done_ch stats_ch : Z)
    (o o' : oracle) (t : list event) :
  0 <= n <= INT_MAX ->
  boom url n tmo done_ch stats_ch o = (t, Ret tt o') ->
  attempts t = Z.to_nat n
  /\ published t = successes (firstn (Z.to_nat n) (reqs o))
  /\ int_sends t = [(done_ch, 1)].
Proof.
  intros Hn H. unfold boom in H. rewrite to_int_small in H
    by (unfold INT_MIN, INT_MAX in *; lia).
  unfold bind at 1 in H.
  destruct (boom_loop _ _ _ _ o) as [t1 [[] o1|h]] eqn:E1; [|discriminate].
  destruct (boom_loop_returns _ _ _ _ _ _ _ E1) as (A & P & S & _).
  unfold chsend in H. rewrite bind_call in H.
  destruct (rets o1) as [|rc rs']; [discriminate|].
  destruct (rc =? 0); simpl in H; inversion H; subst;
    rewrite attempts_app, published_app, int_sends_app, A, P, S;
    simpl; repeat split; try lia; now rewrite ?app_nil_r.
Qed.

(** *** Counts beyond [INT_MAX] *)

(** A count above [INT_MAX] makes the [int] counter of [boom] start
    negative: the loop body never runs. *)
Lemma boom_beyond_int_max (url : string) (n tmo done_ch stats_ch : Z) (o : oracle) :
  INT_MAX < n <= UINT_MAX ->
  boom url n tmo done_ch stats_ch o =
    (rc <- chsend done_ch (MInt 1) ;;
     when (negb (rc =? 0)) (perror "boom() - chsend() failed")) o.
Proof.
  intros Hn. unfold boom. rewrite (to_int_big n Hn).
  replace (Z.to_nat (n - 4294967296)) with O by (unfold UINT_MAX in Hn; lia).
  simpl boom_loop. now rewrite bind_ret.
Qed.

Lemma boom_beyond_int_max_attempts
    (url : string) (n tmo done_ch stats_ch : Z) (o : oracle) :
  INT_MAX < n <= UINT_MAX ->
  attempts (fst (boom url n tmo done_ch stats_ch o)) = O
  /\ published (fst (boom url n tmo done_ch stats_ch o)) = [].
Proof.
  intros Hn. rewrite (boom_beyond_int_max url n tmo done_ch stats_ch o Hn).
  unfold chsend. rewrite bind_call.
  destruct (rets o) as [|rc rs]; [now split|].
  simpl. unfold when, perror. now destruct (rc =? 0).
Qed.

(** C8 fails on the code for an assigned count above [INT_MAX]: the
    count is an [unsigned int] and the loop counter of [boom] an [int], so
    the counter starts negative, the loop body never runs, no request is
    made and nothing is published; the worker sends its completion signal
    at once.  (Up to [INT_MAX] the worker does what C8 says: see
    [boom_in_range] and [boom_loop_total].) *)
Theorem worker_count_beyond_int_max
    (url : string) (n tmo done_ch stats_ch : Z) (o : oracle) :
  INT_MAX < n <= UINT_MAX ->
  boom url n tmo done_ch stats_ch o =
    (rc <- chsend done_ch (MInt 1) ;;
     when (negb (rc =? 0)) (perror "boom() - chsend() failed")) o
  /\ attempts (fst (boom url n tmo done_ch stats_ch o)) = O
  /\ published (fst (boom url n tmo done_ch stats_ch o)) = [].
Proof.
  intros Hn. split.
  - now apply boom_beyond_int_max.
  - now apply boom_beyond_int_max_attempts.
Qed.

Lemma worker_count_beyond_int_max_witness :
  boom "http://localhost/" 4294967295 5000 3 4 (worker_answers 2)
    = ([Chsend 3 (MInt 1) 0],
       Ret tt (mk_oracle [0; 0] [(0, mk_reqstats 120 200); (0, mk_reqstats 120 200)] []))
  /\ attempts (fst (boom "http://localhost/" 4294967295 5000 3 4 (worker_answers 2))) = O
  /\ published (fst (boom "http://localhost/" 4294967295 5000 3 4 (worker_answers 2))) = [].
Proof.
  apply (worker_count_beyond_int_max "http://localhost/" 4294967295 5000 3 4
           (worker_answers 2)).
  split; [reflexivity|discriminate].
Defined.

(** ** The shapes of the runs of [main] *)

Lemma bind_call_report {B} (ev : Z -> event) (m : string) (k : M B) (o : oracle) :
  (rc <- call ev ;; when (negb (rc =? 0)) (perror m) ;; k) o =
    match rets o with
    | [] => ([], Stop Waiting)
    | rc :: rs =>
        (ev rc :: report rc m ++ fst (k (mk_oracle rs (reqs o) (chooses o))),
         snd (k (mk_oracle rs (reqs o) (chooses o))))
    end.
Proof.
  rewrite bind_call. destruct (rets o) as [|rc rs]; [reflexivity|].
  rewrite bind_when. unfold report, perror.
  destruct (rc =? 0); simpl; [reflexivity|]. now rewrite bind_emit.
Qed.

Lemma teardown_report (rc : Z) (m : string) (t : list event) :
  forallb teardown_ev (report rc m ++ t) = forallb teardown_ev t.
Proof. unfold report. now destruct (rc =? 0). Qed.

Lemma barrier_loop_cases (n : nat) (d : Z) (o : oracle) :
  (exists o', barrier_loop n d o = (repeat (Chrecv d 0) n, Ret tt o'))
  \/ (exists k rc, (k < n)%nat /\ rc <> 0 /\
        barrier_loop n d o =
          (repeat (Chrecv d 0) k ++ [Chrecv d rc; Perror "Could not receive on done_ch"],
           Stop (Exit EXIT_FAILURE)))
  \/ (exists k, (k < n)%nat /\
        barrier_loop n d o = (repeat (Chrecv d 0) k, Stop Waiting)).
Proof.
  revert o. induction n as [|n IH]; intros o.
  - left. now exists o.
  - simpl. unfold chrecv. rewrite bind_call.
    destruct (rets o) as [|rc rs].
    + right. right. exists O. split; [lia|reflexivity].
    + destruct (Z.eqb_spec rc 0) as [->|Hrc]; simpl.
      * destruct (IH (mk_oracle rs (reqs o) (chooses o)))
          as [[o' E]|[(k & rc & Hk & Hrc & E)|(k & Hk & E)]]; rewrite E; simpl.
        -- left. now exists o'.
        -- right. left. exists (S k), rc.
           split; [lia|]. split; [assumption|reflexivity].
        -- right. right. exists (S k). split; [lia|reflexivity].
      * right. left. exists O, rc.
        split; [lia|]. split; [assumption|reflexivity].
Qed.

Lemma close_loop_cases (pcoh : list Z) (o : oracle) :
  forallb teardown_ev (fst (close_loop pcoh o)) = true
  /\ ((exists o', snd (close_loop pcoh o) = Ret tt o')
      \/ snd (close_loop pcoh o) = Stop Waiting).
Proof.
  revert o. induction pcoh as [|h rest IH]; intros o.
  - split; [reflexivity|]. left. now exists o.
  - simpl. unfold hclose. rewrite bind_call_report.
    destruct (rets o) as [|rc rs]; simpl.
    + split; [reflexivity|now right].
    + rewrite teardown_report. apply IH.
Qed.

Lemma release_cases (d s p cor st : Z) (pcoh : list Z) (o : oracle) :
  forallb teardown_ev (fst (release d s p cor st pcoh o)) = true
  /\ (snd (release d s p cor st pcoh o) = Stop Waiting
      \/ snd (release d s p cor st pcoh o) = Stop (Exit EXIT_SUCCESS)).
Proof.
  unfold release. rewrite fst_bind, snd_bind, forallb_app.
  destruct (close_loop_cases pcoh o) as [F [[o1 E]|E]]; rewrite F, E; simpl;
    [|split; [reflexivity|now left]].
  unfold hclose, time.
  rewrite bind_call_report. destruct (rets o1) as [|r1 l1]; simpl; [now auto|].
  rewrite teardown_report.
  rewrite bind_call_report. destruct l1 as [|r2 l2]; simpl; [now auto|].
  rewrite teardown_report.
  rewrite bind_call_report. destruct l2 as [|r3 l3]; simpl; [now auto|].
  rewrite teardown_report.
  rewrite bind_call_report. destruct l3 as [|r4 l4]; simpl; [now auto|].
  rewrite teardown_report.
  destruct l4 as [|r5 l5]; simpl; now auto.
Qed.

(** Every run of [shutdown] has one of the shapes of [shutdown_run]. *)
Lemma shutdown_sound (c d s p cor st : Z) (pcoh : list Z) (o : oracle) :
  0 <= c <= INT_MAX ->
  exists h,
    snd (shutdown c d s p cor st pcoh o) = Stop h
    /\ shutdown_run (Z.to_nat c) d p (fst (shutdown c d s p cor st pcoh o)) h.
Proof.
  intros Hc. destruct (shutdown c d s p cor st pcoh o) as [t r] eqn:H.
  unfold shutdown in H.
  rewrite to_int_small in H by (unfold INT_MIN, INT_MAX in *; lia).
  unfold bind at 1 in H. simpl fst; simpl snd.
  destruct (barrier_loop_cases (Z.to_nat c) d o)
    as [[o1 E]|[(k & rc & Hk & Hrc & E)|(k & Hk & E)]]; rewrite E in H.
  - unfold chsend, chrecv in H. rewrite bind_call_report in H.
    destruct (rets o1) as [|rc1 l1]; simpl in H.
    { inversion H; subst. exists Waiting. split; [reflexivity|].
      rewrite app_nil_r. apply SdWaitSend. }
    rewrite bind_call_report in H. simpl in H.
    destruct l1 as [|rc2 l2]; simpl in H.
    { inversion H; subst. exists Waiting. split; [reflexivity|].
      rewrite app_nil_r. apply SdWaitAck. }
    destruct (release_cases d s p cor st pcoh (mk_oracle l2 (reqs o1) (chooses o1)))
      as [F [R|R]]; rewrite R in H; inversion H; subst.
    + exists Waiting. split; [reflexivity|]. apply SdRelease; auto.
    + exists (Exit EXIT_SUCCESS). split; [reflexivity|]. apply SdRelease; auto.
  - inversion H; subst.
    exists (Exit EXIT_FAILURE). split; [reflexivity|]. now apply SdSignalFails.
  - inversion H; subst. exists Waiting. split; [reflexivity|]. now apply SdWaitSignal.
Qed.

Lemma spawn_loop_cases (todo : nat) (w : coroutine) :
  forall (i : Z) (pcoh : list Z) (o : oracle),
    0 <= i <= INT_MAX ->
    exists hs,
      Forall (fun h => 0 <= h) hs
      /\ ((exists o', spawn_loop todo i w pcoh o = (map (Go w) hs, Ret (pcoh ++ hs) o')
                      /\ List.length hs = todo /\ i + Z.of_nat todo <= INT_MAX)
          \/ (exists h, h < 0 /\
                spawn_loop todo i w pcoh o =
                  (map (Go w) hs ++ [Go w h; Perror "Could not launch coroutine"],
                   Stop (Exit EXIT_FAILURE)))
          \/ spawn_loop todo i w pcoh o = (map (Go w) hs, Stop Waiting)
          \/ spawn_loop todo i w pcoh o = (map (Go w) hs, Stop Undefined)).
Proof.
  induction todo as [|todo IH]; intros i pcoh o Hi.
  - exists []. split; [constructor|]. left. exists o. rewrite app_nil_r.
    repeat split; simpl; lia.
  - simpl. unfold go. rewrite bind_call.
    destruct (rets o) as [|h rs].
    { exists []. split; [constructor|]. right. right. now left. }
    destruct (Z.ltb_spec h 0) as [Hh|Hh].
    { exists []. split; [constructor|]. right. left. exists h. now split. }
    destruct (Z.eqb_spec i INT_MAX) as [Ei|Ei].
    { exists [h]. split; [now repeat constructor|]. right. right. now right. }
    destruct (IH (i + 1) (pcoh ++ [h]) (mk_oracle rs (reqs o) (chooses o)))
      as (hs & F & [(o' & E & L & B)|[(h' & Hh' & E)|[E|E]]]); [lia|..];
      exists (h :: hs); (split; [now constructor|]); rewrite E; simpl.
    + left. exists o'. rewrite <- app_assoc. simpl. repeat split; lia.
    + right. left. exists h'. now split.
    + right. right. now left.
    + right. right. now right.
Qed.

Lemma quiet_workers (url : string) (n tmo d s : Z) (hs : list Z) :
  Forall (fun h => 0 <= h) hs ->
  forallb (quiet url n tmo) (map (Go (Boom url n tmo d s)) hs) = true.
Proof.
  induction 1 as [|h hs Hh _ IH]; [reflexivity|]. simpl.
  rewrite IH, String.eqb_refl, !Z.eqb_refl.
  apply Z.leb_le in Hh. now rewrite Hh.
Qed.

(** Every run of [launch] has one of the shapes of [launch_run]. *)
Lemma launch_sound (url : string) (n c tmo v : Z) (o : oracle) :
  0 <= c ->
  exists h,
    snd (launch url n c tmo v o) = Stop h
    /\ launch_run url n c tmo v (fst (launch url n c tmo v o)) h.
Proof.
  intros Hc. destruct (launch url n c tmo v o) as [t r] eqn:H.
  simpl fst; simpl snd. unfold launch in H.
  rewrite bind_emit in H. unfold chmake, time, go, malloc in H.
  (* the three channels *)
  rewrite bind_call in H. destruct (rets o) as [|d l1].
  { inversion H; subst. exists Waiting. split; [reflexivity|].
    apply LQuiet; [reflexivity|now left]. }
  cbn [rets reqs chooses fst snd] in H.
  rewrite bind_call in H. cbn [rets reqs chooses fst snd] in H.
  destruct l1 as [|s l2].
  { inversion H; subst. exists Waiting. split; [reflexivity|].
    destruct (0 <=? d) eqn:Ed.
    - apply LQuiet; [|now left]. simpl. now rewrite Ed.
    - apply (LChmakeWait _ _ _ _ _ [Stdout _] (Chmake _ d) []); simpl;
        rewrite ?Z.ltb_antisym, ?Ed; reflexivity. }
  rewrite bind_call in H. cbn [rets reqs chooses fst snd] in H.
  destruct l2 as [|p l3].
  { inversion H; subst. exists Waiting. split; [reflexivity|].
    destruct (0 <=? d) eqn:Ed; [destruct (0 <=? s) eqn:Es|].
    - apply LQuiet; [|now left]. simpl. now rewrite Ed, Es.
    - apply (LChmakeWait _ _ _ _ _ [Stdout _; Chmake _ d] (Chmake _ s) []); simpl;
        rewrite ?Z.ltb_antisym, ?Ed, ?Es; reflexivity.
    - apply (LChmakeWait _ _ _ _ _ [Stdout _] (Chmake _ d) [Chmake _ s]); simpl;
        rewrite ?Z.ltb_antisym, ?Ed; reflexivity. }
  rewrite !Z.ltb_antisym in H.
  destruct (0 <=? d) eqn:Ed; [destruct (0 <=? s) eqn:Es; [destruct (0 <=? p) eqn:Ep|]|];
    cbn [negb orb] in H.
  2: { unfold perror in H. rewrite bind_emit in H. inversion H; subst.
       exists (Exit EXIT_FAILURE). split; [reflexivity|].
       apply (LFatal _ _ _ _ _ [Stdout _; Chmake _ d; Chmake _ s] (Chmake _ p) []);
         simpl; rewrite ?Z.ltb_antisym, ?Ed, ?Es, ?Ep; auto. }
  2: { unfold perror in H. rewrite bind_emit in H. inversion H; subst.
       exists (Exit EXIT_FAILURE). split; [reflexivity|].
       apply (LFatal _ _ _ _ _ [Stdout _; Chmake _ d] (Chmake _ s) [Chmake _ p]);
         simpl; rewrite ?Z.ltb_antisym, ?Ed, ?Es; auto. }
  2: { unfold perror in H. rewrite bind_emit in H. inversion H; subst.
       exists (Exit EXIT_FAILURE). split; [reflexivity|].
       apply (LFatal _ _ _ _ _ [Stdout _] (Chmake _ d) [Chmake _ s; Chmake _ p]);
         simpl; rewrite ?Z.ltb_antisym, ?Ed; auto. }
  (* the start time and the aggregator *)
  rewrite bind_call in H. cbn [rets reqs chooses fst snd] in H.
  destruct l3 as [|st l4].
  { inversion H; subst. exists Waiting. split; [reflexivity|].
    apply LQuiet; [|now left]. simpl. now rewrite Ed, Es, Ep. }
  rewrite bind_call in H. cbn [rets reqs chooses fst snd] in H.
  destruct l4 as [|cor l5].
  { inversion H; subst. exists Waiting. split; [reflexivity|].
    apply LQuiet; [|now left]. simpl. now rewrite Ed, Es, Ep. }
  rewrite Z.ltb_antisym in H.
  destruct (0 <=? cor) eqn:Ecor; cbn [negb] in H.
  2: { unfold perror in H. rewrite bind_emit in H. inversion H; subst.
       exists (Exit EXIT_FAILURE). split; [reflexivity|].
       apply (LFatal _ _ _ _ _
                [Stdout _; Chmake _ d; Chmake _ s; Chmake _ p; Time st]
                (Go _ cor) []);
         simpl; rewrite ?Z.ltb_antisym, ?Ed, ?Es, ?Ep, ?Ecor; eauto 10. }
  (* the array of handles *)
  rewrite bind_call in H. cbn [rets reqs chooses fst snd] in H.
  destruct l5 as [|m l6].
  { inversion H; subst. exists Waiting. split; [reflexivity|].
    apply LQuiet; [|now left]. simpl. now rewrite Ed, Es, Ep, Ecor. }
  destruct (m =? 0) eqn:Em.
  { unfold perror in H. rewrite bind_emit in H. inversion H; subst.
    exists (Exit EXIT_FAILURE). split; [reflexivity|].
    apply (LFatal _ _ _ _ _
             [Stdout _; Chmake _ d; Chmake _ s; Chmake _ p; Time st; Go _ cor]
             (Malloc _ m) []);
      simpl; rewrite ?Z.ltb_antisym, ?Ed, ?Es, ?Ep, ?Ecor, ?Em; eauto 10. }
  (* the workers *)
  unfold bind in H.
  pose proof (quiet_workers url (n / c) tmo d s) as Q.
  destruct (spawn_loop_cases (Z.to_nat c) (Boom url (n / c) tmo d s) 0 []
              (mk_oracle l6 (reqs o) (chooses o)))
    as (hs & F & [(o' & E & L & B)|[(h' & Hh' & E)|[E|E]]]);
    [unfold INT_MAX; lia|..]; specialize (Q hs F); rewrite E in H.
  - rewrite Z2Nat.id in B by lia.
    destruct (shutdown_sound c d s p cor st hs o') as (h & Hs & R); [lia|].
    destruct (shutdown c d s p cor st ([] ++ hs) o') as [t2 r2] eqn:E2.
    simpl in E2. rewrite E2 in Hs, R. simpl in Hs, R.
    inversion H; subst. exists h. split; [reflexivity|].
    apply (LShutdown url n c tmo v d s p st cor m hs t2 h); auto; try lia;
      try (now apply Z.eqb_neq); now apply Z.leb_le.
  - inversion H; subst. exists (Exit EXIT_FAILURE). split; [reflexivity|].
    apply (LFatal _ _ _ _ _
             ([Stdout _; Chmake _ d; Chmake _ s; Chmake _ p; Time st; Go _ cor;
               Malloc _ m] ++ map (Go (Boom url (n / c) tmo d s)) hs)
             (Go _ h') []).
    + rewrite forallb_app, Q. simpl. now rewrite Ed, Es, Ep, Ecor, Em.
    + simpl. now apply Z.ltb_lt.
    + eauto 10.
    + reflexivity.
  - inversion H; subst. exists Waiting. split; [reflexivity|].
    apply LQuiet; [|now left].
    cbn [forallb quiet]. now rewrite Q, Ed, Es, Ep, Ecor, Em.
  - inversion H; subst. exists Undefined. split; [reflexivity|].
    apply LQuiet; [|now right].
    cbn [forallb quiet]. now rewrite Q, Ed, Es, Ep, Ecor, Em.
Qed.

(** ** Positions in a trace *)

Lemma split_app {A} (l1 l2 pre post : list A) (e : A) :
  l1 ++ l2 = pre ++ e :: post ->
  (exists m, l1 = pre ++ e :: m /\ post = m ++ l2)
  \/ (exists m, pre = l1 ++ m /\ l2 = m ++ e :: post).
Proof.
  revert pre. induction l1 as [|x l1 IH]; intros pre H.
  - right. now exists pre.
  - destruct pre as [|y pre]; simpl in H; injection H as -> H.
    + left. now exists l1.
    + destruct (IH _ H) as [(m & -> & ->)|(m & -> & ->)].
      * left. now exists m.
      * right. now exists m.
Qed.

Lemma split_repeat {A} (x : A) (k : nat) (tail pre post : list A) (e : A) :
  repeat x k ++ tail = pre ++ e :: post ->
  (e = x /\ exists j, (j < k)%nat /\ pre = repeat x j)
  \/ (exists m, pre = repeat x k ++ m /\ tail = m ++ e :: post).
Proof.
  revert pre. induction k as [|k IH]; intros pre H.
  - right. now exists pre.
  - destruct pre as [|y pre]; simpl in H; injection H as -> H.
    + left. split; [reflexivity|]. exists O. split; [lia|reflexivity].
    + destruct (IH _ H) as [(-> & j & Hj & ->)|(m & -> & ->)].
      * left. split; [reflexivity|]. exists (S j). split; [lia|reflexivity].
      * right. now exists m.
Qed.

Lemma split_forallb {A} (Q : A -> bool) (l pre post : list A) (e : A) :
  forallb Q l = true ->
  l = pre ++ e :: post ->
  Q e = true /\ forallb Q pre = true /\ forallb Q post = true.
Proof.
  intros F ->. rewrite forallb_app in F. simpl in F.
  apply andb_prop in F as [F1 F2]. apply andb_prop in F2 as [F2 F3]. auto.
Qed.

Lemma forallb_impl {A} (P Q : A -> bool) (l : list A) :
  (forall x, P x = true -> Q x = true) ->
  forallb P l = true -> forallb Q l = true.
Proof.
  intros HPQ. induction l as [|x l IH]; [reflexivity|]. simpl.
  intros H. apply andb_prop in H as [H1 H2]. now rewrite (HPQ _ H1), IH.
Qed.

(** *** Counting *)

Lemma sends_app (t1 t2 : list event) : sends (t1 ++ t2) = (sends t1 + sends t2)%nat.
Proof. unfold sends. now rewrite filter_app, List.length_app. Qed.

Lemma receives_app (t1 t2 : list event) :
  receives (t1 ++ t2) = (receives t1 + receives t2)%nat.
Proof. unfold receives. now rewrite filter_app, List.length_app. Qed.

Lemma signals_app (t1 t2 : list event) :
  signals (t1 ++ t2) = (signals t1 + signals t2)%nat.
Proof. unfold signals. now rewrite filter_app, List.length_app. Qed.

Lemma counts_calm (t : list event) :
  forallb calm t = true -> sends t = O /\ receives t = O /\ signals t = O.
Proof.
  unfold sends, receives, signals.
  induction t as [|e t IH]; [now auto|]. simpl. intros H.
  apply andb_prop in H as [He Ht]. destruct (IH Ht) as (Hs & Hr & Hg).
  destruct e; try discriminate He; simpl; auto.
Qed.

Lemma counts_barrier (d : Z) (k : nat) :
  sends (repeat (Chrecv d 0) k) = O
  /\ receives (repeat (Chrecv d 0) k) = k
  /\ signals (repeat (Chrecv d 0) k) = k.
Proof.
  unfold sends, receives, signals.
  induction k as [|k (Hs & Hr & Hg)]; simpl; auto.
Qed.

Lemma flat_calm (e : event) : flat e = true -> calm e = true.
Proof. unfold flat. intros H. now apply andb_prop in H. Qed.

Lemma flat_not_release (e : event) : flat e = true -> is_release e = false.
Proof.
  unfold flat. intros H. apply andb_prop in H as [_ H].
  now apply negb_true_iff in H.
Qed.

Lemma quiet_flat (url : string) (n tmo : Z) (e : event) :
  quiet url n tmo e = true -> flat e = true.
Proof. destruct e; simpl; try discriminate; auto. Qed.

Lemma quiet_not_failed (url : string) (n tmo : Z) (e : event) :
  quiet url n tmo e = true -> failed e = false.
Proof.
  destruct e; simpl; try discriminate; auto.
  - intros H. rewrite Z.ltb_antisym. now rewrite H.
  - destruct c; intros H; rewrite Z.ltb_antisym.
    + repeat (apply andb_prop in H as [H _]). now rewrite H.
    + now rewrite H.
  - intros H. now apply negb_true_iff in H.
Qed.

Lemma chmake_flat (e : event) : is_chmake e = true -> flat e = true.
Proof. destruct e; simpl; try discriminate; auto. Qed.

Lemma teardown_calm (e : event) : teardown_ev e = true -> calm e = true.
Proof. destruct e; simpl; try discriminate; auto. Qed.

Lemma teardown_not_failed (e : event) : teardown_ev e = true -> failed e = false.
Proof. destruct e; simpl; try discriminate; auto. Qed.

Lemma setup_trace_quiet (url : string) (n c tmo v d s p st cor m : Z) (hs : list Z) :
  0 <= d -> 0 <= s -> 0 <= p -> 0 <= cor -> m <> 0 ->
  Forall (fun h => 0 <= h) hs ->
  forallb (quiet url (n / c) tmo) (setup_trace url n c tmo v d s p st cor m hs) = true.
Proof.
  intros Hd Hs Hp Hcor Hm F. unfold setup_trace.
  cbn [forallb quiet]. rewrite (quiet_workers url (n / c) tmo d s hs F).
  apply Z.leb_le in Hd, Hs, Hp, Hcor. apply Z.eqb_neq in Hm.
  now rewrite Hd, Hs, Hp, Hcor, Hm.
Qed.

(** A run of [launch] either stops in the set-up, before any channel
    operation and any release, or is a set-up that went well followed by a
    run of [shutdown]. *)
Lemma launch_run_phases (url : string) (n c tmo v : Z) (t : list event) (h : halt) :
  launch_run url n c tmo v t h ->
  forallb flat t = true
  \/ (exists d s p st cor m hs t',
        t = setup_trace url n c tmo v d s p st cor m hs ++ t'
        /\ forallb (quiet url (n / c) tmo)
             (setup_trace url n c tmo v d s p st cor m hs) = true
        /\ List.length hs = Z.to_nat c
        /\ shutdown_run (Z.to_nat c) d p t' h).
Proof.
  intros R. destruct R as [t h Q _|q e cs m Q Fe K Fc|q e cs Q Fe K Fc
                           |d s p st cor m hs t h Hd Hs Hp Hcor Hm F L B R].
  - left. eapply forallb_impl; [apply quiet_flat|exact Q].
  - left. rewrite forallb_app. simpl. rewrite forallb_app. simpl.
    rewrite (forallb_impl _ _ _ (quiet_flat url (n / c) tmo) Q).
    rewrite (forallb_impl _ _ _ chmake_flat Fc).
    destruct K as [K|[_ [(c' & h' & ->)|(n' & r' & ->)]]];
      [now rewrite (chmake_flat _ K)|reflexivity..].
  - left. rewrite forallb_app. simpl.
    rewrite (forallb_impl _ _ _ (quiet_flat url (n / c) tmo) Q).
    rewrite (forallb_impl _ _ _ chmake_flat Fc).
    now rewrite (chmake_flat _ K).
  - right. exists d, s, p, st, cor, m, hs, t.
    split; [reflexivity|]. split; [now apply setup_trace_quiet|]. now split.
Qed.

(** ** The runs of [shutdown] and of [launch] *)

(** Finds the position of [e] in an explicit list. *)
Ltac peel H :=
  simpl in H;
  lazymatch type of H with
  | [] = ?m ++ _ :: _ => destruct m; discriminate H
  | _ :: _ = ?m ++ _ :: _ =>
      let x := fresh "x" in
      destruct m as [|x m]; simpl in H;
      [ injection H as ? ?; subst | injection H as ? H; subst x; peel H ]
  | _ => idtac
  end.

Ltac count_events :=
  rewrite ?sends_app, ?receives_app, ?signals_app;
  repeat match goal with
    | |- context [repeat (Chrecv ?d 0) ?k] =>
        let Hs := fresh in let Hr := fresh in let Hg := fresh in
        destruct (counts_barrier d k) as (Hs & Hr & Hg); rewrite ?Hs, ?Hr, ?Hg;
        clear Hs Hr Hg
    end;
  unfold sends, receives, signals; simpl.

Ltac settle_iff :=
  split;
  [ try discriminate; intros _; repeat split; lia
  | intros (? & ? & ?); try reflexivity; exfalso; lia ].

Lemma shutdown_run_barrier (c : nat) (d p : Z) (t : list event) (h : halt) :
  shutdown_run c d p t h ->
  forall pre e post,
    t = pre ++ e :: post ->
    (is_chsend e = true <->
     signals pre = c /\ receives pre = c /\ sends pre = O).
Proof.
  intros R pre e post H.
  destruct R as [k Hk|k rc Hk Hrc| |rc1|rc1 rc2 rel h F Hh].
  - rewrite <- (app_nil_r (repeat _ k)) in H.
    apply split_repeat in H as [(-> & j & Hj & ->)|(m & -> & H)]; [|peel H].
    count_events. settle_iff.
  - apply split_repeat in H as [(-> & j & Hj & ->)|(m & -> & H)].
    + count_events. settle_iff.
    + apply Z.eqb_neq in Hrc. peel H; count_events; rewrite ?Hrc; simpl; settle_iff.
  - rewrite <- (app_nil_r (repeat _ c)) in H.
    apply split_repeat in H as [(-> & j & Hj & ->)|(m & -> & H)]; [|peel H].
    count_events. settle_iff.
  - apply split_repeat in H as [(-> & j & Hj & ->)|(m & -> & H)].
    + count_events. settle_iff.
    + unfold report in H. destruct (rc1 =? 0); peel H; count_events; settle_iff.
  - apply split_repeat in H as [(-> & j & Hj & ->)|(m & -> & H)].
    + count_events. settle_iff.
    + unfold report in H. destruct (rc1 =? 0), (rc2 =? 0); peel H;
        try (apply (split_forallb _ _ _ _ _ F) in H as (Te & _ & _);
             apply teardown_calm in Te; unfold calm in Te;
             apply andb_prop in Te as [_ Te]; apply negb_true_iff in Te;
             rewrite Te);
        count_events; settle_iff.
Qed.

Lemma shutdown_run_stop_request (c : nat) (d p : Z) (t : list event) (h : halt) :
  shutdown_run c d p t h ->
  forall pre e post,
    t = pre ++ e :: post ->
    is_chsend e = true -> exists rc, e = Chsend p (MInt 1) rc.
Proof.
  intros R pre e post H He.
  destruct R as [k Hk|k rc Hk Hrc| |rc1|rc1 rc2 rel h F Hh].
  - rewrite <- (app_nil_r (repeat _ k)) in H.
    apply split_repeat in H as [(-> & _)|(m & -> & H)]; [discriminate|peel H].
  - apply split_repeat in H as [(-> & _)|(m & -> & H)]; [discriminate|].
    peel H; discriminate.
  - rewrite <- (app_nil_r (repeat _ c)) in H.
    apply split_repeat in H as [(-> & _)|(m & -> & H)]; [discriminate|peel H].
  - apply split_repeat in H as [(-> & _)|(m & -> & H)]; [discriminate|].
    unfold report in H. destruct (rc1 =? 0); peel H; try discriminate; eauto.
  - apply split_repeat in H as [(-> & _)|(m & -> & H)]; [discriminate|].
    unfold report in H. destruct (rc1 =? 0), (rc2 =? 0); peel H;
      try discriminate; eauto;
      apply (split_forallb _ _ _ _ _ F) in H as (Te & _ & _);
      apply teardown_calm in Te; unfold calm in Te;
      apply andb_prop in Te as [_ Te]; apply negb_true_iff in Te; congruence.
Qed.

Lemma shutdown_run_receive (c : nat) (d p : Z) (t : list event) (h : halt) :
  shutdown_run c d p t h ->
  forall pre e post,
    t = pre ++ e :: post ->
    is_chrecv e = true -> sends pre = O -> exists rc, e = Chrecv d rc.
Proof.
  intros R pre e post H He Hs.
  destruct R as [k Hk|k rc Hk Hrc| |rc1|rc1 rc2 rel h F Hh].
  - rewrite <- (app_nil_r (repeat _ k)) in H.
    apply split_repeat in H as [(-> & _)|(m & -> & H)]; [eauto|peel H].
  - apply split_repeat in H as [(-> & _)|(m & -> & H)]; [eauto|].
    peel H; try discriminate; eauto.
  - rewrite <- (app_nil_r (repeat _ c)) in H.
    apply split_repeat in H as [(-> & _)|(m & -> & H)]; [eauto|peel H].
  - apply split_repeat in H as [(-> & _)|(m & -> & H)]; [eauto|].
    unfold report in H. destruct (rc1 =? 0); peel H; discriminate.
  - apply split_repeat in H as [(-> & _)|(m & -> & H)]; [eauto|].
    exfalso. revert Hs. unfold report in H.
    destruct (rc1 =? 0), (rc2 =? 0); peel H; try discriminate;
      count_events; lia.
Qed.

Lemma setup_trace_channels (url : string) (n c tmo v d s p st cor m : Z)
    (hs : list Z) (t : list event) :
  done_channel (setup_trace url n c tmo v d s p st cor m hs ++ t) d
  /\ stats_channel (setup_trace url n c tmo v d s p st cor m hs ++ t) s
  /\ stop_channel (setup_trace url n c tmo v d s p st cor m hs ++ t) p.
Proof. now repeat split. Qed.

Lemma shutdown_run_release (c : nat) (d p : Z) (t : list event) (h : halt) :
  shutdown_run c d p t h ->
  forall pre e post,
    t = pre ++ e :: post ->
    is_release e = true ->
    exists rc1 rc2 m,
      pre = repeat (Chrecv d 0) c
              ++ Chsend p (MInt 1) rc1 :: report rc1 "Failed to send on stop_ch"
              ++ Chrecv p rc2 :: report rc2 "Failed to receive on stop_ch"
              ++ m
      /\ forallb teardown_ev m = true.
Proof.
  intros R pre e post H He.
  destruct R as [k Hk|k rc Hk Hrc| |rc1|rc1 rc2 rel h F Hh].
  - rewrite <- (app_nil_r (repeat _ k)) in H.
    apply split_repeat in H as [(-> & _)|(m & -> & H)]; [discriminate|peel H].
  - apply split_repeat in H as [(-> & _)|(m & -> & H)]; [discriminate|].
    peel H; discriminate.
  - rewrite <- (app_nil_r (repeat _ c)) in H.
    apply split_repeat in H as [(-> & _)|(m & -> & H)]; [discriminate|peel H].
  - apply split_repeat in H as [(-> & _)|(m & -> & H)]; [discriminate|].
    unfold report in H. destruct (rc1 =? 0); peel H; discriminate.
  - apply split_repeat in H as [(-> & _)|(m & -> & H)]; [discriminate|].
    exists rc1, rc2. unfold report in *.
    destruct (rc1 =? 0), (rc2 =? 0); peel H; try discriminate;
      apply (split_forallb _ _ _ _ _ F) in H as (_ & Fm & _);
      eexists; (split; [reflexivity|exact Fm]).
Qed.

Lemma shutdown_run_failed (c : nat) (d p : Z) (t : list event) (h : halt) :
  shutdown_run c d p t h ->
  forall pre e post,
    t = pre ++ e :: post ->
    failed e = true ->
    match e with
    | Chrecv _ _ =>
        (sends pre = O /\ fatal_here post (Stop h))
        \/ (sends pre = 1%nat /\ reported_and_continues post (Stop h))
    | Chsend _ _ _ => reported_and_continues post (Stop h)
    | _ => False
    end.
Proof.
  intros R pre e post H He.
  destruct R as [k Hk|k rc Hk Hrc| |rc1|rc1 rc2 rel h F Hh].
  - rewrite <- (app_nil_r (repeat _ k)) in H.
    apply split_repeat in H as [(-> & _)|(m & -> & H)]; [discriminate|peel H].
  - apply split_repeat in H as [(-> & _)|(m & -> & H)]; [discriminate|].
    peel H; [|discriminate]. left. count_events. split; [lia|].
    eexists. split; reflexivity.
  - rewrite <- (app_nil_r (repeat _ c)) in H.
    apply split_repeat in H as [(-> & _)|(m & -> & H)]; [discriminate|peel H].
  - apply split_repeat in H as [(-> & _)|(m & -> & H)]; [discriminate|].
    unfold report in H. destruct (rc1 =? 0) eqn:E1; peel H;
      simpl in He; rewrite ?E1 in He; simpl in He; try discriminate.
    eexists _, _. split; [reflexivity|now left].
  - apply split_repeat in H as [(-> & _)|(m & -> & H)]; [discriminate|].
    unfold report in H.
    destruct (rc1 =? 0) eqn:E1, (rc2 =? 0) eqn:E2; peel H;
      simpl in He; rewrite ?E1, ?E2 in He; simpl in He; try discriminate;
      try (apply (split_forallb _ _ _ _ _ F) in H as (Te & _ & _);
           apply teardown_not_failed in Te; congruence);
      unfold reported_and_continues;
      try (right; count_events; (split; [lia|]));
      eexists _, _; (split; [reflexivity|]);
      destruct Hh as [-> | ->]; auto.
Qed.

(** *** The workers of a run *)

Lemma workers_app (t1 t2 : list event) :
  workers (t1 ++ t2) = workers t1 ++ workers t2.
Proof.
  induction t1 as [|e t1 IH]; [reflexivity|].
  destruct e; simpl; auto. destruct c; simpl; auto.
  destruct (ret0 <? 0); simpl; now rewrite IH.
Qed.

Lemma workers_no_go (t : list event) : forallb no_go t = true -> workers t = [].
Proof.
  induction t as [|e t IH]; [reflexivity|]. simpl. intros H.
  apply andb_prop in H as [He Ht]. destruct e; try discriminate He; auto.
Qed.

Lemma workers_quiet (url : string) (n tmo : Z) (t : list event) :
  forallb (quiet url n tmo) t = true ->
  Forall (worker_of url n tmo) (workers t).
Proof.
  induction t as [|e t IH]; [constructor|]. simpl. intros H.
  apply andb_prop in H as [He Ht]. specialize (IH Ht).
  destruct e; auto. destruct c; auto. simpl in He.
  apply andb_prop in He as [He Et]. apply andb_prop in He as [He En].
  apply andb_prop in He as [Eh Eu].
  apply String.eqb_eq in Eu. apply Z.eqb_eq in En, Et. subst.
  destruct (ret0 <? 0); [assumption|]. constructor; [|assumption].
  now exists done_ch, stats_ch.
Qed.

Lemma shutdown_run_no_go (c : nat) (d p : Z) (t : list event) (h : halt) :
  shutdown_run c d p t h -> forallb no_go t = true.
Proof.
  assert (B : forall k, forallb no_go (repeat (Chrecv d 0) k) = true)
    by (induction k; auto).
  assert (T : forall l, forallb teardown_ev l = true -> forallb no_go l = true).
  { intros l. apply forallb_impl. now destruct x. }
  intros R. destruct R as [k Hk|k rc Hk Hrc| |rc1|rc1 rc2 rel h F Hh];
    rewrite ?forallb_app, ?B; auto; unfold report;
    try destruct (rc1 =? 0); try destruct (rc2 =? 0); simpl; auto.
Qed.

(** Every worker a run of [launch] starts is started on the same share,
    [nreqs / nconcurr]. *)
Lemma launch_run_workers (url : string) (n c tmo v : Z) (t : list event) (h : halt) :
  launch_run url n c tmo v t h ->
  Forall (worker_of url (n / c) tmo) (workers t).
Proof.
  intros R. destruct R as [t h Q _|q e cs m Q Fe K Fc|q e cs Q Fe K Fc
                           |d s p st cor m hs t h Hd Hs Hp Hcor Hm F L B R].
  - now apply workers_quiet.
  - rewrite workers_app. apply Forall_app. split; [now apply workers_quiet|].
    assert (E : workers (cs ++ [Perror m]) = []).
    { apply workers_no_go. rewrite forallb_app. simpl.
      rewrite (forallb_impl is_chmake no_go); auto. now destruct x. }
    destruct K as [K|[_ [(c' & h' & ->)|(n' & r' & ->)]]].
    + destruct e; try discriminate K. simpl. rewrite E. constructor.
    + simpl in Fe. simpl. rewrite Fe. destruct c'; rewrite E; constructor.
    + simpl. rewrite E. constructor.
  - rewrite workers_app. apply Forall_app. split; [now apply workers_quiet|].
    destruct e; try discriminate K. simpl.
    rewrite workers_no_go; [constructor|].
    eapply forallb_impl; [|exact Fc]. now destruct x.
  - rewrite workers_app. apply Forall_app. split.
    + apply workers_quiet. now apply setup_trace_quiet.
    + rewrite (workers_no_go t); [constructor|].
      eapply shutdown_run_no_go; eassumption.
Qed.

Lemma attempted_in_range (url : string) (n tmo : Z) (ws : list coroutine)
    (os : list oracle) :
  0 <= n <= INT_MAX ->
  Forall (worker_of url n tmo) ws ->
  Forall2 (fun w o => exists o', snd (run_coroutine w o) = Ret tt o') ws os ->
  attempted ws os = (List.length ws * Z.to_nat n)%nat.
Proof.
  intros Hn Hws H. induction H as [|w o ws os (o' & Hret) _ IH]; [reflexivity|].
  inversion Hws as [|? ? (d & s & ->) Hws']; subst.
  cbn [attempted List.length run_coroutine] in *.
  rewrite (IH Hws').
  destruct (boom url n tmo d s o) as [t r] eqn:E. cbn [fst snd] in *. subst r.
  destruct (boom_in_range url n tmo d s o o' t Hn E) as (-> & _). reflexivity.
Qed.

Lemma workers_started (url : string) (n tmo d s : Z) (hs : list Z) :
  forallb (quiet url n tmo) (map (Go (Boom url n tmo d s)) hs) = true ->
  List.length (workers (map (Go (Boom url n tmo d s)) hs)) = List.length hs.
Proof.
  induction hs as [|h hs IH]; [reflexivity|]. simpl. intros H.
  apply andb_prop in H as [Hh Hrest].
  repeat (apply andb_prop in Hh as [Hh _]).
  rewrite Z.ltb_antisym, Hh. simpl. now rewrite IH.
Qed.

(** ** [main] waits only for answers *)

Lemma calls_app (t1 t2 : list event) : calls (t1 ++ t2) = (calls t1 + calls t2)%nat.
Proof. unfold calls. now rewrite filter_app, List.length_app. Qed.

Lemma metered_ret {A} (a : A) : metered (ret a).
Proof. intros o. reflexivity. Qed.

Lemma metered_emit (e : event) : is_call e = false -> metered (emit e).
Proof. intros He o. unfold calls. simpl. now rewrite He. Qed.

Lemma metered_exit {A} (status : Z) : metered (@exit A status).
Proof. intros o. apply Nat.le_0_l. Qed.

Lemma metered_undefined {A} : metered (@undefined A).
Proof. intros o. apply Nat.le_0_l. Qed.

Lemma metered_call (ev : Z -> event) :
  (forall r, is_call (ev r) = true) -> metered (call ev).
Proof.
  intros Hev o. unfold call. destruct (rets o) as [|r rs]; [reflexivity|].
  unfold calls. simpl. now rewrite Hev.
Qed.

Lemma metered_bind {A B} (m : M A) (f : A -> M B) :
  metered m -> (forall a, metered (f a)) -> metered (bind m f).
Proof.
  intros Hm Hf o. specialize (Hm o). rewrite fst_bind, snd_bind, calls_app.
  destruct (snd (m o)) as [a o1|h].
  - specialize (Hf a o1). destruct (snd (f a o1)) as [b o2|[]]; lia.
  - change (calls []) with O. destruct h; lia.
Qed.

Lemma metered_when (b : bool) (m : M unit) : metered m -> metered (when b m).
Proof. destruct b; [trivial|intros _; apply metered_ret]. Qed.

Lemma metered_if {A} (b : bool) (m1 m2 : M A) :
  metered m1 -> metered m2 -> metered (if b then m1 else m2).
Proof. now destruct b. Qed.

Ltac metered_step :=
  first
    [ apply metered_bind; [|intros ?]
    | apply metered_if
    | apply metered_when
    | apply metered_ret
    | apply metered_exit
    | apply metered_undefined
    | apply metered_emit; reflexivity
    | apply metered_call; reflexivity ].

Lemma metered_spawn_loop (todo : nat) (w : coroutine) :
  forall i pcoh, metered (spawn_loop todo i w pcoh).
Proof.
  induction todo as [|todo IH]; intros i pcoh; simpl.
  - apply metered_ret.
  - unfold go, perror. repeat metered_step. apply IH.
Qed.

Lemma metered_barrier_loop (i : nat) (d : Z) : metered (barrier_loop i d).
Proof.
  induction i as [|i IH]; simpl.
  - apply metered_ret.
  - unfold chrecv, perror. repeat metered_step. apply IH.
Qed.

Lemma metered_close_loop (pcoh : list Z) : metered (close_loop pcoh).
Proof.
  induction pcoh as [|h rest IH]; simpl.
  - apply metered_ret.
  - unfold hclose, perror. repeat metered_step. apply IH.
Qed.

(** In every run of [main], an answer of the environment is taken for
    each call made; [main] is left waiting only when the answers have run
    out, and otherwise it exits. *)
Lemma main_waits_only_for_answers (cl : cmdline) (o : oracle) :
  (snd (main cl o) = Stop Waiting ->
   calls (fst (main cl o)) = List.length (rets o))
  /\ (calls (fst (main cl o)) <= List.length (rets o))%nat
  /\ (forall z o', snd (main cl o) <> Ret z o').
Proof.
  assert (Hu : forall A, metered (@usage A)).
  { intros A. unfold usage. repeat metered_step. }
  assert (Hm : metered (main cl)).
  { unfold main. destruct (getopt_loop _ _); [|apply Hu].
    destruct (operands cl); [apply Hu|].
    unfold start, launch, shutdown, release,
      chmake, time, go, malloc, chsend, chrecv, hclose, perror.
    repeat first [ apply metered_spawn_loop | apply metered_barrier_loop
                 | apply metered_close_loop | metered_step ]. }
  assert (Hr : forall z o', snd (main cl o) <> Ret z o').
  { unfold main. destruct (getopt_loop _ _) as [a|]; [|discriminate].
    destruct (operands cl) as [|url rest]; [discriminate|].
    unfold start. repeat match goal with |- context [if ?b then _ else _] =>
                           destruct b; try discriminate end.
    intros z o'. destruct (getConcurrentReqs_range (concurr a)) as [Hc _].
    destruct (launch_sound url (getRequests (requests a))
                (getConcurrentReqs (concurr a)) (getTimeout (timeout a))
                (verbose a) o Hc) as (h & -> & _).
    discriminate. }
  specialize (Hm o). destruct (snd (main cl o)) as [z o'|h].
  - now destruct (Hr z o').
  - split; [|split; [|discriminate]].
    + intros E. injection E as ->. exact Hm.
    + destruct h; lia.
Qed.

(** ** The exact runs of [launch] *)

Lemma close_loop_returns (pcoh : list Z) :
  forall (o o' : oracle) (t : list event),
    close_loop pcoh o = (t, Ret tt o') ->
    exists rcs,
      List.length rcs = List.length pcoh
      /\ t = closing "Could not close boom coroutine" pcoh rcs
      /\ o' = mk_oracle (skipn (List.length pcoh) (rets o)) (reqs o) (chooses o).
Proof.
  induction pcoh as [|h rest IH]; intros o o' t H.
  - inversion H; subst. exists []. destruct o'. now repeat split.
  - cbn [close_loop] in H. unfold hclose in H. rewrite bind_call_report in H.
    destruct (rets o) as [|rc rs]; [discriminate|].
    destruct (close_loop rest _) as [t1 r1] eqn:E. cbn [fst snd] in H.
    inversion H; subst.
    destruct (IH _ _ _ E) as (rcs & L & -> & ->).
    exists (rc :: rcs). cbn. repeat split; auto.
Qed.

(** A release that goes through to [exit]. *)
Lemma release_success (d s p cor st : Z) (pcoh : list Z) (o : oracle) :
  snd (release d s p cor st pcoh o) = Stop (Exit EXIT_SUCCESS) ->
  exists rcs r1 r2 r3 r4 e,
    List.length rcs = List.length pcoh
    /\ fst (release d s p cor st pcoh o)
       = release_trace d s p cor st pcoh rcs r1 r2 r3 r4 e.
Proof.
  unfold release. rewrite fst_bind, snd_bind.
  destruct (close_loop_cases pcoh o) as [_ [[o1 S]|S]]; rewrite S;
    [|discriminate].
  destruct (close_loop_returns pcoh o o1 (fst (close_loop pcoh o)))
    as (rcs & L & -> & _); [now rewrite <- S, <- pair_eta|].
  unfold hclose, time.
  rewrite bind_call_report. destruct (rets o1) as [|r1 l1]; [discriminate|].
  cbn [fst snd rets reqs chooses].
  rewrite bind_call_report. destruct l1 as [|r2 l2]; [discriminate|].
  cbn [fst snd rets reqs chooses].
  rewrite bind_call_report. destruct l2 as [|r3 l3]; [discriminate|].
  cbn [fst snd rets reqs chooses].
  rewrite bind_call_report. destruct l3 as [|r4 l4]; [discriminate|].
  cbn [fst snd rets reqs chooses].
  rewrite bind_emit. cbn [fst snd]. rewrite bind_call.
  destruct l4 as [|e l5]; [discriminate|]. cbn [fst snd rets reqs chooses].
  rewrite bind_emit. cbn [fst snd]. intros _.
  exists rcs, r1, r2, r3, r4, e. split; [exact L|]. reflexivity.
Qed.

(** A run of [shutdown] that goes through to [exit]. *)
Lemma shutdown_success (c d s p cor st : Z) (pcoh : list Z) (o : oracle) :
  0 <= c <= INT_MAX ->
  snd (shutdown c d s p cor st pcoh o) = Stop (Exit EXIT_SUCCESS) ->
  exists rc1 rc2 rcs r1 r2 r3 r4 e,
    List.length rcs = List.length pcoh
    /\ fst (shutdown c d s p cor st pcoh o)
       = repeat (Chrecv d 0) (Z.to_nat c)
           ++ Chsend p (MInt 1) rc1 :: report rc1 "Failed to send on stop_ch"
           ++ Chrecv p rc2 :: report rc2 "Failed to receive on stop_ch"
           ++ release_trace d s p cor st pcoh rcs r1 r2 r3 r4 e.
Proof.
  intros Hc. unfold shutdown.
  rewrite to_int_small by (unfold INT_MIN, INT_MAX in *; lia).
  rewrite fst_bind, snd_bind.
  destruct (barrier_loop_cases (Z.to_nat c) d o)
    as [[o1 E]|[(k & rc & Hk & Hrc & E)|(k & Hk & E)]]; rewrite E; cbn [fst snd];
    [|discriminate..].
  unfold chsend, chrecv.
  rewrite bind_call_report. destruct (rets o1) as [|rc1 l1]; [discriminate|].
  cbn [fst snd rets reqs chooses].
  rewrite bind_call_report. destruct l1 as [|rc2 l2]; [discriminate|].
  cbn [fst snd rets reqs chooses]. intros H.
  destruct (release_success _ _ _ _ _ _ _ H) as (rcs & r1 & r2 & r3 & r4 & e & L & ->).
  now exists rc1, rc2, rcs, r1, r2, r3, r4, e.
Qed.

(** The counter of the spawn loop does not overflow when the workers to
    start are at most [INT_MAX]. *)
Lemma spawn_loop_defined (todo : nat) (w : coroutine) :
  forall (i : Z) (pcoh : list Z) (o : oracle),
    i + Z.of_nat todo <= INT_MAX ->
    snd (spawn_loop todo i w pcoh o) <> Stop Undefined.
Proof.
  induction todo as [|todo IH]; intros i pcoh o Hi; [discriminate|].
  cbn [spawn_loop]. unfold go. rewrite bind_call.
  destruct (rets o) as [|h rs]; [discriminate|]. cbn [fst snd].
  destruct (h <? 0); [discriminate|].
  destruct (Z.eqb_spec i INT_MAX) as [->|_]; [lia|].
  apply IH. lia.
Qed.

Lemma calm_workers (w : coroutine) (l : list Z) :
  forallb calm (map (Go w) l) = true.
Proof. induction l as [|h l IH]; [reflexivity|exact IH]. Qed.

Ltac stopped h :=
  right; exists h; split; [reflexivity|];
  split; [discriminate|]; split; [discriminate|];
  cbn [fst forallb calm is_chrecv is_chsend negb andb];
  rewrite ?forallb_app, ?calm_workers; reflexivity.

(** A run of [launch] either goes through the whole set-up, every call in
    it answered well, and continues with [shutdown]; or it stops in the
    set-up, not with [EXIT_SUCCESS], and beyond the defined behaviour of C
    only with more than [INT_MAX] workers to start. *)
Lemma launch_cases (url : string) (n c tmo v : Z) (o : oracle) :
  0 <= c ->
  (exists d s p st cor m hs o1,
      0 <= d /\ 0 <= s /\ 0 <= p /\ 0 <= cor /\ m <> 0
      /\ Forall (fun h => 0 <= h) hs
      /\ List.length hs = Z.to_nat c
      /\ c <= INT_MAX
      /\ launch url n c tmo v o =
           (setup_trace url n c tmo v d s p st cor m hs
              ++ fst (shutdown c d s p cor st hs o1),
            snd (shutdown c d s p cor st hs o1)))
  \/ (exists h,
        snd (launch url n c tmo v o) = Stop h
        /\ h <> Exit EXIT_SUCCESS
        /\ (h = Undefined -> INT_MAX < c)
        /\ forallb calm (fst (launch url n c tmo v o)) = true).
Proof.
  intros Hc. destruct (launch url n c tmo v o) as [t r] eqn:H.
  cbn [snd]. unfold launch in H.
  rewrite bind_emit in H. unfold chmake, time, go, malloc in H.
  rewrite bind_call in H. destruct (rets o) as [|d l1].
  { inversion H; subst. stopped Waiting. }
  cbn [rets reqs chooses fst snd] in H.
  rewrite bind_call in H. cbn [rets reqs chooses fst snd] in H.
  destruct l1 as [|s l2].
  { inversion H; subst. stopped Waiting. }
  rewrite bind_call in H. cbn [rets reqs chooses fst snd] in H.
  destruct l2 as [|p l3].
  { inversion H; subst. stopped Waiting. }
  rewrite !Z.ltb_antisym in H.
  destruct (0 <=? d) eqn:Ed; [destruct (0 <=? s) eqn:Es; [destruct (0 <=? p) eqn:Ep|]|];
    cbn [negb orb] in H.
  2, 3, 4: unfold perror in H; rewrite bind_emit in H; inversion H; subst;
    stopped (Exit EXIT_FAILURE).
  rewrite bind_call in H. cbn [rets reqs chooses fst snd] in H.
  destruct l3 as [|st l4].
  { inversion H; subst. stopped Waiting. }
  rewrite bind_call in H. cbn [rets reqs chooses fst snd] in H.
  destruct l4 as [|cor l5].
  { inversion H; subst. stopped Waiting. }
  rewrite Z.ltb_antisym in H.
  destruct (0 <=? cor) eqn:Ecor; cbn [negb] in H.
  2: { unfold perror in H. rewrite bind_emit in H. inversion H; subst.
       stopped (Exit EXIT_FAILURE). }
  rewrite bind_call in H. cbn [rets reqs chooses fst snd] in H.
  destruct l5 as [|m l6].
  { inversion H; subst. stopped Waiting. }
  destruct (m =? 0) eqn:Em.
  { unfold perror in H. rewrite bind_emit in H. inversion H; subst.
    stopped (Exit EXIT_FAILURE). }
  unfold bind in H.
  pose proof (spawn_loop_defined (Z.to_nat c) (Boom url (n / c) tmo d s) 0 []
                (mk_oracle l6 (reqs o) (chooses o))) as D.
  destruct (spawn_loop_cases (Z.to_nat c) (Boom url (n / c) tmo d s) 0 []
              (mk_oracle l6 (reqs o) (chooses o)))
    as (hs & F & [(o' & E & L & B)|[(h' & Hh' & E)|[E|E]]]);
    [unfold INT_MAX; lia|..]; rewrite E in H, D.
  - left. rewrite Z2Nat.id in B by lia.
    destruct (shutdown c d s p cor st ([] ++ hs) o') as [t2 r2] eqn:E2.
    cbn [app] in E2. inversion H; subst.
    exists d, s, p, st, cor, m, hs, o'. rewrite E2. cbn [fst snd].
    repeat split; auto; try lia; try (now apply Z.leb_le); now apply Z.eqb_neq.
  - inversion H; subst. stopped (Exit EXIT_FAILURE).
  - inversion H; subst. stopped Waiting.
  - inversion H; subst. right. exists Undefined.
    split; [reflexivity|]. split; [discriminate|]. split.
    + intros _. destruct (Z.le_gt_cases c INT_MAX) as [Hle|Hgt]; [|lia].
      exfalso. apply D; [|reflexivity]. rewrite Z2Nat.id; lia.
    + cbn [fst forallb calm is_chrecv is_chsend negb andb].
      apply calm_workers.
Qed.

(** The three ways of a run of [main]: the usage line; a count turned
    down; or the command line accepted, and the run is one of [launch]. *)
Lemma main_cases (cl : cmdline) (o : oracle) :
  main cl o = ([Stderr usage_line], Stop (Exit EXIT_FAILURE))
  \/ (exists a url rest,
        getopt_loop (options cl) args0 = Some a
        /\ operands cl = url :: rest
        /\ (rejected (main cl o)
            \/ (0 < getConcurrentReqs (concurr a) <= getRequests (requests a)
                /\ main cl o =
                     launch url (getRequests (requests a))
                       (getConcurrentReqs (concurr a)) (getTimeout (timeout a))
                       (verbose a) o))).
Proof.
  unfold main.
  destruct (getopt_loop (options cl) args0) as [a|]; [|now left].
  destruct (operands cl) as [|url rest]; [now left|].
  right. exists a, url, rest. split; [reflexivity|]. split; [reflexivity|].
  pose proof (getRequests_range (requests a)) as Hn.
  pose proof (getConcurrentReqs_range (concurr a)) as Hk.
  destruct (Z.eq_dec (getRequests (requests a)) 0) as [E|E];
    [left; apply start_rejects; auto|].
  destruct (Z.eq_dec (getConcurrentReqs (concurr a)) 0) as [E'|E'];
    [left; apply start_rejects; auto|].
  destruct (Z.lt_ge_cases (getRequests (requests a)) (getConcurrentReqs (concurr a)))
    as [L|L]; [left; apply start_rejects; auto|].
  right. split; [lia|]. now rewrite start_launches.
Qed.

(** A loop of closes left waiting has come a part of the way of
    [closing]. *)
Lemma close_loop_waits (pcoh : list Z) :
  forall o : oracle,
    snd (close_loop pcoh o) = Stop Waiting ->
    exists rcs c rest,
      List.length rcs = List.length pcoh
      /\ is_call c = true
      /\ fst (close_loop pcoh o) ++ c :: rest
         = closing "Could not close boom coroutine" pcoh rcs.
Proof.
  induction pcoh as [|h pcoh IH]; intros o H; [discriminate|].
  cbn [close_loop] in H |- *. unfold hclose in H |- *.
  rewrite bind_call_report in H |- *.
  destruct (rets o) as [|rc rs]; cbn [fst snd] in H |- *.
  - exists (repeat 0 (S (List.length pcoh))), (Hclose h 0),
      (closing "Could not close boom coroutine" pcoh (repeat 0 (List.length pcoh))).
    split; [apply repeat_length|]. split; reflexivity.
  - destruct (IH _ H) as (rcs & c & rest & L & Hc & E).
    exists (rc :: rcs), c, rest. split; [cbn; now rewrite L|]. split; [exact Hc|].
    cbn [closing]. rewrite <- E. cbn [app]. now rewrite <- app_assoc.
Qed.

(** Brings both sides of an equation between traces to the same
    bracketing. *)
Ltac flatten :=
  repeat first [rewrite <- app_assoc | rewrite app_nil_r
               | progress cbn [app report Z.eqb]];
  reflexivity.

(** Every run of [release] is a run of [release_run]. *)
Lemma release_runs (d s p cor st : Z) (pcoh : list Z) (o : oracle) :
  release_run d s p cor st pcoh
    (fst (release d s p cor st pcoh o)) (snd (release d s p cor st pcoh o)).
Proof.
  unfold release_run, release, release_trace. rewrite fst_bind, snd_bind.
  destruct (close_loop_cases pcoh o) as [_ [[o1 S]|S]]; rewrite S.
  - destruct (close_loop_returns pcoh o o1 (fst (close_loop pcoh o)))
      as (rcs & L & -> & _); [now rewrite <- S, <- pair_eta|].
    unfold hclose, time.
    rewrite bind_call_report. destruct (rets o1) as [|r1 l1]; cbn [fst snd].
    { exists rcs, 0, 0, 0, 0, 0. split; [exact L|]. right.
      exists (Hclose cor 0),
        [Hclose d 0; Hclose s 0; Hclose p 0; Free; Time 0; Stdout (run_time_line st 0)].
      split; [reflexivity|]. split; [flatten|reflexivity]. }
    cbn [rets reqs chooses].
    rewrite bind_call_report. destruct l1 as [|r2 l2]; cbn [fst snd].
    { exists rcs, r1, 0, 0, 0, 0. split; [exact L|]. right.
      exists (Hclose d 0),
        [Hclose s 0; Hclose p 0; Free; Time 0; Stdout (run_time_line st 0)].
      split; [reflexivity|]. split; [flatten|reflexivity]. }
    cbn [rets reqs chooses].
    rewrite bind_call_report. destruct l2 as [|r3 l3]; cbn [fst snd].
    { exists rcs, r1, r2, 0, 0, 0. split; [exact L|]. right.
      exists (Hclose s 0), [Hclose p 0; Free; Time 0; Stdout (run_time_line st 0)].
      split; [reflexivity|]. split; [flatten|reflexivity]. }
    cbn [rets reqs chooses].
    rewrite bind_call_report. destruct l3 as [|r4 l4]; cbn [fst snd].
    { exists rcs, r1, r2, r3, 0, 0. split; [exact L|]. right.
      exists (Hclose p 0), [Free; Time 0; Stdout (run_time_line st 0)].
      split; [reflexivity|]. split; [flatten|reflexivity]. }
    cbn [rets reqs chooses].
    rewrite bind_emit. cbn [fst snd]. rewrite bind_call.
    destruct l4 as [|e l5]; cbn [fst snd rets reqs chooses].
    { exists rcs, r1, r2, r3, r4, 0. split; [exact L|]. right.
      exists (Time 0), [Stdout (run_time_line st 0)].
      split; [reflexivity|]. split; [flatten|reflexivity]. }
    rewrite bind_emit. cbn [fst snd].
    exists rcs, r1, r2, r3, r4, e. split; [exact L|]. left. split; reflexivity.
  - destruct (close_loop_waits pcoh o S) as (rcs & c & rest & L & Hc & E).
    exists rcs, 0, 0, 0, 0, 0. split; [exact L|]. right.
    exists c. eexists. split; [exact Hc|]. split; [|reflexivity].
    rewrite app_nil_r, <- E, <- app_assoc. reflexivity.
Qed.

(** The runs of [shutdown], with what follows the stop exchange given by
    [release] itself. *)
Lemma shutdown_cases (c d s p cor st : Z) (pcoh : list Z) (o : oracle) :
  0 <= c <= INT_MAX ->
  (exists k, (k < Z.to_nat c)%nat
             /\ shutdown c d s p cor st pcoh o = (repeat (Chrecv d 0) k, Stop Waiting))
  \/ (exists k rc, (k < Z.to_nat c)%nat /\ rc <> 0
        /\ shutdown c d s p cor st pcoh o
           = (repeat (Chrecv d 0) k
                ++ [Chrecv d rc; Perror "Could not receive on done_ch"],
              Stop (Exit EXIT_FAILURE)))
  \/ shutdown c d s p cor st pcoh o = (repeat (Chrecv d 0) (Z.to_nat c), Stop Waiting)
  \/ (exists rc1,
        shutdown c d s p cor st pcoh o
        = (repeat (Chrecv d 0) (Z.to_nat c)
             ++ Chsend p (MInt 1) rc1 :: report rc1 "Failed to send on stop_ch",
           Stop Waiting))
  \/ (exists rc1 rc2 o2,
        shutdown c d s p cor st pcoh o
        = (repeat (Chrecv d 0) (Z.to_nat c)
             ++ Chsend p (MInt 1) rc1 :: report rc1 "Failed to send on stop_ch"
             ++ Chrecv p rc2 :: report rc2 "Failed to receive on stop_ch"
             ++ fst (release d s p cor st pcoh o2),
           snd (release d s p cor st pcoh o2))).
Proof.
  intros Hc. destruct (shutdown c d s p cor st pcoh o) as [t r] eqn:H.
  unfold shutdown in H.
  rewrite to_int_small in H by (unfold INT_MIN, INT_MAX in *; lia).
  unfold bind at 1 in H.
  destruct (barrier_loop_cases (Z.to_nat c) d o)
    as [[o1 E]|[(k & rc & Hk & Hrc & E)|(k & Hk & E)]]; rewrite E in H.
  - unfold chsend, chrecv in H. rewrite bind_call_report in H.
    destruct (rets o1) as [|rc1 l1]; cbn [fst snd] in H.
    { right. right. left. rewrite app_nil_r in H. now rewrite <- H. }
    cbn [rets reqs chooses] in H. rewrite bind_call_report in H.
    destruct l1 as [|rc2 l2]; cbn [fst snd] in H.
    { right. right. right. left. exists rc1. rewrite app_nil_r in H. now rewrite <- H. }
    cbn [rets reqs chooses] in H. right. right. right. right.
    exists rc1, rc2, (mk_oracle l2 (reqs o1) (chooses o1)). now rewrite <- H.
  - right. left. exists k, rc. now rewrite <- H.
  - left. exists k. now rewrite <- H.
Qed.

Lemma sends_setup (url : string) (n c tmo v d s p st cor m : Z) (hs : list Z) :
  sends (setup_trace url n c tmo v d s p st cor m hs) = O.
Proof.
  unfold setup_trace, sends. cbn [filter is_chsend].
  induction hs as [|h hs IH]; [reflexivity|exact IH].
Qed.

(** A failure in the stop exchange of a run of [launch]: the exact run
    around it. *)
Lemma launch_stop_exchange (url : string) (n c tmo v : Z) (o : oracle) :
  0 <= c ->
  forall pre e post,
    fst (launch url n c tmo v o) = pre ++ e :: post ->
    failed e = true ->
    match e with
    | Chsend _ _ _ =>
        goes_on_after_stop_send url n c tmo v pre e post (snd (launch url n c tmo v o))
    | Chrecv _ _ =>
        sends pre = 1%nat ->
        goes_on_after_ack_receive url n c tmo v pre e post
          (snd (launch url n c tmo v o))
    | _ => True
    end.
Proof.
  intros Hc pre e post H He.
  assert (Hch : is_chsend e = true \/ is_chrecv e = true \/
                match e with Chsend _ _ _ | Chrecv _ _ => False | _ => True end)
    by (destruct e; auto).
  destruct Hch as [Hch|[Hch|Hch]]; [| |now destruct e].
  all: destruct (launch_cases url n c tmo v o Hc)
         as [(d & s & p & st & cor & m & hs & o1 & Hd & Hs & Hp & Hcor & Hm & F & L & B & E)
            |(h & _ & _ & _ & Q)];
    [|destruct (split_forallb _ _ _ _ _ Q H) as (Qe & _); unfold calm in Qe;
      rewrite Hch in Qe; cbn in Qe; rewrite ?andb_false_r in Qe; discriminate Qe].
  all: rewrite E in H |- *; cbn [fst snd] in H |- *;
    pose proof (setup_trace_quiet url n c tmo v d s p st cor m hs Hd Hs Hp Hcor Hm F) as Q;
    apply split_app in H as [(m' & E1 & _)|(m' & -> & E2)];
    [destruct (split_forallb _ _ _ _ _ Q E1) as (Qe & _);
     apply quiet_not_failed in Qe; congruence|].
  all: destruct (shutdown_cases c d s p cor st hs o1 (conj Hc B))
         as [(k & Hk & S)|[(k & rc & Hk & Hrc & S)|[S|[(rc1 & S)|(rc1 & rc2 & o2 & S)]]]];
    rewrite S in E2 |- *; cbn [fst snd] in E2 |- *.
  (* a send *)
  - rewrite <- (app_nil_r (repeat _ k)) in E2.
    apply split_repeat in E2 as [(-> & _)|(x & -> & E2)]; [discriminate|peel E2].
  - apply split_repeat in E2 as [(-> & _)|(x & -> & E2)]; [discriminate|].
    peel E2; discriminate.
  - rewrite <- (app_nil_r (repeat _ (Z.to_nat c))) in E2.
    apply split_repeat in E2 as [(-> & _)|(x & -> & E2)]; [discriminate|peel E2].
  - apply split_repeat in E2 as [(-> & _)|(x & -> & E2)]; [discriminate|].
    unfold report in E2. destruct (rc1 =? 0) eqn:E1; peel E2;
      cbn in He; rewrite ?E1 in He; try discriminate.
    exists d, s, p, st, cor, m, hs, rc1. rewrite app_nil_r.
    split; [exact L|]. split; [reflexivity|]. split; [reflexivity|]. now left.
  - apply split_repeat in E2 as [(-> & _)|(x & -> & E2)]; [discriminate|].
    pose proof (release_runs d s p cor st hs o2) as R.
    destruct (release_cases d s p cor st hs o2) as [T _].
    unfold report in E2 |- *.
    destruct (rc1 =? 0) eqn:E1, (rc2 =? 0) eqn:E2'; peel E2;
      cbn in He, Hch; rewrite ?E1, ?E2' in He; try discriminate;
      try (apply (split_forallb _ _ _ _ _ T) in E2 as (Te & _ & _);
           destruct e; discriminate).
    + exists d, s, p, st, cor, m, hs, rc1. rewrite app_nil_r.
      split; [exact L|]. split; [reflexivity|]. split; [reflexivity|]. right.
      exists rc2, (fst (release d s p cor st hs o2)). unfold report. rewrite E2'.
      split; [reflexivity|exact R].
    + exists d, s, p, st, cor, m, hs, rc1. rewrite app_nil_r.
      split; [exact L|]. split; [reflexivity|]. split; [reflexivity|]. right.
      exists rc2, (fst (release d s p cor st hs o2)). unfold report. rewrite E2'.
      split; [reflexivity|exact R].
  (* a receive *)
  - rewrite <- (app_nil_r (repeat _ k)) in E2.
    apply split_repeat in E2 as [(-> & _)|(x & -> & E2)]; [discriminate|peel E2].
  - apply split_repeat in E2 as [(-> & _)|(x & -> & E2)]; [discriminate|].
    peel E2; [|discriminate]. intros Hs1.
    rewrite app_nil_r, sends_app, sends_setup in Hs1.
    destruct (counts_barrier d k) as (Bs & _). rewrite Bs in Hs1. discriminate.
  - rewrite <- (app_nil_r (repeat _ (Z.to_nat c))) in E2.
    apply split_repeat in E2 as [(-> & _)|(x & -> & E2)]; [discriminate|peel E2].
  - apply split_repeat in E2 as [(-> & _)|(x & -> & E2)]; [discriminate|].
    unfold report in E2. destruct (rc1 =? 0) eqn:E1; peel E2; discriminate.
  - apply split_repeat in E2 as [(-> & _)|(x & -> & E2)]; [discriminate|].
    pose proof (release_runs d s p cor st hs o2) as R.
    destruct (release_cases d s p cor st hs o2) as [T _].
    unfold report in E2.
    destruct (rc1 =? 0) eqn:E1, (rc2 =? 0) eqn:E2'; peel E2;
      cbn in He, Hch; rewrite ?E1, ?E2' in He; try discriminate;
      try (apply (split_forallb _ _ _ _ _ T) in E2 as (Te & _ & _);
           destruct e; discriminate);
      intros _.
    + exists d, s, p, st, cor, m, hs, rc1, rc2, (fst (release d s p cor st hs o2)).
      unfold report. rewrite E1.
      split; [exact L|]. split; [reflexivity|]. now repeat split.
    + exists d, s, p, st, cor, m, hs, rc1, rc2, (fst (release d s p cor st hs o2)).
      unfold report. rewrite E1.
      split; [exact L|]. split; [reflexivity|]. now repeat split.
Qed.

(** *** Runs that go through *)

Lemma spawn_loop_good (w : coroutine) (qs : list (Z * reqstats)) (cs : list choose_ret)
    (more : list Z) :
  forall (hs : list Z) (todo : nat) (i : Z) (pcoh : list Z),
    List.length hs = todo ->
    Forall (fun h => 0 <= h) hs ->
    i + Z.of_nat todo <= INT_MAX ->
    spawn_loop todo i w pcoh (mk_oracle (hs ++ more) qs cs)
    = (map (Go w) hs, Ret (pcoh ++ hs) (mk_oracle more qs cs)).
Proof.
  intros hs todo i pcoh <-. revert i pcoh.
  induction hs as [|h hs IH]; intros i pcoh F Hi.
  - cbn. now rewrite app_nil_r.
  - inversion F as [|? ? Hh F']; subst.
    cbn [List.length spawn_loop]. unfold go. rewrite bind_call.
    cbn [rets reqs chooses app fst snd].
    apply Z.ltb_ge in Hh. rewrite Hh.
    destruct (Z.eqb_spec i INT_MAX) as [->|_]; [cbn [List.length] in Hi; lia|].
    rewrite IH by (auto; cbn [List.length] in Hi; lia).
    cbn [fst snd]. now rewrite <- app_assoc.
Qed.

Lemma barrier_loop_good (d : Z) (qs : list (Z * reqstats)) (cs : list choose_ret)
    (more : list Z) (k : nat) :
  barrier_loop k d (mk_oracle (repeat 0 k ++ more) qs cs)
  = (repeat (Chrecv d 0) k, Ret tt (mk_oracle more qs cs)).
Proof.
  induction k as [|k IH]; [reflexivity|].
  cbn [barrier_loop repeat app]. unfold chrecv. rewrite bind_call.
  cbn [rets reqs chooses fst snd Z.eqb negb]. now rewrite IH.
Qed.

Lemma close_loop_good (qs : list (Z * reqstats)) (cs : list choose_ret)
    (more : list Z) :
  forall pcoh rcs : list Z,
    List.length rcs = List.length pcoh ->
    close_loop pcoh (mk_oracle (rcs ++ more) qs cs)
    = (closing "Could not close boom coroutine" pcoh rcs,
       Ret tt (mk_oracle more qs cs)).
Proof.
  induction pcoh as [|h pcoh IH]; intros [|rc rcs] L; try discriminate L;
    [reflexivity|].
  cbn [close_loop closing app]. unfold hclose. rewrite bind_call_report.
  cbn [rets reqs chooses fst snd]. rewrite IH by (now injection L). reflexivity.
Qed.

Lemma release_good (d s p cor st : Z) (pcoh rcs : list Z) (r1 r2 r3 r4 e : Z)
    (more : list Z) (qs : list (Z * reqstats)) (cs : list choose_ret) :
  List.length rcs = List.length pcoh ->
  release d s p cor st pcoh (mk_oracle (rcs ++ r1 :: r2 :: r3 :: r4 :: e :: more) qs cs)
  = (release_trace d s p cor st pcoh rcs r1 r2 r3 r4 e, Stop (Exit EXIT_SUCCESS)).
Proof.
  intros L. unfold release, release_trace. unfold bind at 1.
  rewrite close_loop_good by assumption. unfold hclose, time.
  do 4 (rewrite bind_call_report; cbn [rets reqs chooses fst snd app]).
  rewrite bind_emit. cbn [fst snd]. rewrite bind_call.
  cbn [rets reqs chooses fst snd app]. rewrite bind_emit. reflexivity.
Qed.

Lemma shutdown_good (c d s p cor st : Z) (pcoh : list Z) (rc1 rc2 : Z) (rcs : list Z)
    (r1 r2 r3 r4 e : Z) (more : list Z) (qs : list (Z * reqstats))
    (cs : list choose_ret) :
  0 <= c <= INT_MAX ->
  List.length rcs = List.length pcoh ->
  shutdown c d s p cor st pcoh
    (mk_oracle (repeat 0 (Z.to_nat c)
                  ++ rc1 :: rc2 :: rcs ++ r1 :: r2 :: r3 :: r4 :: e :: more) qs cs)
  = (repeat (Chrecv d 0) (Z.to_nat c)
       ++ Chsend p (MInt 1) rc1 :: report rc1 "Failed to send on stop_ch"
       ++ Chrecv p rc2 :: report rc2 "Failed to receive on stop_ch"
       ++ release_trace d s p cor st pcoh rcs r1 r2 r3 r4 e,
     Stop (Exit EXIT_SUCCESS)).
Proof.
  intros Hc L. unfold shutdown.
  rewrite to_int_small by (unfold INT_MIN, INT_MAX in *; lia).
  unfold bind at 1. rewrite barrier_loop_good.
  unfold chsend, chrecv.
  do 2 (rewrite bind_call_report; cbn [rets reqs chooses fst snd app]).
  now rewrite release_good.
Qed.

(** A run of [launch] goes through when every call of the set-up is
    answered well and each receive of the barrier delivers a signal. *)
Lemma launch_goes_through (url : string) (n c tmo v : Z)
    (d s p st cor m : Z) (hs : list Z) (rc1 rc2 : Z) (rcs : list Z)
    (r1 r2 r3 r4 e : Z) (more : list Z)
    (qs : list (Z * reqstats)) (cs : list choose_ret) :
  0 <= c <= INT_MAX ->
  0 <= d -> 0 <= s -> 0 <= p -> 0 <= cor -> m <> 0 ->
  Forall (fun h => 0 <= h) hs ->
  List.length hs = Z.to_nat c ->
  List.length rcs = List.length hs ->
  launch url n c tmo v
    (mk_oracle
       ([d; s; p; st; cor; m] ++ hs ++ repeat 0 (Z.to_nat c)
          ++ [rc1; rc2] ++ rcs ++ [r1; r2; r3; r4; e] ++ more)
       qs cs)
  = (success_trace url n c tmo v d s p st cor m hs rc1 rc2 rcs r1 r2 r3 r4 e,
     Stop (Exit EXIT_SUCCESS)).
Proof.
  intros Hc Hd Hs Hp Hcor Hm F L Lr.
  unfold launch, success_trace, setup_trace.
  rewrite bind_emit. unfold chmake, time, go, malloc.
  do 3 (rewrite bind_call; cbn [rets reqs chooses fst snd app]).
  apply Z.ltb_ge in Hd, Hs, Hp, Hcor. rewrite Hd, Hs, Hp. cbn [orb].
  do 2 (rewrite bind_call; cbn [rets reqs chooses fst snd app]).
  rewrite Hcor.
  rewrite bind_call; cbn [rets reqs chooses fst snd app].
  apply Z.eqb_neq in Hm. rewrite Hm.
  unfold bind.
  rewrite (spawn_loop_good _ _ _ _ hs) by (auto; rewrite Z2Nat.id; lia).
  cbn [app]. rewrite shutdown_good by (assumption || lia). reflexivity.
Qed.

(** Every run of [launch] begins with the banner, and its first call is
    the [chmake] of the completion channel. *)
Lemma launch_begins (url : string) (n c tmo v : Z) (o : oracle) :
  exists t,
    fst (launch url n c tmo v o) = Stdout (banner url n c tmo) :: t
    /\ (forall r l, rets o = r :: l -> exists t', t = Chmake sizeof_int r :: t').
Proof.
  unfold launch. rewrite bind_emit. unfold chmake. rewrite bind_call.
  destruct (rets o) as [|r l]; cbn [fst].
  - exists []. split; [reflexivity|]. discriminate.
  - eexists. split; [reflexivity|]. intros r' l' E. injection E as <- <-.
    eexists. reflexivity.
Qed.

(** ** Negative counts *)




(** ** Runs on a valid configuration *)

Section ValidRun.

(** The command line [cl] parses to the options [a] and names a URL; the
    counts that [main] converts from the options, [nreqs] and [nconcurr]
    ([N] and [C] in the comments below), pass its validation. *)
Variables (cl : cmdline) (a : args) (url : string) (rest : list string).

Local Abbreviation nreqs := (getRequests (requests a)).
Local Abbreviation nconcurr := (getConcurrentReqs (concurr a)).

Hypothesis Ha : getopt_loop (options cl) args0 = Some a.
Hypothesis Hu : operands cl = url :: rest.
Hypothesis Hv : 0 < nconcurr <= nreqs.

(** The runs of [main] on a valid configuration are runs of [launch]. *)
Lemma main_valid (o : oracle) :
  exists h,
    snd (main cl o) = Stop h
    /\ launch_run url nreqs nconcurr (getTimeout (timeout a)) (verbose a)
         (fst (main cl o)) h.
Proof.
  rewrite (main_start cl a url rest Ha Hu).
  rewrite start_launches by lia. apply launch_sound. lia.
Qed.

(** A run on a valid configuration in which [main] has come to receive
    went through the whole set-up: the three channels, the aggregator
    started on the stats and the stop/ack channel, [C] workers started on
    the completion and the stats channel; what follows is a run of
    [shutdown] on the completion and the stop/ack channel. *)
Lemma run_past_setup (o : oracle) :
  (0 < receives (fst (main cl o)))%nat ->
  exists d s p st cor m hs t' h,
    fst (main cl o) =
      setup_trace url nreqs nconcurr (getTimeout (timeout a)) (verbose a)
        d s p st cor m hs ++ t'
    /\ List.length hs = Z.to_nat nconcurr
    /\ snd (main cl o) = Stop h
    /\ shutdown_run (Z.to_nat nconcurr) d p t' h.
Proof.
  intros Hrecv.
  destruct (main_valid o) as (h & Hh & R).
  apply launch_run_phases in R
    as [F|(d & s & p & st & cor & m & hs & t' & E & Q & L & R)].
  - destruct (counts_calm _ (forallb_impl _ _ _ flat_calm F)) as (_ & Cr & _).
    rewrite Cr in Hrecv. lia.
  - exists d, s, p, st, cor, m, hs, t', h. auto.
Qed.

(** *** The join barrier and the shutdown sequence *)

(** C3: in every run on a valid configuration, a call of [main] is the
    send of the stop request exactly when what went before it is [C]
    receives that each delivered a completion signal, and no send.  So the
    stop request is never sent after fewer than [C] signals, no receive is
    issued beyond the [C]th, and the call that follows the [C]th signal is
    the send.  The only send of [main] is the stop request [1], on the
    stop/ack channel; the receives before it are on the completion
    channel. *)
Theorem join_barrier_exact (o : oracle) :
  forall pre e post,
    fst (main cl o) = pre ++ e :: post ->
    (is_chsend e = true <->
     signals pre = Z.to_nat nconcurr
     /\ receives pre = Z.to_nat nconcurr
     /\ sends pre = O)
    /\ (is_chsend e = true ->
        exists ch rc, e = Chsend ch (MInt 1) rc /\ stop_channel pre ch)
    /\ (is_chrecv e = true -> sends pre = O ->
        exists ch rc, e = Chrecv ch rc /\ done_channel pre ch).
Proof.
  intros pre e post H.
  destruct (main_valid o) as (h & _ & R).
  assert (Hflat : forall l m, forallb flat l = true -> l = pre ++ e :: m ->
            (is_chsend e = true <->
             signals pre = Z.to_nat nconcurr
             /\ receives pre = Z.to_nat nconcurr
             /\ sends pre = O)
            /\ (is_chsend e = true ->
                exists ch rc, e = Chsend ch (MInt 1) rc /\ stop_channel pre ch)
            /\ (is_chrecv e = true -> sends pre = O ->
                exists ch rc, e = Chrecv ch rc /\ done_channel pre ch)).
  { intros l m F E. destruct (split_forallb _ _ _ _ _ F E) as (Fe & Fp & _).
    apply flat_calm in Fe. unfold calm in Fe.
    apply andb_prop in Fe as [Fr Fe]. apply negb_true_iff in Fe, Fr.
    destruct (counts_calm pre (forallb_impl _ _ _ flat_calm Fp)) as (Cs & Cr & Cg).
    rewrite Fe, Fr, Cs, Cr, Cg. split; [|split; discriminate].
    split; [discriminate|]. intros (? & _). lia. }
  apply launch_run_phases in R
    as [F|(d & s & p & st & cor & m & hs & t' & E & Q & _ & R)].
  - exact (Hflat _ _ F H).
  - rewrite E in H. apply split_app in H as [(m' & E1 & _)|(m' & -> & E2)].
    + exact (Hflat _ _ (forallb_impl _ _ _ (quiet_flat _ _ _) Q) E1).
    + destruct (counts_calm _ (forallb_impl _ _ _ flat_calm
                                 (forallb_impl _ _ _ (quiet_flat _ _ _) Q)))
        as (Cs & Cr & Cg).
      destruct (setup_trace_channels url nreqs nconcurr (getTimeout (timeout a))
                  (verbose a) d s p st cor m hs m') as (Cd & _ & Cp).
      rewrite sends_app, receives_app, signals_app, Cs, Cr, Cg. simpl.
      split; [|split].
      * exact (shutdown_run_barrier _ _ _ _ _ R _ _ _ E2).
      * intros He.
        destruct (shutdown_run_stop_request _ _ _ _ _ R _ _ _ E2 He) as [rc ->].
        eauto.
      * intros He Hs.
        destruct (shutdown_run_receive _ _ _ _ _ R _ _ _ E2 He Hs) as [rc ->].
        eauto.
Qed.

(** C9, amended: in every run on a valid configuration, whatever is
    released (a handle closed, the array freed, the run time printed) comes
    after this sequence: [C] receives that each delivered a completion
    signal, with no send and no release among what went before; the send
    of the stop request; a receive on the same channel that has returned,
    with the acknowledgment or with a failure; a failure of either call is
    reported with [perror] and the sequence carries on.  After the receive
    there is no further channel operation. *)
Theorem release_after_stop_exchange (o : oracle) :
  forall pre e post,
    fst (main cl o) = pre ++ e :: post ->
    is_release e = true ->
    exists p0 stop_ch rc1 rc2 p2,
      pre = p0 ++ Chsend stop_ch (MInt 1) rc1 :: report rc1 "Failed to send on stop_ch"
               ++ Chrecv stop_ch rc2 :: report rc2 "Failed to receive on stop_ch"
               ++ p2
      /\ stop_channel p0 stop_ch
      /\ signals p0 = Z.to_nat nconcurr
      /\ receives p0 = Z.to_nat nconcurr
      /\ sends p0 = O
      /\ forallb (fun x => negb (is_release x)) p0 = true
      /\ forallb teardown_ev p2 = true.
Proof.
  intros pre e post H He.
  destruct (main_valid o) as (h & _ & R).
  apply launch_run_phases in R
    as [F|(d & s & p & st & cor & m & hs & t' & E & Q & _ & R)].
  - destruct (split_forallb _ _ _ _ _ F H) as (Fe & _).
    apply flat_not_release in Fe. congruence.
  - rewrite E in H. apply split_app in H as [(m' & E1 & _)|(m' & -> & E2)].
    + destruct (split_forallb _ _ _ _ _ Q E1) as (Fe & _).
      apply quiet_flat, flat_not_release in Fe. congruence.
    + destruct (shutdown_run_release _ _ _ _ _ R _ _ _ E2 He)
        as (rc1 & rc2 & p2 & -> & F2).
      exists (setup_trace url nreqs nconcurr (getTimeout (timeout a)) (verbose a)
                d s p st cor m hs
                ++ repeat (Chrecv d 0) (Z.to_nat nconcurr)),
        p, rc1, rc2, p2.
      pose proof (forallb_impl _ _ _ (quiet_flat _ _ _) Q) as Fl.
      destruct (counts_calm _ (forallb_impl _ _ _ flat_calm Fl)) as (Cs & Cr & Cg).
      destruct (counts_barrier d (Z.to_nat nconcurr)) as (Bs & Br & Bg).
      rewrite sends_app, receives_app, signals_app, Cs, Cr, Cg, Bs, Br, Bg.
      rewrite <- app_assoc. split; [reflexivity|].
      split; [apply setup_trace_channels|]. repeat split; auto.
      rewrite forallb_app. apply andb_true_intro. split.
      * eapply forallb_impl; [|exact Fl]. intros x Hx.
        now rewrite (flat_not_release _ Hx).
      * clear. induction (Z.to_nat _); [reflexivity|assumption].
Qed.

(** *** Failures in the orchestrator *)

(** The failures of the calls of [main], by the call that failed: fatal
    at once, fatal once the remaining [chmake] calls are made, or reported
    with the run going on. *)
Lemma failures_classified (o : oracle) :
  forall pre e post,
    fst (main cl o) = pre ++ e :: post ->
    failed e = true ->
    match e with
    | Chmake _ _ => fatal_after_chmakes post (snd (main cl o))
    | Go _ _ | Malloc _ _ => fatal_here post (snd (main cl o))
    | Chrecv _ _ =>
        (sends pre = O /\ fatal_here post (snd (main cl o)))
        \/ (sends pre = 1%nat /\ reported_and_continues post (snd (main cl o)))
    | Chsend _ _ _ => reported_and_continues post (snd (main cl o))
    | _ => False
    end
    /\ (snd (main cl o) = Stop Waiting ->
        calls (fst (main cl o)) = List.length (rets o)).
Proof.
  intros pre e post H He.
  split; [|apply main_waits_only_for_answers].
  destruct (main_valid o) as (h & -> & R).
  destruct R as [t h Q _|q e0 cs m Q Fe K Fc|q e0 cs Q Fe K Fc
                |d s p st cor m hs t h Hd Hs Hp Hcor Hm F L B R].
  - destruct (split_forallb _ _ _ _ _ Q H) as (Qe & _).
    apply quiet_not_failed in Qe. congruence.
  - apply split_app in H as [(m' & E1 & _)|(m' & -> & E2)].
    { destruct (split_forallb _ _ _ _ _ Q E1) as (Qe & _).
      apply quiet_not_failed in Qe. congruence. }
    destruct m' as [|x m']; simpl in E2; injection E2 as <- E2.
    + subst post.
      destruct K as [K|[-> [(c' & h' & ->)|(n' & r' & ->)]]].
      * destruct e0; try discriminate K. exists cs. split; [exact Fc|].
        left. now exists m.
      * now exists m.
      * now exists m.
    + apply split_app in E2 as [(m3 & E3 & ->)|(m3 & -> & E3)].
      * destruct (split_forallb _ _ _ _ _ Fc E3) as (Ce & _ & C3).
        destruct e; try discriminate Ce. exists m3. split; [exact C3|].
        left. now exists m.
      * peel E3. discriminate He.
  - apply split_app in H as [(m' & E1 & _)|(m' & -> & E2)].
    { destruct (split_forallb _ _ _ _ _ Q E1) as (Qe & _).
      apply quiet_not_failed in Qe. congruence. }
    destruct m' as [|x m']; simpl in E2; injection E2 as <- E2.
    + subst post. destruct e0; try discriminate K.
      exists cs. split; [exact Fc|]. now right.
    + destruct (split_forallb _ _ _ _ _ Fc E2) as (Ce & _ & C3).
      destruct e; try discriminate Ce. exists post. split; [exact C3|]. now right.
  - pose proof (setup_trace_quiet url nreqs nconcurr (getTimeout (timeout a))
                  (verbose a) d s p st cor m hs Hd Hs Hp Hcor Hm F) as Q.
    apply split_app in H as [(m' & E1 & _)|(m' & -> & E2)].
    { destruct (split_forallb _ _ _ _ _ Q E1) as (Qe & _).
      apply quiet_not_failed in Qe. congruence. }
    pose proof (shutdown_run_failed _ _ _ _ _ R _ _ _ E2 He) as X.
    pose proof (forallb_impl _ _ _ (quiet_flat _ _ _) Q) as Fl.
    destruct (counts_calm _ (forallb_impl _ _ _ flat_calm Fl)) as (Cs & _ & _).
    rewrite sends_app, Cs. destruct e; try contradiction; exact X.
Qed.

(** C7, amended: in every run on a valid configuration, a failed spawn, a
    failed allocation and a failed receive on the completion channel (a
    receive before the stop request is sent) are reported with [perror] and
    the process exits with [EXIT_FAILURE] at once; after a failed [chmake]
    the same happens once the remaining [chmake] calls are made.  A failed
    send of the stop request and a failed receive of the acknowledgment are
    reported with [perror] and are not fatal: the shutdown sequence goes
    on as it does after a success, with the receive of the acknowledgment
    (after a failed send), then the closing of every handle, the [free],
    the end time and the run-time line, and the exit with [EXIT_SUCCESS];
    the run stops short of that only by waiting in one of these calls, and
    [main] is left waiting only when every answer has been taken. *)
Theorem orchestrator_failures (o : oracle) :
  forall pre e post,
    fst (main cl o) = pre ++ e :: post ->
    failed e = true ->
    match e with
    | Chmake _ _ => fatal_after_chmakes post (snd (main cl o))
    | Go _ _ | Malloc _ _ => fatal_here post (snd (main cl o))
    | Chrecv _ _ =>
        (sends pre = O /\ fatal_here post (snd (main cl o)))
        \/ (sends pre = 1%nat
            /\ goes_on_after_ack_receive url nreqs nconcurr (getTimeout (timeout a))
                 (verbose a) pre e post (snd (main cl o)))
    | Chsend _ _ _ =>
        goes_on_after_stop_send url nreqs nconcurr (getTimeout (timeout a))
          (verbose a) pre e post (snd (main cl o))
    | _ => False
    end
    /\ (snd (main cl o) = Stop Waiting ->
        calls (fst (main cl o)) = List.length (rets o)).
Proof.
  intros pre e post H He.
  destruct (failures_classified o pre e post H He) as [K W].
  split; [|exact W].
  assert (E : main cl o
              = launch url nreqs nconcurr (getTimeout (timeout a)) (verbose a) o).
  { rewrite (main_start cl a url rest Ha Hu). now rewrite start_launches by lia. }
  rewrite E in H, K |- *.
  pose proof (launch_stop_exchange url nreqs nconcurr (getTimeout (timeout a))
                (verbose a) o (Z.lt_le_incl _ _ (proj1 Hv)) pre e post H He) as X.
  destruct e; try exact K; [|exact X].
  destruct K as [K|[S1 _]]; [now left|right]. split; [exact S1|exact (X S1)].
Qed.

(** *** The share of each worker *)

(** C1 fails on the code when the share [floor(N/C)] is above [INT_MAX]
    (so [C = 1] and [N >= 2^31], as [-n -1] gives): every worker is started
    on the share, as C1 says, but no worker attempts any request, because
    of the [int] counter of [boom].  The total attempted is [0], not
    [C * floor(N/C)]. *)
Theorem share_beyond_int_max_not_attempted (o : oracle) :
  INT_MAX < nreqs / nconcurr ->
  Forall (worker_of url (nreqs / nconcurr) (getTimeout (timeout a)))
    (workers (fst (main cl o)))
  /\ (forall os, attempted (workers (fst (main cl o))) os = O)
  /\ 0 < nconcurr * (nreqs / nconcurr).
Proof.
  intros Hbig.
  destruct (main_valid o) as (h & _ & R).
  apply launch_run_workers in R. split; [exact R|]. split.
  - assert (Hle : nreqs / nconcurr <= UINT_MAX).
    { pose proof (getRequests_range (requests a)) as [_ Hr].
      pose proof (Z.div_le_upper_bound nreqs nconcurr UINT_MAX).
      unfold UINT_MAX in *. nia. }
    induction R as [|w ws (d & s & ->) _ IH]; intros os; [reflexivity|].
    destruct os as [|o1 os]; [reflexivity|]. simpl.
    destruct (boom_beyond_int_max_attempts url _ (getTimeout (timeout a)) d s o1
                (conj Hbig Hle)) as (-> & _).
    apply IH.
  - unfold INT_MAX in Hbig. nia.
Qed.

(** X8: within the range of [int] the shares are attempted in full: in a run
    on a valid configuration that has reached the join barrier, [C] workers
    were started, each on [floor(N/C)] requests, and when each of them runs
    to its end the requests attempted are [C * floor(N/C)]. *)
Lemma share_attempted_in_range (o : oracle) (os : list oracle) :
  nreqs / nconcurr <= INT_MAX ->
  (0 < receives (fst (main cl o)))%nat ->
  Forall2 (fun w o => exists o', snd (run_coroutine w o) = Ret tt o')
    (workers (fst (main cl o))) os ->
  List.length (workers (fst (main cl o))) = Z.to_nat nconcurr
  /\ Z.of_nat (attempted (workers (fst (main cl o))) os)
     = nconcurr * (nreqs / nconcurr).
Proof.
  intros Hsmall Hrecv Hruns.
  destruct (main_valid o) as (h & _ & R).
  pose proof (launch_run_workers _ _ _ _ _ _ _ R) as Hws.
  assert (Hlen : List.length (workers (fst (main cl o))) = Z.to_nat nconcurr).
  { apply launch_run_phases in R
      as [F|(d & s & p & st & cor & m & hs & t' & E & Q & L & R)].
    - destruct (counts_calm _ (forallb_impl _ _ _ flat_calm F)) as (_ & Rv & _).
      lia.
    - rewrite E, workers_app.
      rewrite (workers_no_go t') by (eapply shutdown_run_no_go; eassumption).
      rewrite app_nil_r. unfold setup_trace in *. cbn [forallb] in Q.
      repeat (apply andb_prop in Q as [_ Q]).
      cbn [workers]. now rewrite workers_started. }
  split; [exact Hlen|].
  assert (Hq : 0 <= nreqs / nconcurr).
  { apply Z.div_pos; [apply getRequests_range|lia]. }
  rewrite (attempted_in_range url _ (getTimeout (timeout a)) _ os
             (conj Hq Hsmall) Hws Hruns).
  rewrite Hlen. lia.
Qed.

End ValidRun.

(** ** Sample runs of the orchestrator *)

Lemma join_barrier_exact_witness :
  (is_chsend (Chsend 5 (MInt 1) 0) = true <->
   signals (two_by_two_setup ++ [Chrecv 3 0; Chrecv 3 0]) = 2%nat
   /\ receives (two_by_two_setup ++ [Chrecv 3 0; Chrecv 3 0]) = 2%nat
   /\ sends (two_by_two_setup ++ [Chrecv 3 0; Chrecv 3 0]) = O)
  /\ (is_chsend (Chsend 5 (MInt 1) 0) = true ->
      exists ch rc,
        Chsend 5 (MInt 1) 0 = Chsend ch (MInt 1) rc
        /\ stop_channel (two_by_two_setup ++ [Chrecv 3 0; Chrecv 3 0]) ch).
Proof.
  destruct (join_barrier_exact two_by_two two_by_two_args "http://localhost/" []
              eq_refl eq_refl)
    with (o := answers 0 0)
         (pre := two_by_two_setup ++ [Chrecv 3 0; Chrecv 3 0])
         (e := Chsend 5 (MInt 1) 0)
         (post := [Chrecv 5 0; Hclose 7 0; Hclose 8 0; Hclose 6 0; Hclose 3 0;
                   Hclose 4 0; Hclose 5 0; Free; Time 1003;
                   Stdout (run_time_line 1000 1003)])
    as (H1 & H2 & _).
  - split; [reflexivity|discriminate].
  - reflexivity.
  - split; [exact H1|exact H2].
Defined.

(** C9, as it stands, fails: in the run of [dboom -n 2 -c 2] in which the
    receive of the acknowledgment returns [-1], the handles are closed
    although no acknowledgment was received. *)
Lemma release_without_acknowledgment :
  ~ (forall pre e post,
       fst (main two_by_two (answers 0 (-1))) = pre ++ e :: post ->
       is_release e = true ->
       acked pre = true).
Proof.
  intros H.
  specialize (H (two_by_two_setup
                   ++ [Chrecv 3 0; Chrecv 3 0; Chsend 5 (MInt 1) 0; Chrecv 5 (-1);
                       Perror "Failed to receive on stop_ch"])
                (Hclose 7 0)
                [Hclose 8 0; Hclose 6 0; Hclose 3 0; Hclose 4 0; Hclose 5 0; Free;
                 Time 1003; Stdout (run_time_line 1000 1003)]
                eq_refl eq_refl).
  discriminate H.
Qed.

Lemma release_after_stop_exchange_witness :
  exists p0 stop_ch rc1 rc2 p2,
    two_by_two_setup
      ++ [Chrecv 3 0; Chrecv 3 0; Chsend 5 (MInt 1) 0; Chrecv 5 (-1);
          Perror "Failed to receive on stop_ch"]
    = p0 ++ Chsend stop_ch (MInt 1) rc1 :: report rc1 "Failed to send on stop_ch"
         ++ Chrecv stop_ch rc2 :: report rc2 "Failed to receive on stop_ch"
         ++ p2
    /\ stop_channel p0 stop_ch
    /\ signals p0 = 2%nat
    /\ receives p0 = 2%nat
    /\ sends p0 = O
    /\ forallb (fun x => negb (is_release x)) p0 = true
    /\ forallb teardown_ev p2 = true.
Proof.
  apply (release_after_stop_exchange two_by_two two_by_two_args
           "http://localhost/" [] eq_refl eq_refl)
    with (o := answers 0 (-1))
         (e := Hclose 7 0)
         (post := [Hclose 8 0; Hclose 6 0; Hclose 3 0; Hclose 4 0; Hclose 5 0;
                   Free; Time 1003; Stdout (run_time_line 1000 1003)]).
  - split; [reflexivity|discriminate].
  - reflexivity.
  - reflexivity.
Defined.

(** C7, as it stands, fails: in the run of [dboom -n 2 -c 2] in which the
    send of the stop request returns [-1], the process goes on and exits
    with [EXIT_SUCCESS]. *)
Lemma failed_stop_send_is_not_fatal :
  ~ (forall pre e post,
       fst (main two_by_two (answers (-1) 0)) = pre ++ e :: post ->
       failed e = true ->
       snd (main two_by_two (answers (-1) 0)) = Stop (Exit EXIT_FAILURE)).
Proof.
  intros H.
  specialize (H (two_by_two_setup ++ [Chrecv 3 0; Chrecv 3 0])
                (Chsend 5 (MInt 1) (-1))
                [Perror "Failed to send on stop_ch"; Chrecv 5 0;
                 Hclose 7 0; Hclose 8 0; Hclose 6 0; Hclose 3 0; Hclose 4 0;
                 Hclose 5 0; Free; Time 1003; Stdout (run_time_line 1000 1003)]
                eq_refl eq_refl).
  discriminate H.
Qed.

Lemma orchestrator_failures_witness :
  goes_on_after_stop_send "http://localhost/" 2 2 5000 0
    (two_by_two_setup ++ [Chrecv 3 0; Chrecv 3 0])
    (Chsend 5 (MInt 1) (-1))
    [Perror "Failed to send on stop_ch"; Chrecv 5 0;
     Hclose 7 0; Hclose 8 0; Hclose 6 0; Hclose 3 0; Hclose 4 0;
     Hclose 5 0; Free; Time 1003; Stdout (run_time_line 1000 1003)]
    (Stop (Exit EXIT_SUCCESS))
  /\ (snd (main two_by_two (answers (-1) 0)) = Stop Waiting ->
      calls (fst (main two_by_two (answers (-1) 0)))
        = List.length (rets (answers (-1) 0))).
Proof.
  apply (orchestrator_failures two_by_two two_by_two_args "http://localhost/" []
           eq_refl eq_refl)
    with (o := answers (-1) 0)
         (pre := two_by_two_setup ++ [Chrecv 3 0; Chrecv 3 0])
         (e := Chsend 5 (MInt 1) (-1)).
  - split; [reflexivity|discriminate].
  - reflexivity.
  - reflexivity.
Defined.

Lemma share_beyond_int_max_not_attempted_witness :
  workers (fst (main minus_one minus_one_answers))
    = [Boom "http://localhost/" 4294967295 5000 3 4]
  /\ attempted (workers (fst (main minus_one minus_one_answers))) [worker_answers 2] = O
  /\ 1 * (4294967295 / 1) = 4294967295.
Proof.
  destruct (share_beyond_int_max_not_attempted minus_one minus_one_args
              "http://localhost/" [] eq_refl eq_refl)
    with (o := minus_one_answers)
    as (_ & H & _).
  - split; [reflexivity|discriminate].
  - reflexivity.
  - split; [reflexivity|]. split; [apply H|reflexivity].
Defined.

(** The example of the spec: with [N = 10] and [C = 3] each of the three
    workers is given 3 requests and 9 are attempted, not 10. *)
Example ten_by_three_attempts_nine :
  workers (fst (main ten_by_three ten_by_three_answers))
    = repeat (Boom "http://localhost/" 3 5000 3 4) 3
  /\ attempted (workers (fst (main ten_by_three ten_by_three_answers)))
       [worker_answers 3; worker_answers 3; worker_answers 3] = 9%nat
  /\ snd (main ten_by_three ten_by_three_answers) = Stop (Exit EXIT_SUCCESS).
Proof. repeat split; reflexivity. Qed.

(** ** The aggregator *)

Lemma received_app (t1 t2 : list event) :
  received (t1 ++ t2) = received t1 ++ received t2.
Proof.
  induction t1 as [|e t1 IH]; [reflexivity|].
  destruct e; simpl; auto. destruct r; simpl; auto. now rewrite IH.
Qed.

Lemma stdout_of_app (t1 t2 : list event) :
  stdout_of (t1 ++ t2) = stdout_of t1 ++ stdout_of t2.
Proof.
  induction t1 as [|e t1 IH]; [reflexivity|].
  destruct e; simpl; auto. now rewrite IH.
Qed.

Lemma received_turns (s p vb : Z) (used : list choose_ret) :
  received (flat_map (turn_events s p vb) used) = results used.
Proof.
  induction used as [|c used IH]; [reflexivity|].
  cbn [flat_map]. rewrite received_app, IH.
  destruct c; simpl; auto. now destruct (negb (vb =? 0)).
Qed.

Lemma stdout_of_turns (s p vb : Z) (used : list choose_ret) :
  stdout_of (flat_map (turn_events s p vb) used) =
    if negb (vb =? 0) then map echo_line (results used) else [].
Proof.
  induction used as [|c used IH]; [now destruct (negb (vb =? 0))|].
  cbn [flat_map]. rewrite stdout_of_app, IH.
  destruct c; simpl; auto; destruct (negb (vb =? 0)); reflexivity.
Qed.

Lemma sends_turns (s p vb : Z) (used : list choose_ret) :
  sends (flat_map (turn_events s p vb) used) = O.
Proof.
  induction used as [|c used IH]; [reflexivity|].
  cbn [flat_map]. rewrite sends_app, IH.
  destruct c; unfold turn_events; try reflexivity.
  destruct (negb (vb =? 0)); reflexivity.
Qed.

Lemma to_uint_add_l (a b : Z) : to_uint (to_uint a + b) = to_uint (a + b).
Proof. unfold to_uint. apply Zplus_mod_idemp_l. Qed.

(** The loop of [stats]: the answers of [choose] it has taken, [used], one
    turn each; the counters when it leaves the loop. *)
Lemma stats_loop_shape (s p vb : Z) (rs0 : list Z) (qs : list (Z * reqstats)) :
  forall (cs : list choose_ret) (v : stats_vars),
    0 <= total v <= UINT_MAX ->
    exists used rest,
      cs = used ++ rest
      /\ match snd (stats_loop s p vb rs0 qs cs v) with
         | Ret v' o' =>
             fst (stats_loop s p vb rs0 qs cs v) = flat_map (turn_events s p vb) used
             /\ o' = mk_oracle rs0 qs rest
             /\ nrequests v' = nrequests v + Z.of_nat (List.length (results used))
             /\ total v' = to_uint (total v + latency (results used))
         | Stop Waiting =>
             fst (stats_loop s p vb rs0 qs cs v) = flat_map (turn_events s p vb) used
             /\ rest = []
         | Stop Undefined =>
             exists x,
               fst (stats_loop s p vb rs0 qs cs v) =
                 flat_map (turn_events s p vb) used ++ [Choose p s (ChooseStats x)]
         | Stop (Exit _) => False
         end.
Proof.
  induction cs as [|c cs IH]; intros v Hv.
  - exists [], []. split; [reflexivity|]. simpl.
    destruct (stop v =? 0); simpl; [now split|].
    rewrite !Z.add_0_r, to_uint_small by assumption. now repeat split; try lia.
  - simpl stats_loop. destruct (stop v =? 0).
    2: { exists [], (c :: cs). split; [reflexivity|]. simpl.
         rewrite !Z.add_0_r, to_uint_small by assumption. now repeat split; try lia. }
    destruct c as [|x|r]; simpl.
    + exists [ChooseFail], cs. split; [reflexivity|]. simpl.
      rewrite !Z.add_0_r, to_uint_small by assumption. now repeat split; try lia.
    + destruct (IH (mk_vars (nrequests v) (total v) x (rs v)) Hv)
        as (used & rest & -> & H).
      exists (ChooseStop x :: used), rest. split; [reflexivity|].
      destruct (stats_loop s p vb rs0 qs (used ++ rest) _) as [t r]. simpl in *.
      destruct r as [v' o'|[| |]]; auto.
      * destruct H as (-> & H). now split.
      * destruct H as (-> & H). now split.
      * destruct H as (y & ->). now exists y.
    + destruct (nrequests v =? INT_MAX).
      { exists [], (ChooseStats r :: cs). split; [reflexivity|]. now exists r. }
      destruct (IH (mk_vars (nrequests v + 1) (to_uint (total v + tm r)) (stop v) r)
                  (to_uint_range _)) as (used & rest & -> & H).
      exists (ChooseStats r :: used), rest. split; [reflexivity|].
      destruct (stats_loop s p vb rs0 qs (used ++ rest) _) as [t r0]. simpl in *.
      destruct r0 as [v' o'|[| |]]; auto.
      * destruct H as (-> & -> & N & T). rewrite N, T, to_uint_add_l.
        repeat split; auto; [lia|f_equal; lia].
      * destruct H as (-> & H). now split.
      * destruct H as (y & ->). exists y. now rewrite app_assoc.
Qed.

(** Every run of [stats]: the turns of the loop on the answers [used];
    then, if the loop was left, the summary line when there was a result,
    and the acknowledgment. *)
Lemma stats_shape (s p vb : Z) (o : oracle) :
  exists used rest,
    chooses o = used ++ rest
    /\ match snd (stats s p vb o) with
       | Ret _ o' =>
           exists v rc,
             fst (stats s p vb o) =
               flat_map (turn_events s p vb) used
                 ++ (if Z.of_nat (List.length (results used)) >? 0
                     then [Stdout (avg_line (Z.of_nat (List.length (results used)))
                                     (to_uint (latency (results used))))]
                     else [])
                 ++ Chsend p (MInt v) rc :: report rc "stats() - chsend() failed"
       | Stop Waiting =>
           fst (stats s p vb o) =
             flat_map (turn_events s p vb) used
               ++ (if Z.of_nat (List.length (results used)) >? 0
                   then [Stdout (avg_line (Z.of_nat (List.length (results used)))
                                   (to_uint (latency (results used))))]
                   else [])
           \/ fst (stats s p vb o) = flat_map (turn_events s p vb) used
       | Stop Undefined =>
           exists x,
             fst (stats s p vb o) =
               flat_map (turn_events s p vb) used ++ [Choose p s (ChooseStats x)]
       | Stop (Exit _) => False
       end.
Proof.
  destruct (stats_loop_shape s p vb (rets o) (reqs o) (chooses o)
              (mk_vars 0 0 0 reqstats_new))
    as (used & rest & E & H); [simpl; unfold UINT_MAX; lia|].
  exists used, rest. split; [exact E|].
  unfold stats. rewrite fst_bind, snd_bind.
  destruct (stats_loop s p vb _ _ _ _) as [t [v' o'|h]]; simpl in *.
  - destruct H as (-> & -> & N & T). simpl in N, T. rewrite N, T.
    unfold chsend. rewrite bind_when.
    destruct (Z.of_nat (List.length (results used)) >? 0).
    + unfold perror. rewrite bind_emit, bind_call. simpl.
      destruct (rets o) as [|rc rs']; simpl; [now left|].
      unfold when, report. destruct (rc =? 0) eqn:Erc; simpl;
        exists (stop v'), rc; now rewrite Erc.
    + rewrite bind_call. simpl.
      destruct (rets o) as [|rc rs']; simpl; [now left|].
      unfold when, report. destruct (rc =? 0) eqn:Erc; simpl;
        exists (stop v'), rc; now rewrite Erc.
  - destruct h; auto.
    + destruct H as (-> & _). rewrite app_nil_r. now right.
    + destruct H as (x & ->). exists x. now rewrite app_nil_r.
Qed.

(** C6: in a run of [stats] in verbose mode, the loop is a sequence of
    turns, one per answer of [choose], and the turn of a result prints the
    line of that result (its status code and latency) right after
    receiving it.  So the lines on [stdout] are the lines of the results
    received, one each and in the order of arrival, followed by nothing
    but the summary line if there is one.  (A run whose count of results
    reaches [INT_MAX] has no defined behaviour.) *)
Theorem verbose_echo_per_result (s p vb : Z) (o : oracle) :
  vb <> 0 ->
  snd (stats s p vb o) <> Stop Undefined ->
  exists used tail summary,
    fst (stats s p vb o) = flat_map (turn_events s p vb) used ++ tail
    /\ (forall r, turn_events s p vb (ChooseStats r)
                  = [Choose p s (ChooseStats r); Stdout (echo_line r)])
    /\ received tail = []
    /\ received (fst (stats s p vb o)) = results used
    /\ stdout_of (fst (stats s p vb o))
         = map echo_line (received (fst (stats s p vb o))) ++ summary
    /\ List.length (map echo_line (received (fst (stats s p vb o))))
         = List.length (received (fst (stats s p vb o)))
    /\ (summary = []
        \/ summary = [avg_line (Z.of_nat (List.length (results used)))
                        (to_uint (latency (results used)))]).
Proof.
  intros Hvb Hdef. apply Z.eqb_neq in Hvb.
  assert (Hturn : forall r, turn_events s p vb (ChooseStats r)
                            = [Choose p s (ChooseStats r); Stdout (echo_line r)]).
  { intros r. unfold turn_events. now rewrite Hvb. }
  assert (Hout : forall used, stdout_of (flat_map (turn_events s p vb) used)
                              = map echo_line (results used)).
  { intros used. rewrite stdout_of_turns. now rewrite Hvb. }
  destruct (stats_shape s p vb o) as (used & rest & _ & H).
  assert (Hgen : forall tail,
            received tail = [] ->
            (stdout_of tail = []
             \/ stdout_of tail = [avg_line (Z.of_nat (List.length (results used)))
                                    (to_uint (latency (results used)))]) ->
            fst (stats s p vb o) = flat_map (turn_events s p vb) used ++ tail ->
            exists used tail summary,
              fst (stats s p vb o) = flat_map (turn_events s p vb) used ++ tail
              /\ (forall r, turn_events s p vb (ChooseStats r)
                            = [Choose p s (ChooseStats r); Stdout (echo_line r)])
              /\ received tail = []
              /\ received (fst (stats s p vb o)) = results used
              /\ stdout_of (fst (stats s p vb o))
                   = map echo_line (received (fst (stats s p vb o))) ++ summary
              /\ List.length (map echo_line (received (fst (stats s p vb o))))
                   = List.length (received (fst (stats s p vb o)))
              /\ (summary = []
                  \/ summary = [avg_line (Z.of_nat (List.length (results used)))
                                  (to_uint (latency (results used)))])).
  { intros tail Hr Hs E. exists used, tail, (stdout_of tail).
    rewrite E, received_app, stdout_of_app, received_turns, Hout, Hr, app_nil_r.
    rewrite length_map. repeat split; auto. }
  destruct (snd (stats s p vb o)) as [[] o'|[st| |]]; try contradiction.
  - destruct H as (v & rc & E). eapply Hgen; [| |exact E]; unfold report;
      destruct (Z.of_nat (List.length (results used)) >? 0), (rc =? 0); simpl; auto.
  - destruct H as [E|E].
    + eapply Hgen; [| |exact E];
        destruct (Z.of_nat (List.length (results used)) >? 0); simpl; auto.
    + rewrite <- (app_nil_r (flat_map _ _)) in E.
      eapply Hgen; [| |exact E]; simpl; auto.
Qed.

Lemma verbose_echo_per_result_witness :
  exists used tail summary,
    fst (stats 4 5 1
           (mk_oracle [0] []
              [ChooseStats (mk_reqstats 120 200); ChooseStats (mk_reqstats 81 404);
               ChooseStop 1]))
      = flat_map (turn_events 4 5 1) used ++ tail
    /\ (forall r, turn_events 4 5 1 (ChooseStats r)
                  = [Choose 5 4 (ChooseStats r); Stdout (echo_line r)])
    /\ received tail = []
    /\ received (fst (stats 4 5 1
           (mk_oracle [0] []
              [ChooseStats (mk_reqstats 120 200); ChooseStats (mk_reqstats 81 404);
               ChooseStop 1]))) = results used
    /\ [("200,120" ++ nl)%string; ("404,81" ++ nl)%string;
        ("Avg response time for 2 requests: 100 ms" ++ nl)%string]
         = map echo_line [mk_reqstats 120 200; mk_reqstats 81 404] ++ summary
    /\ List.length (map echo_line [mk_reqstats 120 200; mk_reqstats 81 404]) = 2%nat
    /\ (summary = []
        \/ summary = [avg_line (Z.of_nat (List.length (results used)))
                        (to_uint (latency (results used)))]).
Proof.
  apply (verbose_echo_per_result 4 5 1
           (mk_oracle [0] []
              [ChooseStats (mk_reqstats 120 200); ChooseStats (mk_reqstats 81 404);
               ChooseStop 1])).
  - discriminate.
  - discriminate.
Defined.

Lemma last_cons {A} (l : list A) :
  forall x d, last (x :: l) d = last l x.
Proof.
  induction l as [|a l IH]; intros x d; [reflexivity|].
  change (last (x :: a :: l) d) with (last (a :: l) d). now rewrite !IH.
Qed.

(** The loop of [stats] on results that arrive one after the other. *)
Lemma stats_loop_results (s p vb : Z) (rs0 : list Z) (qs : list (Z * reqstats))
    (cs : list choose_ret) :
  forall (l : list reqstats) (v : stats_vars),
    stop v = 0 ->
    0 <= total v <= UINT_MAX ->
    nrequests v + Z.of_nat (List.length l) <= INT_MAX ->
    stats_loop s p vb rs0 qs (map ChooseStats l ++ cs) v =
      (flat_map (turn_events s p vb) (map ChooseStats l)
         ++ fst (stats_loop s p vb rs0 qs cs
                   (mk_vars (nrequests v + Z.of_nat (List.length l))
                            (to_uint (total v + latency l))
                            0 (last l (rs v)))),
       snd (stats_loop s p vb rs0 qs cs
              (mk_vars (nrequests v + Z.of_nat (List.length l))
                       (to_uint (total v + latency l))
                       0 (last l (rs v))))).
Proof.
  induction l as [|r l IH]; intros v Hs Ht Hn.
  - simpl. rewrite !Z.add_0_r, to_uint_small by assumption.
    destruct v as [n t st r0]. simpl in Hs. subst st. simpl. apply pair_eta.
  - cbn [map app stats_loop]. rewrite Hs.
    change (0 =? 0) with true.
    change (choose_rc (ChooseStats r) <? 0) with false.
    change (choose_rc (ChooseStats r) =? 1) with true.
    cbn [store nrequests total stop rs].
    replace (nrequests v =? INT_MAX) with false
      by (symmetry; apply Z.eqb_neq; cbn [List.length] in Hn; lia).
    rewrite IH; cbn [nrequests total stop rs];
      [|assumption|apply to_uint_range|cbn [List.length] in Hn; lia].
    rewrite to_uint_add_l.
    replace (nrequests v + 1 + Z.of_nat (List.length l))
      with (nrequests v + Z.of_nat (List.length (r :: l)))
      by (cbn [List.length]; lia).
    replace (total v + tm r + latency l) with (total v + latency (r :: l))
      by (simpl; lia).
    rewrite <- (last_cons l r (rs v)).
    rewrite ?Hs. cbn [fst snd flat_map]. unfold turn_events at 2.
    now rewrite <- app_assoc.
Qed.

Lemma stats_loop_stopped (s p vb : Z) (rs0 : list Z) (qs : list (Z * reqstats))
    (cs : list choose_ret) (v : stats_vars) :
  stop v <> 0 ->
  stats_loop s p vb rs0 qs cs v = ([], Ret v (mk_oracle rs0 qs cs)).
Proof. intros H. apply Z.eqb_neq in H. destruct cs; simpl; now rewrite H. Qed.

(** A whole run of [stats]: the results [l] arrive, in this order, then
    the stop request [v]; the send of the acknowledgment is answered [rc].
    The run returns; it has printed the summary line of [List.length l]
    results and of the sum of their latencies reduced modulo [2^32], if
    there is a result, and then sent the one acknowledgment. *)
Lemma stats_on_results (s p vb v rc : Z) (rs' : list Z) (qs : list (Z * reqstats))
    (l : list reqstats) (cs : list choose_ret) :
  v <> 0 ->
  Z.of_nat (List.length l) <= INT_MAX ->
  stats s p vb (mk_oracle (rc :: rs') qs (map ChooseStats l ++ ChooseStop v :: cs)) =
    (flat_map (turn_events s p vb) (map ChooseStats l)
       ++ Choose p s (ChooseStop v)
       :: (if Z.of_nat (List.length l) >? 0
           then [Stdout (avg_line (Z.of_nat (List.length l)) (to_uint (latency l)))]
           else [])
       ++ Chsend p (MInt v) rc :: report rc "stats() - chsend() failed",
     Ret tt (mk_oracle rs' qs cs)).
Proof.
  intros Hv Hl. unfold stats. unfold bind at 1. cbn [rets reqs chooses].
  rewrite stats_loop_results; cbn [nrequests total stop rs];
    [|reflexivity|unfold UINT_MAX; lia|lia].
  cbn [stats_loop stop]. change (0 =? 0) with true.
  change (choose_rc (ChooseStop v) <? 0) with false.
  change (choose_rc (ChooseStop v) =? 1) with false.
  cbn [store nrequests total stop rs].
  rewrite stats_loop_stopped by (simpl; assumption).
  cbn [fst snd nrequests total stop]. rewrite !Z.add_0_l.
  rewrite bind_when. unfold chsend, perror.
  destruct (Z.of_nat (List.length l) >? 0).
  - rewrite bind_emit, bind_call. cbn [rets reqs chooses fst snd].
    unfold when, report. destruct (rc =? 0); simpl;
      now rewrite <- ?app_assoc.
  - rewrite bind_call. cbn [rets reqs chooses fst snd].
    unfold when, report. destruct (rc =? 0); simpl;
      now rewrite <- ?app_assoc.
Qed.

Lemma latency_repeat (r : reqstats) (n : nat) :
  latency (repeat r n) = Z.of_nat n * tm r.
Proof.
  induction n as [|n IH]; [reflexivity|].
  cbn [repeat latency fold_right]. fold (latency (repeat r n)). lia.
Qed.

(** C4 fails on the code when the latencies add up to [2^32] ms or more:
    [total] is an [unsigned int].  A million results of 5000 ms each, then
    the stop request: the sum is 5 000 000 000 ms, [total] ends as
    705 032 704, and the line printed is "Avg response time for 1000000
    requests: 705 ms", where C4 has 5000 ms.  (Below [2^32] the line is
    the one of C4: see [average_in_range].) *)
Theorem average_wraps_modulo_2_32 :
  stdout_of
    (fst (stats 4 5 0
            (mk_oracle [0] []
               (map ChooseStats (repeat (mk_reqstats 5000 200) (Z.to_nat 1000000))
                  ++ [ChooseStop 1]))))
    = [("Avg response time for 1000000 requests: 705 ms" ++ nl)%string]
  /\ spec_avg_line 1000000 (latency (repeat (mk_reqstats 5000 200) (Z.to_nat 1000000)))
     = ("Avg response time for 1000000 requests: 5000 ms" ++ nl)%string.
Proof.
  split.
  - rewrite stats_on_results;
      rewrite ?repeat_length, ?Z2Nat.id; unfold INT_MAX; try lia.
    cbn [fst]. rewrite stdout_of_app, stdout_of_turns. cbn [Z.eqb negb app].
    rewrite latency_repeat, Z2Nat.id by lia. reflexivity.
  - rewrite latency_repeat, Z2Nat.id by lia. reflexivity.
Qed.

Lemma latency_perm (l l' : list reqstats) :
  Permutation l l' -> latency l = latency l'.
Proof. induction 1; simpl; lia. Qed.

(** X13: within the range of the counters the summary line is the one of the
    spec, whatever the order of arrival: [k] results whose latencies add up
    to less than [2^32], with an average that fits an [int]. *)
Lemma average_in_range (s p v rc : Z) (rs' : list Z) (qs : list (Z * reqstats))
    (l l' : list reqstats) (cs : list choose_ret) :
  Permutation l l' ->
  v <> 0 ->
  0 < Z.of_nat (List.length l) <= INT_MAX ->
  0 <= latency l <= UINT_MAX ->
  latency l / Z.of_nat (List.length l) <= INT_MAX ->
  stdout_of
    (fst (stats s p 0 (mk_oracle (rc :: rs') qs
                         (map ChooseStats l' ++ ChooseStop v :: cs))))
    = [spec_avg_line (Z.of_nat (List.length l)) (latency l)].
Proof.
  intros HP Hv Hk Hsum Havg.
  rewrite (latency_perm _ _ HP), (Permutation_length HP) in *.
  rewrite stats_on_results by (assumption || lia).
  cbn [fst]. rewrite stdout_of_app, stdout_of_turns. cbn [Z.eqb negb app].
  replace (Z.of_nat (List.length l') >? 0) with true by (symmetry; lia).
  unfold report. destruct (rc =? 0); simpl; f_equal;
    unfold avg_line, spec_avg_line, fmt_d, fmt_ld;
    rewrite !to_uint_small by (unfold UINT_MAX, INT_MAX in *; lia);
    rewrite !to_int_small; try reflexivity;
    pose proof (Z.div_pos (latency l') (Z.of_nat (List.length l')));
    unfold INT_MIN, INT_MAX in *; lia.
Qed.

(** C5: a run of [stats] that returns without having received a result
    has printed nothing, neither a line of verbose mode nor the summary
    line, and has made exactly one send, its last call: the acknowledgment
    on the stop channel.  And there is such a run: when the stop request is
    what [choose] delivers first, [stats] leaves the loop, sends the value
    it received back on the stop channel, and returns once the send is
    answered, whether the send succeeded or not. *)
Theorem no_result_no_average (s p vb : Z) :
  (forall o o',
     snd (stats s p vb o) = Ret tt o' ->
     received (fst (stats s p vb o)) = [] ->
     stdout_of (fst (stats s p vb o)) = []
     /\ exists t0 v rc,
          fst (stats s p vb o)
            = t0 ++ Chsend p (MInt v) rc :: report rc "stats() - chsend() failed"
          /\ sends t0 = O
          /\ sends (fst (stats s p vb o)) = 1%nat)
  /\ (forall v rc rs' qs cs,
        v <> 0 ->
        stats s p vb (mk_oracle (rc :: rs') qs (ChooseStop v :: cs))
          = (Choose p s (ChooseStop v)
               :: Chsend p (MInt v) rc :: report rc "stats() - chsend() failed",
             Ret tt (mk_oracle rs' qs cs))).
Proof.
  split.
  - intros o o' Hret Hrecv.
    destruct (stats_shape s p vb o) as (used & rest & _ & H).
    rewrite Hret in H. destruct H as (v & rc & E).
    rewrite E in Hrecv. rewrite received_app, received_turns in Hrecv.
    apply app_eq_nil in Hrecv as [Hres _].
    rewrite Hres in E. simpl in E. rewrite E.
    rewrite stdout_of_app, stdout_of_turns, Hres. split.
    + unfold report. destruct (negb (vb =? 0)), (rc =? 0); reflexivity.
    + exists (flat_map (turn_events s p vb) used), v, rc.
      split; [reflexivity|]. split; [apply sends_turns|].
      rewrite sends_app, sends_turns. unfold report.
      destruct (rc =? 0); reflexivity.
  - intros v rc rs' qs cs Hv.
    apply (stats_on_results s p vb v rc rs' qs [] cs Hv).
    unfold INT_MAX. simpl. lia.
Qed.

Lemma no_result_no_average_witness :
  stdout_of (fst (stats 4 5 1 (mk_oracle [0] [] [ChooseStop 1]))) = []
  /\ exists t0 v rc,
       fst (stats 4 5 1 (mk_oracle [0] [] [ChooseStop 1]))
         = t0 ++ Chsend 5 (MInt v) rc :: report rc "stats() - chsend() failed"
       /\ sends t0 = O
       /\ sends (fst (stats 4 5 1 (mk_oracle [0] [] [ChooseStop 1]))) = 1%nat.
Proof.
  apply (proj1 (no_result_no_average 4 5 1)
           (mk_oracle [0] [] [ChooseStop 1]) (mk_oracle [] [] [])).
  - reflexivity.
  - reflexivity.
Defined.

(** * Further properties *)

(** ** The command line *)

Lemma getopt_loop_acc (opts : list (ascii * string)) :
  forall a : args,
    getopt_loop opts a =
      if forallb (fun o => known_option (fst o)) opts then
        Some (mk_args
                (match optarg_of "n" opts with Some x => Some x | None => requests a end)
                (match optarg_of "c" opts with Some x => Some x | None => concurr a end)
                (match optarg_of "t" opts with Some x => Some x | None => timeout a end)
                (if given "v" opts then 1 else verbose a))
      else None.
Proof.
  induction opts as [|[c x] rest IH]; intros a.
  - now destruct a.
  - cbn [getopt_loop forallb optarg_of given existsb fst]. unfold known_option.
    destruct (Ascii.eqb_spec c "n") as [->|Hn].
    { rewrite IH. cbn. destruct (forallb _ rest); [|reflexivity].
      now destruct (optarg_of "n" rest), (optarg_of "c" rest), (optarg_of "t" rest). }
    destruct (Ascii.eqb_spec c "c") as [->|Hc].
    { rewrite IH. cbn. destruct (forallb _ rest); [|reflexivity].
      now destruct (optarg_of "n" rest), (optarg_of "c" rest), (optarg_of "t" rest). }
    destruct (Ascii.eqb_spec c "t") as [->|Ht].
    { rewrite IH. cbn. destruct (forallb _ rest); [|reflexivity].
      now destruct (optarg_of "n" rest), (optarg_of "c" rest), (optarg_of "t" rest). }
    destruct (Ascii.eqb_spec c "v") as [->|Hv].
    { rewrite IH. cbn. destruct (forallb _ rest); [|reflexivity].
      now destruct (optarg_of "n" rest), (optarg_of "c" rest), (optarg_of "t" rest),
        (given "v" rest). }
    reflexivity.
Qed.

(** X1: the [getopt] loop of [main] accepts exactly the command lines whose
    options are all among [-n], [-c], [-t] and [-v]; of an option given more
    than once the last occurrence counts; an option not given leaves its
    variable at [NULL] (at [0] for [-v]). *)
Theorem getopt_last_occurrence_counts (opts : list (ascii * string)) :
  getopt_loop opts args0 =
    if forallb (fun o => known_option (fst o)) opts then
      Some (mk_args (optarg_of "n" opts) (optarg_of "c" opts) (optarg_of "t" opts)
              (if given "v" opts then 1 else 0))
    else None.
Proof.
  rewrite getopt_loop_acc. destruct (forallb _ opts); [|reflexivity].
  cbn [args0 requests concurr timeout verbose].
  now destruct (optarg_of "n" opts), (optarg_of "c" opts), (optarg_of "t" opts).
Qed.

(** X2: [main] prints the usage line and exits with [EXIT_FAILURE], having
    done nothing else, exactly when an option is not recognised or no URL is
    given; this comes before the validation of the counts. *)
Theorem usage_on_bad_command_line (cl : cmdline) (o : oracle) :
  main cl o = ([Stderr usage_line], Stop (Exit EXIT_FAILURE))
  <-> (forallb (fun x => known_option (fst x)) (options cl) = false
       \/ operands cl = []).
Proof.
  unfold main. rewrite getopt_loop_acc.
  destruct (forallb _ (options cl)).
  - destruct (operands cl) as [|url rest].
    + split; [now right|reflexivity].
    + split; [|intros [?|?]; discriminate].
      unfold start.
      destruct (_ || _)%bool; [discriminate|].
      destruct (_ <? _); [discriminate|].
      unfold launch. rewrite bind_emit. discriminate.
  - split; [now left|reflexivity].
Qed.

(** ** Counts written in decimal *)

Lemma digits_acc (d : Decimal.uint) :
  forall p : positive,
    digits (NilEmpty.string_of_uint d) (Z.pos p) = Z.pos (Pos.of_uint_acc d p).
Proof.
  induction d; intros p; cbn [NilEmpty.string_of_uint Pos.of_uint_acc];
    [reflexivity|..];
    cbn [digits];
    match goal with
    | |- context [digit_of ?c] =>
        let v := eval vm_compute in (digit_of c) in change (digit_of c) with v
    end;
    cbv iota; rewrite <- IHd; f_equal; lia.
Qed.

Lemma digits_uint (d : Decimal.uint) :
  digits (NilEmpty.string_of_uint d) 0 = Z.of_N (Pos.of_uint d).
Proof.
  induction d; cbn [NilEmpty.string_of_uint Pos.of_uint]; [reflexivity|..];
    cbn [digits];
    match goal with
    | |- context [digit_of ?c] =>
        let v := eval vm_compute in (digit_of c) in change (digit_of c) with v
    end;
    cbv iota; [exact IHd|..]; cbn [Z.of_N]; rewrite <- digits_acc; reflexivity.
Qed.

Lemma strtol_digits (d : Decimal.uint) :
  d <> Decimal.Nil ->
  strtol (NilEmpty.string_of_uint d)
    = Z.max LONG_MIN (Z.min LONG_MAX (Z.of_N (Pos.of_uint d)))
  /\ strtol (String "-" (NilEmpty.string_of_uint d))
     = Z.max LONG_MIN (Z.min LONG_MAX (- Z.of_N (Pos.of_uint d))).
Proof.
  intros Hd. rewrite <- digits_uint. now destruct d.
Qed.

Lemma atoi_decimal (n : Z) :
  INT_MIN <= n <= INT_MAX -> atoi (NilZero.string_of_int (Z.to_int n)) = n.
Proof.
  intros Hn. unfold atoi.
  assert (Hs : strtol (NilZero.string_of_int (Z.to_int n)) = n).
  { destruct n as [|p|p]; [reflexivity|..];
      cbn [Z.to_int NilZero.string_of_int]; unfold NilZero.string_of_uint;
      pose proof (DecimalPos.Unsigned.to_uint_nonnil p) as Hp;
      destruct (strtol_digits _ Hp) as [E1 E2];
      rewrite DecimalPos.Unsigned.of_to in E1, E2; cbn [Z.of_N] in E1, E2;
      destruct (Pos.to_uint p) eqn:E; try contradiction;
      rewrite ?E1, ?E2; unfold LONG_MIN, LONG_MAX, INT_MIN, INT_MAX in *; lia. }
  rewrite Hs. now apply to_int_small.
Qed.

(** X4: a count given in decimal is read back as it is written: for every
    [n] in the range of [int], the text [printf]'s [%d] prints for [n] is
    converted to [n] by [getTimeout], and for [n >= 0] by [getRequests] and
    [getConcurrentReqs] too. *)
Theorem decimal_count_read_back (n : Z) :
  INT_MIN <= n <= INT_MAX ->
  getTimeout (Some (fmt_d n)) = n
  /\ (0 <= n ->
      getRequests (Some (fmt_d n)) = n /\ getConcurrentReqs (Some (fmt_d n)) = n).
Proof.
  intros Hn. unfold getTimeout, getRequests, getConcurrentReqs, fmt_d.
  rewrite (to_int_small n Hn), (atoi_decimal n Hn).
  split; [reflexivity|]. intros H0.
  rewrite to_uint_small by (unfold INT_MAX, UINT_MAX in *; lia). now split.
Qed.

Lemma decimal_count_read_back_witness :
  getTimeout (Some (fmt_d 250)) = 250
  /\ (0 <= 250 ->
      getRequests (Some (fmt_d 250)) = 250
      /\ getConcurrentReqs (Some (fmt_d 250)) = 250).
Proof.
  apply (decimal_count_read_back 250). unfold INT_MIN, INT_MAX. lia.
Defined.

(** ** The worker, whatever its count *)

Lemma reports_app (t1 t2 : list event) :
  reports (t1 ++ t2) = (reports t1 + reports t2)%nat.
Proof. unfold reports. now rewrite filter_app, List.length_app. Qed.

Lemma failed_sends_app (t1 t2 : list event) :
  failed_sends (t1 ++ t2) = (failed_sends t1 + failed_sends t2)%nat.
Proof. unfold failed_sends. now rewrite filter_app, List.length_app. Qed.

(** The loop of [boom]: its events are requests and sends of results; it
    is left at its end or waiting; each failed send is reported once and
    nothing else is. *)
Lemma boom_loop_lane (i : nat) (url : string) (tmo done_ch stats_ch : Z) :
  forall o : oracle,
    forallb (worker_event url tmo done_ch stats_ch)
      (fst (boom_loop i url tmo stats_ch o)) = true
    /\ reports (fst (boom_loop i url tmo stats_ch o))
       = failed_sends (fst (boom_loop i url tmo stats_ch o))
    /\ ((exists o', snd (boom_loop i url tmo stats_ch o) = Ret tt o')
        \/ snd (boom_loop i url tmo stats_ch o) = Stop Waiting).
Proof.
  induction i as [|i IH]; intros o.
  - repeat split. left. now exists o.
  - rewrite boom_loop_step.
    destruct (reqs o) as [|[rc r] qs]; [repeat split; now right|].
    destruct (rc =? 0).
    + destruct (rets o) as [|rc' rs'].
      { cbn. rewrite String.eqb_refl, Z.eqb_refl. repeat split. now right. }
      destruct (IH (mk_oracle rs' qs (chooses o))) as (F & R & S).
      cbn [fst snd forallb worker_event].
      rewrite String.eqb_refl, !Z.eqb_refl, forallb_app, F.
      split; [now destruct (rc' =? 0)|]. split; [|exact S].
      change (MakeRequest url tmo rc :: Chsend stats_ch (MStats r) rc' :: ?x)
        with ([MakeRequest url tmo rc; Chsend stats_ch (MStats r) rc'] ++ x).
      rewrite !reports_app, !failed_sends_app, R.
      unfold reports, failed_sends. cbn. now destruct (rc' =? 0).
    + destruct (IH (mk_oracle (rets o) qs (chooses o))) as (F & R & S).
      cbn [fst snd forallb worker_event].
      rewrite String.eqb_refl, Z.eqb_refl, F. repeat split; [|exact S].
      change (MakeRequest url tmo rc :: ?x) with ([MakeRequest url tmo rc] ++ x).
      now rewrite reports_app, failed_sends_app, R.
Qed.

(** X5: a worker, whatever count it is given, only makes requests to its URL
    with its time-out, sends results on the stats channel and the signal [1]
    on the completion channel, and reports with [perror]: it receives
    nothing, closes nothing and never ends the process; it returns or is
    left waiting in a call. *)
Theorem worker_keeps_to_its_channels
    (url : string) (n tmo done_ch stats_ch : Z) (o : oracle) :
  forallb (worker_event url tmo done_ch stats_ch)
    (fst (boom url n tmo done_ch stats_ch o)) = true
  /\ ((exists o', snd (boom url n tmo done_ch stats_ch o) = Ret tt o')
      \/ snd (boom url n tmo done_ch stats_ch o) = Stop Waiting).
Proof.
  unfold boom. rewrite fst_bind, snd_bind, forallb_app.
  destruct (boom_loop_lane (Z.to_nat (to_int n)) url tmo done_ch stats_ch o)
    as (F & _ & [[o1 S]|S]); rewrite F, S; [|split; [reflexivity|now right]].
  unfold chsend. rewrite bind_call.
  destruct (rets o1) as [|rc rs']; [split; [reflexivity|now right]|].
  cbn [fst snd forallb worker_event andb]. rewrite !Z.eqb_refl.
  destruct (rc =? 0); cbn; split; try reflexivity; left; eauto.
Qed.

(** X6: in every run of a worker the failures reported are the failed sends,
    one [perror] each: a failed send is reported and the worker goes on; a
    failed request is dropped without a report. *)
Theorem worker_reports_failed_sends
    (url : string) (n tmo done_ch stats_ch : Z) (o : oracle) :
  reports (fst (boom url n tmo done_ch stats_ch o))
    = failed_sends (fst (boom url n tmo done_ch stats_ch o)).
Proof.
  unfold boom. rewrite fst_bind, reports_app, failed_sends_app.
  destruct (boom_loop_lane (Z.to_nat (to_int n)) url tmo done_ch stats_ch o)
    as (_ & R & [[o1 S]|S]); rewrite R, S; [|reflexivity].
  unfold chsend. rewrite bind_call.
  destruct (rets o1) as [|rc rs']; [reflexivity|].
  unfold reports, failed_sends. cbn. now destruct (rc =? 0).
Qed.

(** X7: a worker given [n] requests, [n] within the range of [int], runs to
    its end whatever the answers are, once they are there: [n] answers of
    [MakeRequest] and [n + 1] of [chsend]. It has then made [n] requests,
    published the results of those that succeeded, in order, and sent its
    one completion signal; the answers left are those it did not need. *)
Theorem worker_runs_to_its_end
    (url : string) (n tmo done_ch stats_ch : Z) (o : oracle) :
  0 <= n <= INT_MAX ->
  (Z.to_nat n <= List.length (reqs o))%nat ->
  (Z.to_nat n < List.length (rets o))%nat ->
  exists t o',
    boom url n tmo done_ch stats_ch o = (t, Ret tt o')
    /\ attempts t = Z.to_nat n
    /\ published t = successes (firstn (Z.to_nat n) (reqs o))
    /\ int_sends t = [(done_ch, 1)]
    /\ reqs o' = skipn (Z.to_nat n) (reqs o).
Proof.
  intros Hn Hq Hr.
  destruct (boom_loop_total (Z.to_nat n) url tmo stats_ch o Hq) as (t1 & o1 & E & L);
    [lia|].
  destruct (boom_loop_returns _ _ _ _ _ _ _ E) as (_ & _ & _ & Q).
  assert (H : exists t o', boom url n tmo done_ch stats_ch o = (t, Ret tt o')
                           /\ reqs o' = reqs o1).
  { unfold boom. rewrite to_int_small by (unfold INT_MIN, INT_MAX in *; lia).
    unfold bind at 1. rewrite E. unfold chsend. rewrite bind_call.
    destruct (rets o1) as [|rc rs'] eqn:Er; [simpl in L; lia|].
    destruct (rc =? 0); cbn; eauto. }
  destruct H as (t & o' & H & Q').
  destruct (boom_in_range _ _ _ _ _ _ _ _ Hn H) as (A & P & S).
  exists t, o'. rewrite Q', Q. auto.
Qed.

Lemma worker_runs_to_its_end_witness :
  exists t o',
    boom "http://localhost/" 2 5000 3 4
      (mk_oracle [-1; 0; 0] [(0, mk_reqstats 120 200); (1, mk_reqstats 0 0)] [])
    = (t, Ret tt o')
    /\ attempts t = 2%nat
    /\ published t = [mk_reqstats 120 200]
    /\ int_sends t = [(3, 1)]
    /\ reqs o' = [].
Proof.
  apply (worker_runs_to_its_end "http://localhost/" 2 5000 3 4
           (mk_oracle [-1; 0; 0] [(0, mk_reqstats 120 200); (1, mk_reqstats 0 0)] [])).
  - unfold INT_MAX. lia.
  - simpl. lia.
  - simpl. lia.
Defined.

(** *** The share within the range of [int], on the example of the spec *)

Lemma share_attempted_in_range_witness :
  List.length (workers (fst (main ten_by_three ten_by_three_answers))) = 3%nat
  /\ Z.of_nat (attempted (workers (fst (main ten_by_three ten_by_three_answers)))
                 [worker_answers 3; worker_answers 3; worker_answers 3])
     = 3 * (10 / 3).
Proof.
  apply (share_attempted_in_range ten_by_three ten_by_three_args "http://localhost/" []
           eq_refl eq_refl).
  - split; [reflexivity|discriminate].
  - discriminate.
  - vm_compute. lia.
  - repeat constructor; eexists; reflexivity.
Defined.

(** ** The aggregator, whatever arrives *)

Lemma aggregator_event_turns (s p vb : Z) (used : list choose_ret) :
  forallb (aggregator_event s p) (flat_map (turn_events s p vb) used) = true.
Proof.
  induction used as [|c used IH]; [reflexivity|].
  cbn [flat_map]. rewrite forallb_app, IH.
  unfold turn_events. cbn. rewrite !Z.eqb_refl.
  destruct c; [reflexivity..|]. now destruct (vb =? 0).
Qed.

Lemma int_sends_turns (s p vb : Z) (used : list choose_ret) :
  int_sends (flat_map (turn_events s p vb) used) = [].
Proof.
  induction used as [|c used IH]; [reflexivity|].
  cbn [flat_map]. rewrite int_sends_app, IH.
  unfold turn_events. destruct c; [reflexivity..|]. now destruct (vb =? 0).
Qed.

(** X9: an aggregator only calls [choose] over its two channels, prints,
    sends on the stop/ack channel and reports with [perror]; it sends at
    most once and never ends the process. *)
Theorem aggregator_keeps_to_its_channels (s p vb : Z) (o : oracle) :
  forallb (aggregator_event s p) (fst (stats s p vb o)) = true
  /\ (sends (fst (stats s p vb o)) <= 1)%nat
  /\ (forall st, snd (stats s p vb o) <> Stop (Exit st)).
Proof.
  destruct (stats_shape s p vb o) as (used & rest & _ & H).
  pose proof (aggregator_event_turns s p vb used) as F.
  pose proof (sends_turns s p vb used) as S.
  destruct (snd (stats s p vb o)) as [[] o'|[st| |]].
  - destruct H as (v & rc & ->).
    rewrite !forallb_app, F, !sends_app, S. cbn [forallb aggregator_event].
    rewrite Z.eqb_refl. unfold report.
    split; [|split; [|discriminate]];
      destruct (_ >? 0), (rc =? 0); cbn; reflexivity || lia.
  - contradiction.
  - split; [|split; [|discriminate]]; destruct H as [-> | ->];
      rewrite ?forallb_app, ?F, ?sends_app, ?S; try lia;
      destruct (_ >? 0); cbn; reflexivity || lia.
  - destruct H as (x & ->). rewrite forallb_app, F, sends_app, S. cbn.
    rewrite !Z.eqb_refl. split; [reflexivity|]. split; [lia|discriminate].
Qed.

(** A loop of [stats] that is entered and left: the answers it took are
    answers after which it stays, then one after which it leaves, a failure
    of [choose] or a value other than [0] on the stop channel, which is
    then the value of [stop]. *)
Lemma stats_loop_leaves (s p vb : Z) (rs0 : list Z) (qs : list (Z * reqstats)) :
  forall (cs : list choose_ret) (v v' : stats_vars) (o' : oracle),
    stop v = 0 ->
    snd (stats_loop s p vb rs0 qs cs v) = Ret v' o' ->
    exists pre c,
      cs = pre ++ c :: chooses o'
      /\ rets o' = rs0
      /\ forallb stays pre = true
      /\ fst (stats_loop s p vb rs0 qs cs v) = flat_map (turn_events s p vb) (pre ++ [c])
      /\ ((c = ChooseFail /\ stop v' = 0)
          \/ (exists x, x <> 0 /\ c = ChooseStop x /\ stop v' = x)).
Proof.
  induction cs as [|c cs IH]; intros v v' o' Hs H.
  - simpl in H. rewrite Hs in H. discriminate.
  - cbn [stats_loop] in H |- *. rewrite Hs in H |- *. change (0 =? 0) with true in *.
    cbv iota in H |- *.
    destruct c as [|x|r]; cbn [choose_rc store nrequests total stop rs] in H |- *.
    + change (-1 <? 0) with true in *. cbv iota in H |- *. cbn [snd fst] in H |- *.
      inversion H; subst. exists [], ChooseFail. cbn. repeat split; auto.
    + change (0 <? 0) with false in *. change (0 =? 1) with false in *.
      cbv iota in H |- *.
      destruct (stats_loop s p vb rs0 qs cs _) as [t r] eqn:E. cbn [fst snd] in H |- *.
      subst r. destruct (Z.eqb_spec x 0) as [->|Hx].
      * destruct (IH (mk_vars (nrequests v) (total v) 0 (rs v)) v' o' eq_refl
                    (f_equal snd E))
          as (pre & c & -> & Hr & F & T & L).
        rewrite E in T. cbn [fst] in T. subst t.
        exists (ChooseStop 0 :: pre), c. cbn. repeat split; auto.
      * rewrite stats_loop_stopped in E by (cbn; assumption).
        inversion E; subst. exists [], (ChooseStop x). cbn.
        repeat split; auto. right. now exists x.
    + change (1 <? 0) with false in *. change (1 =? 1) with true in *.
      cbv iota in H |- *.
      destruct (nrequests v =? INT_MAX); [cbn [snd] in H; discriminate|].
      destruct (stats_loop s p vb rs0 qs cs _) as [t r0] eqn:E. cbn [fst snd] in H |- *.
      subst r0.
      destruct (IH (mk_vars (nrequests v + 1) (to_uint (total v + tm r)) (stop v) r)
                  v' o' Hs (f_equal snd E)) as (pre & c & -> & Hr & F & T & L).
      rewrite E in T. cbn [fst] in T. subst t.
      exists (ChooseStats r :: pre), c. cbn [app flat_map forallb stays andb].
      repeat split; auto.
Qed.

(** X10: an aggregator that returns has left its loop on a failure of
    [choose] or on a value other than [0] received on the stop channel, the
    last answer it took; before it, it took only results and zeros on the
    stop channel. Its one send is the acknowledgment, on the stop/ack
    channel: the value it received, or [0] after a failure. *)
Theorem aggregator_leaves_on_stop_or_failure (s p vb : Z) (o o' : oracle) :
  snd (stats s p vb o) = Ret tt o' ->
  exists pre c,
    chooses o = pre ++ c :: chooses o'
    /\ forallb stays pre = true
    /\ received (fst (stats s p vb o)) = results pre
    /\ ((c = ChooseFail /\ int_sends (fst (stats s p vb o)) = [(p, 0)])
        \/ (exists x, x <> 0 /\ c = ChooseStop x
                      /\ int_sends (fst (stats s p vb o)) = [(p, x)])).
Proof.
  unfold stats. rewrite snd_bind, fst_bind. intros H.
  destruct (stats_loop s p vb (rets o) (reqs o) (chooses o) _) as [t [v1 o1|h]] eqn:E;
    cbn [fst snd] in H |- *; [|discriminate].
  destruct (stats_loop_leaves s p vb _ _ _ (mk_vars 0 0 0 reqstats_new) v1 o1
              eq_refl (f_equal snd E))
    as (pre & c & Ec & Hr & F & T & L).
  rewrite E in T. cbn [fst] in T. subst t.
  assert (X : forall k : M unit,
            (when (nrequests v1 >? 0) (emit (Stdout (avg_line (nrequests v1) (total v1)))) ;; k)
              o1
            = ((if nrequests v1 >? 0
                then [Stdout (avg_line (nrequests v1) (total v1))] else []) ++ fst (k o1),
               snd (k o1))).
  { intros k. rewrite bind_when. destruct (_ >? 0); [now rewrite bind_emit|apply pair_eta]. }
  rewrite X in H |- *. cbn [fst snd] in H |- *.
  unfold chsend in H |- *. rewrite bind_call in H |- *.
  destruct (rets o1) as [|rc rs']; [discriminate|]. cbn [fst snd] in H |- *.
  assert (Ho : chooses o' = chooses o1).
  { unfold when, perror, emit, ret in H. destruct (negb (rc =? 0)); now inversion H. }
  exists pre, c. rewrite Ho. split; [exact Ec|]. split; [exact F|].
  rewrite (received_app (flat_map _ _)), (int_sends_app (flat_map _ _)),
    received_turns, int_sends_turns.
  assert (R0 : results (pre ++ [c]) = results pre).
  { clear -L. induction pre as [|a pre IH]; cbn.
    - destruct L as [[-> _]|(x & _ & -> & _)]; reflexivity.
    - destruct a; cbn; now rewrite ?IH. }
  rewrite R0.
  assert (Y : forall A (f : list event -> list A) (x : list A),
            f [] = [] ->
            (forall m, f [Stdout m] = []) ->
            (forall m, f [Perror m] = []) ->
            (forall l1 l2, f (l1 ++ l2) = f l1 ++ f l2) ->
            f [Chsend p (MInt (stop v1)) rc] = x ->
            f ((if nrequests v1 >? 0
                then [Stdout (avg_line (nrequests v1) (total v1))] else [])
               ++ Chsend p (MInt (stop v1)) rc
                  :: fst (when (negb (rc =? 0)) (perror "stats() - chsend() failed")
                            {| rets := rs'; reqs := reqs o1; chooses := chooses o1 |}))
            = x).
  { intros A f x F0 F1 F2 Fa <-.
    change (Chsend p (MInt (stop v1)) rc :: ?l)
      with ([Chsend p (MInt (stop v1)) rc] ++ l).
    rewrite !Fa. destruct (_ >? 0), (rc =? 0); cbn; now rewrite ?F0, ?F1, ?F2, ?app_nil_r. }
  rewrite (Y _ received []), (Y _ int_sends [(p, stop v1)]), app_nil_r;
    try reflexivity; try apply received_app; try apply int_sends_app.
  split; [reflexivity|].
  destruct L as [[-> ->]|(x & Hx & -> & ->)]; [now left|right; now exists x].
Qed.

Lemma aggregator_leaves_on_stop_or_failure_witness :
  exists pre c,
    [ChooseStats (mk_reqstats 120 200); ChooseStop 0; ChooseFail; ChooseStop 1]
      = pre ++ c :: [ChooseStop 1]
    /\ forallb stays pre = true
    /\ received
         (fst (stats 4 5 0
                 (mk_oracle [0] []
                    [ChooseStats (mk_reqstats 120 200); ChooseStop 0; ChooseFail;
                     ChooseStop 1])))
       = results pre
    /\ ((c = ChooseFail
         /\ int_sends
              (fst (stats 4 5 0
                      (mk_oracle [0] []
                         [ChooseStats (mk_reqstats 120 200); ChooseStop 0; ChooseFail;
                          ChooseStop 1])))
            = [(5, 0)])
        \/ (exists x, x <> 0 /\ c = ChooseStop x
              /\ int_sends
                   (fst (stats 4 5 0
                           (mk_oracle [0] []
                              [ChooseStats (mk_reqstats 120 200); ChooseStop 0;
                               ChooseFail; ChooseStop 1])))
                 = [(5, x)])).
Proof.
  apply (aggregator_leaves_on_stop_or_failure 4 5 0
           (mk_oracle [0] []
              [ChooseStats (mk_reqstats 120 200); ChooseStop 0; ChooseFail; ChooseStop 1])
           (mk_oracle [] [] [ChooseStop 1])).
  reflexivity.
Defined.

(** X11: when [choose] fails the aggregator reports it and leaves its loop:
    it still prints the summary of the results it had received, if any, and
    sends the acknowledgment, with the value [0], and returns. *)
Theorem aggregator_after_choose_failure
    (s p vb rc : Z) (rs' : list Z) (qs : list (Z * reqstats))
    (l : list reqstats) (cs : list choose_ret) :
  Z.of_nat (List.length l) <= INT_MAX ->
  stats s p vb (mk_oracle (rc :: rs') qs (map ChooseStats l ++ ChooseFail :: cs)) =
    (flat_map (turn_events s p vb) (map ChooseStats l)
       ++ Choose p s ChooseFail
       :: Perror "Could not read from stop or stats channel"
       :: (if Z.of_nat (List.length l) >? 0
           then [Stdout (avg_line (Z.of_nat (List.length l)) (to_uint (latency l)))]
           else [])
       ++ Chsend p (MInt 0) rc :: report rc "stats() - chsend() failed",
     Ret tt (mk_oracle rs' qs cs)).
Proof.
  intros Hl. unfold stats. unfold bind at 1. cbn [rets reqs chooses].
  rewrite stats_loop_results; cbn [nrequests total stop rs];
    [|reflexivity|unfold UINT_MAX; lia|lia].
  cbn [stats_loop stop]. change (0 =? 0) with true.
  change (choose_rc ChooseFail <? 0) with true.
  cbn [store fst snd nrequests total stop]. rewrite !Z.add_0_l.
  rewrite bind_when. unfold chsend, perror.
  destruct (Z.of_nat (List.length l) >? 0).
  - rewrite bind_emit, bind_call. cbn [rets reqs chooses fst snd].
    unfold when, report. destruct (rc =? 0); simpl;
      now rewrite <- ?app_assoc.
  - rewrite bind_call. cbn [rets reqs chooses fst snd].
    unfold when, report. destruct (rc =? 0); simpl;
      now rewrite <- ?app_assoc.
Qed.

Lemma aggregator_after_choose_failure_witness :
  stats 4 5 0
    (mk_oracle [0] []
       [ChooseStats (mk_reqstats 120 200); ChooseStats (mk_reqstats 80 404); ChooseFail])
  = ([Choose 5 4 (ChooseStats (mk_reqstats 120 200));
      Choose 5 4 (ChooseStats (mk_reqstats 80 404));
      Choose 5 4 ChooseFail;
      Perror "Could not read from stop or stats channel";
      Stdout ("Avg response time for 2 requests: 100 ms" ++ nl)%string;
      Chsend 5 (MInt 0) 0],
     Ret tt (mk_oracle [] [] [])).
Proof.
  apply (aggregator_after_choose_failure 4 5 0 0 [] []
           [mk_reqstats 120 200; mk_reqstats 80 404] []).
  unfold INT_MAX. simpl. lia.
Defined.

(** X12: without [-v] the aggregator prints nothing but the summary line,
    and that line counts the results received in this run and averages their
    latencies (the sum reduced modulo [2^32]). *)
Theorem quiet_aggregator_prints_the_summary_only (s p : Z) (o : oracle) :
  stdout_of (fst (stats s p 0 o)) = []
  \/ (received (fst (stats s p 0 o)) <> []
      /\ stdout_of (fst (stats s p 0 o))
         = [avg_line (Z.of_nat (List.length (received (fst (stats s p 0 o)))))
              (to_uint (latency (received (fst (stats s p 0 o)))))]).
Proof.
  destruct (stats_shape s p 0 o) as (used & rest & _ & H).
  pose proof (stdout_of_turns s p 0 used) as S. cbn [Z.eqb negb] in S.
  pose proof (received_turns s p 0 used) as R.
  assert (X : forall tail,
            received tail = [] -> stdout_of tail = [] ->
            let t := flat_map (turn_events s p 0) used
                       ++ (if Z.of_nat (List.length (results used)) >? 0
                           then [Stdout (avg_line (Z.of_nat (List.length (results used)))
                                           (to_uint (latency (results used))))]
                           else [])
                       ++ tail in
            stdout_of t = []
            \/ (received t <> []
                /\ stdout_of t = [avg_line (Z.of_nat (List.length (received t)))
                                    (to_uint (latency (received t)))])).
  { intros tail Rt St t. subst t.
    rewrite !stdout_of_app, !received_app, S, R, Rt, St.
    destruct (Z.of_nat (List.length (results used)) >? 0) eqn:E; cbn.
    - right. rewrite !app_nil_r. split; [|reflexivity].
      destruct (results used); [discriminate|discriminate].
    - now left. }
  destruct (snd (stats s p 0 o)) as [[] o'|[st| |]].
  - destruct H as (v & rc & ->). apply X; unfold report; now destruct (rc =? 0).
  - contradiction.
  - destruct H as [-> | ->].
    + specialize (X [] eq_refl eq_refl). cbv zeta in X.
      now rewrite app_nil_r in X.
    + left. now rewrite S.
  - destruct H as (x & ->). left. now rewrite stdout_of_app, S.
Qed.

Lemma average_in_range_witness :
  stdout_of
    (fst (stats 4 5 0
            (mk_oracle [0] []
               [ChooseStats (mk_reqstats 80 404); ChooseStats (mk_reqstats 120 200);
                ChooseStop 1])))
  = [spec_avg_line 2 200].
Proof.
  apply (average_in_range 4 5 1 0 [] []
           [mk_reqstats 120 200; mk_reqstats 80 404]
           [mk_reqstats 80 404; mk_reqstats 120 200] []).
  - apply perm_swap.
  - discriminate.
  - split; [reflexivity|discriminate].
  - split; discriminate.
  - discriminate.
Defined.

(** ** The orchestrator from start to exit *)

(** *** Observing an explicit trace *)

Section Observers.

Context {B : Type} (g : event -> list B).

Lemma obs_repeat (x : event) (k : nat) :
  g x = [] -> flat_map g (repeat x k) = [].
Proof. intros H. induction k as [|k IH]; [reflexivity|]. cbn. now rewrite H, IH. Qed.

Lemma obs_report (rc : Z) (m : string) :
  g (Perror m) = [] -> flat_map g (report rc m) = [].
Proof. intros H. unfold report. destruct (rc =? 0); cbn; now rewrite ?H. Qed.

Lemma obs_closing (m : string) (hs : list Z) :
  g (Perror m) = [] ->
  forall rcs,
    flat_map g (closing m hs rcs)
      = flat_map (fun x => g (Hclose (fst x) (snd x))) (combine hs rcs).
Proof.
  intros H. induction hs as [|h hs IH]; intros [|rc rcs]; try reflexivity.
  cbn [closing combine flat_map fst snd].
  now rewrite flat_map_app, obs_report, IH.
Qed.

Lemma obs_map_go (w : coroutine) (hs : list Z) :
  flat_map g (map (Go w) hs) = flat_map (fun h => g (Go w h)) hs.
Proof. induction hs as [|h hs IH]; [reflexivity|]. cbn. now rewrite IH. Qed.

Lemma obs_none {A : Type} (f : A -> list B) (l : list A) :
  (forall x, f x = []) -> flat_map f l = [].
Proof. intros H. induction l as [|x l IH]; [reflexivity|]. cbn. now rewrite H, IH. Qed.

End Observers.

Lemma stdout_of_flat (t : list event) :
  stdout_of t = flat_map (fun e => match e with Stdout s => [s] | _ => [] end) t.
Proof. induction t as [|e t IH]; [reflexivity|]. destruct e; cbn; now rewrite IH. Qed.

Lemma chmakes_flat (t : list event) :
  chmakes t = flat_map (fun e => match e with Chmake _ h => [h] | _ => [] end) t.
Proof. induction t as [|e t IH]; [reflexivity|]. destruct e; cbn; now rewrite IH. Qed.

Lemma workers_flat (t : list event) :
  workers t = flat_map (fun e => match e with
                                 | Go (Boom u n x d s) h =>
                                     if h <? 0 then [] else [Boom u n x d s]
                                 | _ => []
                                 end) t.
Proof.
  induction t as [|e t IH]; [reflexivity|].
  destruct e as [?|?|?|? ?|c h|? ?|? ?|? ? ?|? ? ?|? ? ?|? ?| |?]; cbn; rewrite ?IH; auto.
  destruct c; cbn; rewrite ?IH; auto. now destruct (h <? 0).
Qed.

Lemma started_handles (hs : list Z) (f : Z -> list Z) :
  Forall (fun h => 0 <= h) hs ->
  (forall h, f h = if h <? 0 then [] else [h]) ->
  flat_map f hs = hs.
Proof.
  intros F Hf. induction F as [|h hs Hh _ IH]; [reflexivity|].
  cbn. rewrite IH, Hf. apply Z.ltb_ge in Hh. now rewrite Hh.
Qed.

Lemma closed_handles (hs rcs : list Z) :
  List.length rcs = List.length hs ->
  flat_map (fun x : Z * Z => [fst x]) (combine hs rcs) = hs.
Proof.
  revert rcs. induction hs as [|h hs IH]; intros [|rc rcs] L; try discriminate;
    [reflexivity|].
  cbn. f_equal. apply IH. now injection L.
Qed.

(** What [flat_map] makes of the trace of a run that goes through. *)
Lemma obs_success_trace {B : Type} (g : event -> list B)
    (url : string) (n c tmo v d s p st cor m : Z) (hs : list Z)
    (rc1 rc2 : Z) (rcs : list Z) (r1 r2 r3 r4 e : Z) :
  (forall x, g (Perror x) = []) ->
  (forall ch rc, g (Chrecv ch rc) = []) ->
  (forall ch x rc, g (Chsend ch x rc) = []) ->
  (forall size r, g (Malloc size r) = []) ->
  flat_map g (success_trace url n c tmo v d s p st cor m hs rc1 rc2 rcs r1 r2 r3 r4 e)
  = g (Stdout (banner url n c tmo))
      ++ g (Chmake sizeof_int d) ++ g (Chmake sizeof_reqstats s) ++ g (Chmake sizeof_int p)
      ++ g (Time st) ++ g (Go (Stats s p v) cor)
      ++ flat_map (fun h => g (Go (Boom url (n / c) tmo d s) h)) hs
      ++ flat_map (fun x => g (Hclose (fst x) (snd x))) (combine hs rcs)
      ++ g (Hclose cor r1) ++ g (Hclose d r2) ++ g (Hclose s r3) ++ g (Hclose p r4)
      ++ g Free ++ g (Time e) ++ g (Stdout (run_time_line st e)).
Proof.
  intros Hp Hr Hs Hm.
  unfold success_trace, setup_trace, release_trace.
  cbn [app flat_map].
  repeat (rewrite flat_map_app; cbn [flat_map]).
  rewrite !obs_report, obs_closing, obs_map_go, obs_repeat, ?Hs, ?Hr, ?Hm by auto.
  cbn [app]. rewrite ?app_nil_r. now rewrite <- ?app_assoc.
Qed.

(** *** Runs that exit *)

(** A run of [main] that exits with [EXIT_SUCCESS]: the command line was
    accepted, at most [INT_MAX] workers were asked for, every call of the
    set-up was answered well and every receive of the barrier delivered a
    signal. *)
Lemma successful_run (cl : cmdline) (o : oracle) :
  snd (main cl o) = Stop (Exit EXIT_SUCCESS) ->
  exists a url rest d s p st cor m hs rc1 rc2 rcs r1 r2 r3 r4 e,
    getopt_loop (options cl) args0 = Some a
    /\ operands cl = url :: rest
    /\ 0 < getConcurrentReqs (concurr a) <= getRequests (requests a)
    /\ getConcurrentReqs (concurr a) <= INT_MAX
    /\ (0 <= d /\ 0 <= s /\ 0 <= p /\ 0 <= cor /\ m <> 0)
    /\ Forall (fun h => 0 <= h) hs
    /\ List.length hs = Z.to_nat (getConcurrentReqs (concurr a))
    /\ List.length rcs = List.length hs
    /\ fst (main cl o) =
         success_trace url (getRequests (requests a)) (getConcurrentReqs (concurr a))
           (getTimeout (timeout a)) (verbose a)
           d s p st cor m hs rc1 rc2 rcs r1 r2 r3 r4 e.
Proof.
  intros H.
  destruct (main_cases cl o) as [E|(a & url & rest & Ha & Hu & [[x E]|[Hv E]])];
    [rewrite E in H; discriminate..|].
  rewrite E in H |- *.
  destruct (launch_cases url (getRequests (requests a)) (getConcurrentReqs (concurr a))
              (getTimeout (timeout a)) (verbose a) o)
    as [(d & s & p & st & cor & m & hs & o1 & Hd & Hs & Hp & Hcor & Hm & F & L & B & E')
       |(h & Hh & Hn & _)]; [lia| |congruence].
  rewrite E' in H |- *. cbn [fst snd] in H |- *.
  destruct (shutdown_success _ d s p cor st hs o1
              (conj (Z.lt_le_incl _ _ (proj1 Hv)) B) H)
    as (rc1 & rc2 & rcs & r1 & r2 & r3 & r4 & e & Lr & ->).
  exists a, url, rest, d, s, p, st, cor, m, hs, rc1, rc2, rcs, r1, r2, r3, r4, e.
  repeat split; auto; lia.
Qed.

(** X15: a run of [main] that exits with [EXIT_SUCCESS] has closed every
    handle it was given, once each, whatever [hclose] answered: the workers
    in the order they were started, then the aggregator, then the three
    channels in the order they were made; and it has freed the array once. *)
Theorem successful_run_closes_every_handle (cl : cmdline) (o : oracle) :
  snd (main cl o) = Stop (Exit EXIT_SUCCESS) ->
  exists cor hs,
    started (fst (main cl o)) = cor :: hs
    /\ closed (fst (main cl o)) = hs ++ cor :: chmakes (fst (main cl o))
    /\ List.length (chmakes (fst (main cl o))) = 3%nat
    /\ frees (fst (main cl o)) = 1%nat
    /\ Permutation (closed (fst (main cl o)))
         (chmakes (fst (main cl o)) ++ started (fst (main cl o))).
Proof.
  intros H.
  destruct (successful_run cl o H)
    as (a & url & rest & d & s & p & st & cor & m & hs & rc1 & rc2 & rcs
        & r1 & r2 & r3 & r4 & e & _ & _ & _ & _ & (_ & _ & _ & Hcor & _)
        & F & _ & Lr & ->).
  exists cor, hs.
  assert (Es : started (success_trace url (getRequests (requests a))
                          (getConcurrentReqs (concurr a)) (getTimeout (timeout a))
                          (verbose a) d s p st cor m hs rc1 rc2 rcs r1 r2 r3 r4 e)
               = cor :: hs).
  { unfold started. rewrite obs_success_trace by reflexivity.
    rewrite (started_handles hs) by auto. rewrite obs_none by reflexivity.
    apply Z.ltb_ge in Hcor. rewrite Hcor. cbn. now rewrite app_nil_r. }
  assert (Ec : chmakes (success_trace url (getRequests (requests a))
                          (getConcurrentReqs (concurr a)) (getTimeout (timeout a))
                          (verbose a) d s p st cor m hs rc1 rc2 rcs r1 r2 r3 r4 e)
               = [d; s; p]).
  { rewrite chmakes_flat, obs_success_trace by reflexivity.
    rewrite !obs_none by reflexivity. reflexivity. }
  assert (El : closed (success_trace url (getRequests (requests a))
                         (getConcurrentReqs (concurr a)) (getTimeout (timeout a))
                         (verbose a) d s p st cor m hs rc1 rc2 rcs r1 r2 r3 r4 e)
               = hs ++ [cor; d; s; p]).
  { unfold closed. rewrite obs_success_trace by reflexivity.
    rewrite obs_none by reflexivity. rewrite closed_handles by assumption.
    cbn. reflexivity. }
  rewrite Es, Ec, El. repeat split.
  - unfold frees. rewrite obs_success_trace by reflexivity.
    now rewrite !obs_none by reflexivity.
  - change (hs ++ [cor; d; s; p]) with (hs ++ cor :: [d; s; p]).
    rewrite <- Permutation_middle. cbn [app].
    rewrite <- (Permutation_middle [d; s; p] hs cor).
    apply perm_skip, Permutation_app_comm.
Qed.

Lemma successful_run_closes_every_handle_witness :
  exists cor hs,
    started (fst (main two_by_two (answers 0 (-1)))) = cor :: hs
    /\ [7; 8; 6; 3; 4; 5] = hs ++ cor :: [3; 4; 5]
    /\ List.length (chmakes (fst (main two_by_two (answers 0 (-1))))) = 3%nat
    /\ frees (fst (main two_by_two (answers 0 (-1)))) = 1%nat
    /\ Permutation [7; 8; 6; 3; 4; 5]
         (chmakes (fst (main two_by_two (answers 0 (-1))))
            ++ started (fst (main two_by_two (answers 0 (-1))))).
Proof.
  apply (successful_run_closes_every_handle two_by_two (answers 0 (-1))).
  reflexivity.
Defined.

(** X16: a run of [main] that exits with [EXIT_SUCCESS], the times it read
    being values of [time_t], has read the time twice and printed two
    things: the banner, with the counts and the time-out it converted from
    the command line, and the run time, the difference of the two times as
    [difftime] gives it, a [double], printed with its six decimals. *)
Theorem successful_run_output (cl : cmdline) (o : oracle) :
  snd (main cl o) = Stop (Exit EXIT_SUCCESS) ->
  Forall (fun t => LONG_MIN <= t <= LONG_MAX) (times (fst (main cl o))) ->
  exists a url rest start_t end_t,
    getopt_loop (options cl) args0 = Some a
    /\ operands cl = url :: rest
    /\ times (fst (main cl o)) = [start_t; end_t]
    /\ stdout_of (fst (main cl o))
       = [banner url (getRequests (requests a)) (getConcurrentReqs (concurr a))
            (getTimeout (timeout a));
          run_time_line start_t end_t].
Proof.
  intros H _.
  destruct (successful_run cl o H)
    as (a & url & rest & d & s & p & st & cor & m & hs & rc1 & rc2 & rcs
        & r1 & r2 & r3 & r4 & e & Ha & Hu & _ & _ & _ & _ & _ & _ & ->).
  exists a, url, rest, st, e. split; [exact Ha|]. split; [exact Hu|]. split.
  - unfold times. rewrite obs_success_trace by reflexivity.
    now rewrite !obs_none by reflexivity.
  - rewrite stdout_of_flat, obs_success_trace by reflexivity.
    now rewrite !obs_none by reflexivity.
Qed.

Lemma successful_run_output_witness :
  exists a url rest start_t end_t,
    getopt_loop (options two_by_two) args0 = Some a
    /\ operands two_by_two = url :: rest
    /\ times (fst (main two_by_two (answers (-1) 0))) = [start_t; end_t]
    /\ stdout_of (fst (main two_by_two (answers (-1) 0)))
       = [banner url (getRequests (requests a)) (getConcurrentReqs (concurr a))
            (getTimeout (timeout a));
          run_time_line start_t end_t].
Proof.
  apply (successful_run_output two_by_two (answers (-1) 0)); [reflexivity|].
  change (Forall (fun t => LONG_MIN <= t <= LONG_MAX) [1000; 1003]).
  repeat constructor; discriminate.
Defined.

Lemma not_release_closed (t : list event) :
  forallb (fun e => negb (is_release e)) t = true -> closed t = [] /\ frees t = O.
Proof.
  unfold closed, frees. induction t as [|e t IH]; [now split|].
  cbn [forallb flat_map]. intros H. apply andb_prop in H as [He Ht].
  destruct (IH Ht) as [-> E]. rewrite List.length_app, E.
  destruct e; try discriminate He; now split.
Qed.

(** X17: a run of [main] that exits with [EXIT_FAILURE] ends on the
    diagnostic ([fprintf] to [stderr] or [perror]) and has released nothing:
    no handle is closed, the array is not freed, no run time is printed. *)
Theorem failed_run_releases_nothing (cl : cmdline) (o : oracle) :
  snd (main cl o) = Stop (Exit EXIT_FAILURE) ->
  forallb (fun e => negb (is_release e)) (fst (main cl o)) = true
  /\ closed (fst (main cl o)) = []
  /\ frees (fst (main cl o)) = O
  /\ exists pre m,
       fst (main cl o) = pre ++ [Stderr m] \/ fst (main cl o) = pre ++ [Perror m].
Proof.
  intros H.
  assert (X : forallb (fun e => negb (is_release e)) (fst (main cl o)) = true
              /\ exists pre m,
                   fst (main cl o) = pre ++ [Stderr m]
                   \/ fst (main cl o) = pre ++ [Perror m]).
  { destruct (main_cases cl o) as [E|(a & url & rest & Ha & Hu & [[x E]|[Hv E]])].
    - rewrite E. split; [reflexivity|]. exists [], usage_line. now left.
    - rewrite E. split; [reflexivity|]. exists [], x. now left.
    - rewrite E in H |- *.
      destruct (launch_sound url (getRequests (requests a))
                  (getConcurrentReqs (concurr a)) (getTimeout (timeout a))
                  (verbose a) o) as (h & Hh & R); [lia|].
      rewrite Hh in H. injection H as Eh.
      remember (fst (launch url (getRequests (requests a))
                       (getConcurrentReqs (concurr a)) (getTimeout (timeout a))
                       (verbose a) o)) as t0 eqn:Et. clear Et.
      assert (Q : forall l, forallb (quiet url (getRequests (requests a)
                                                / getConcurrentReqs (concurr a))
                                       (getTimeout (timeout a))) l = true ->
                            forallb (fun e => negb (is_release e)) l = true).
      { intros l. apply forallb_impl. intros e He.
        apply quiet_flat, flat_not_release in He. now rewrite He. }
      assert (K : forall l, forallb is_chmake l = true ->
                            forallb (fun e => negb (is_release e)) l = true).
      { intros l. apply forallb_impl. now destruct x. }
      destruct R as [t h _ [Hw|Hw]|q e cs m Hq Fe Ke Fc|q e cs Hq Fe Ke Fc
                    |d s p st cor m hs t h Hd Hs Hp Hcor Hm F L B R];
        try (rewrite Hw in Eh; discriminate Eh); try discriminate Eh.
      + split.
        * rewrite forallb_app, (Q _ Hq). cbn [forallb]. rewrite forallb_app, (K _ Fc).
          destruct Ke as [Ke|[_ [(c' & h' & ->)|(n' & r' & ->)]]];
            [destruct e; try discriminate Ke|..]; reflexivity.
        * exists (q ++ e :: cs), m. right. now rewrite <- app_assoc.
      + pose proof (setup_trace_quiet url (getRequests (requests a))
                      (getConcurrentReqs (concurr a)) (getTimeout (timeout a))
                      (verbose a) d s p st cor m hs Hd Hs Hp Hcor Hm F) as Hq.
        destruct R as [k Hk|k rc Hk Hrc| |rc1|rc1 rc2 rel h Fr [Hw|Hw]];
          try (rewrite Hw in Eh; discriminate Eh); try discriminate Eh.
        split.
        * rewrite !forallb_app, (Q _ Hq). cbn [forallb andb].
          rewrite andb_true_r. clear. induction k; [reflexivity|assumption].
        * exists (setup_trace url (getRequests (requests a))
                    (getConcurrentReqs (concurr a)) (getTimeout (timeout a))
                    (verbose a) d s p st cor m hs
                    ++ repeat (Chrecv d 0) k ++ [Chrecv d rc]),
            "Could not receive on done_ch".
          right. now rewrite <- !app_assoc. }
  destruct X as [N L]. destruct (not_release_closed _ N) as [C Fz]. auto.
Qed.

Lemma failed_run_releases_nothing_witness :
  forallb (fun e => negb (is_release e))
    (fst (main two_by_two (mk_oracle [3; 4; 5; 1000; 6; 77; 7; 8; 0; -1] [] []))) = true
  /\ closed (fst (main two_by_two (mk_oracle [3; 4; 5; 1000; 6; 77; 7; 8; 0; -1] [] [])))
     = []
  /\ frees (fst (main two_by_two (mk_oracle [3; 4; 5; 1000; 6; 77; 7; 8; 0; -1] [] [])))
     = O
  /\ exists pre m,
       fst (main two_by_two (mk_oracle [3; 4; 5; 1000; 6; 77; 7; 8; 0; -1] [] []))
         = pre ++ [Stderr m]
       \/ fst (main two_by_two (mk_oracle [3; 4; 5; 1000; 6; 77; 7; 8; 0; -1] [] []))
          = pre ++ [Perror m].
Proof.
  apply (failed_run_releases_nothing two_by_two
           (mk_oracle [3; 4; 5; 1000; 6; 77; 7; 8; 0; -1] [] [])).
  reflexivity.
Defined.

(** *** The coroutines and their channels *)

Lemma shutdown_run_apart (c : nat) (d p : Z) (t : list event) (h : halt) :
  shutdown_run c d p t h ->
  forallb (fun e => no_go e && negb (is_chmake e)) t = true.
Proof.
  assert (B : forall k,
            forallb (fun e => no_go e && negb (is_chmake e)) (repeat (Chrecv d 0) k)
            = true)
    by (induction k; auto).
  assert (T : forall l, forallb teardown_ev l = true ->
                        forallb (fun e => no_go e && negb (is_chmake e)) l = true).
  { intros l. apply forallb_impl. now destruct x. }
  intros R. destruct R as [k Hk|k rc Hk Hrc| |rc1|rc1 rc2 rel h F Hh];
    rewrite ?forallb_app, ?B; auto; unfold report;
    try destruct (rc1 =? 0); try destruct (rc2 =? 0); simpl; auto.
Qed.

Lemma obs_forallb {B : Type} (g : event -> list B) (P : event -> bool) (t : list event) :
  forallb P t = true ->
  (forall e, P e = true -> g e = []) ->
  flat_map g t = [].
Proof.
  intros F H. induction t as [|e t IH]; [reflexivity|]. cbn in F |- *.
  apply andb_prop in F as [Fe Ft]. now rewrite (H e Fe), IH.
Qed.

Lemma quiet_handles (url : string) (n tmo d s : Z) (hs : list Z) :
  forallb (quiet url n tmo) (map (Go (Boom url n tmo d s)) hs) = true ->
  Forall (fun h => 0 <= h) hs.
Proof.
  induction hs as [|h hs IH]; [constructor|]. cbn [map forallb quiet]. intros H.
  apply andb_prop in H as [He Ht]. constructor; [|now apply IH].
  repeat (apply andb_prop in He as [He _]). now apply Z.leb_le.
Qed.

Lemma workers_handles (w : coroutine) (hs : list Z) (f : Z -> list coroutine) :
  Forall (fun h => 0 <= h) hs ->
  (forall h, f h = if h <? 0 then [] else [w]) ->
  flat_map f hs = repeat w (List.length hs).
Proof.
  intros F Hf. induction F as [|h hs Hh _ IH]; [reflexivity|].
  cbn. rewrite IH, Hf. apply Z.ltb_ge in Hh. now rewrite Hh.
Qed.

(** X18: in a run on a valid configuration that has come to the join
    barrier, the three channels are made once and shared as follows: the
    aggregator is started on the second and the third, every worker on the
    first and the second; so the workers publish where the aggregator
    listens, signal where [main] waits, and the aggregator acknowledges
    where [main] sends the stop request. There is one aggregator, with the
    flag of [-v], and there are [C] workers, each with the URL, the share
    and the time-out. *)
Theorem coroutines_share_the_channels
    (cl : cmdline) (a : args) (url : string) (rest : list string) (o : oracle) :
  getopt_loop (options cl) args0 = Some a ->
  operands cl = url :: rest ->
  0 < getConcurrentReqs (concurr a) <= getRequests (requests a) ->
  (0 < receives (fst (main cl o)))%nat ->
  exists done_ch stats_ch stop_ch,
    chmakes (fst (main cl o)) = [done_ch; stats_ch; stop_ch]
    /\ aggregators (fst (main cl o)) = [Stats stats_ch stop_ch (verbose a)]
    /\ workers (fst (main cl o))
       = repeat (Boom url (getRequests (requests a) / getConcurrentReqs (concurr a))
                   (getTimeout (timeout a)) done_ch stats_ch)
           (Z.to_nat (getConcurrentReqs (concurr a))).
Proof.
  intros Ha Hu Hv Hrecv.
  destruct (main_valid cl a url rest Ha Hu Hv o) as (h & _ & R).
  pose proof R as R'.
  apply launch_run_phases in R
    as [F|(d & s & p & st & cor & m & hs & t' & E & Q & L & R)].
  { destruct (counts_calm _ (forallb_impl _ _ _ flat_calm F)) as (_ & Cr & _).
    rewrite Cr in Hrecv. lia. }
  exists d, s, p. rewrite E.
  apply shutdown_run_apart in R.
  unfold setup_trace in Q |- *. cbn [forallb quiet andb] in Q.
  do 4 (apply andb_prop in Q as [_ Q]).
  apply andb_prop in Q as [Hcor Q]. apply andb_prop in Q as [_ Q].
  apply quiet_handles in Q. apply Z.leb_le, Z.ltb_ge in Hcor.
  rewrite chmakes_flat, workers_flat. unfold aggregators.
  rewrite !flat_map_app. cbn [flat_map app].
  rewrite !obs_map_go, Hcor.
  rewrite !(obs_forallb _ _ t' R)
    by (intros e He; destruct e; try discriminate He; reflexivity).
  rewrite !app_nil_r. rewrite !obs_none by reflexivity.
  rewrite (workers_handles _ hs) by auto. now rewrite L.
Qed.

Lemma coroutines_share_the_channels_witness :
  exists done_ch stats_ch stop_ch,
    chmakes (fst (main two_by_two (answers 0 0))) = [done_ch; stats_ch; stop_ch]
    /\ aggregators (fst (main two_by_two (answers 0 0))) = [Stats stats_ch stop_ch 0]
    /\ workers (fst (main two_by_two (answers 0 0)))
       = repeat (Boom "http://localhost/" (2 / 2) 5000 done_ch stats_ch) 2.
Proof.
  apply (coroutines_share_the_channels two_by_two two_by_two_args
           "http://localhost/" [] (answers 0 0)).
  - reflexivity.
  - reflexivity.
  - split; [reflexivity|discriminate].
  - vm_compute. lia.
Defined.

(** *** How a run of [main] can end *)

(** X19: [main] exits with [EXIT_SUCCESS] or [EXIT_FAILURE] and no other
    status. Asked for at most [INT_MAX] workers it stays within the defined
    behaviour of C; asked for more it cannot come to [EXIT_SUCCESS]: the
    counter of the spawn loop, an [int], would have to pass [INT_MAX]. *)
Theorem main_exit_status (cl : cmdline) (o : oracle) :
  (forall st, snd (main cl o) = Stop (Exit st) ->
              st = EXIT_SUCCESS \/ st = EXIT_FAILURE)
  /\ (forall a,
        getopt_loop (options cl) args0 = Some a ->
        (snd (main cl o) = Stop Undefined ->
         INT_MAX < getConcurrentReqs (concurr a))
        /\ (snd (main cl o) = Stop (Exit EXIT_SUCCESS) ->
            0 < getConcurrentReqs (concurr a) <= INT_MAX)).
Proof.
  assert (S : forall c d s p cor st pcoh o1,
            0 <= c <= INT_MAX ->
            snd (shutdown c d s p cor st pcoh o1) <> Stop Undefined
            /\ forall x, snd (shutdown c d s p cor st pcoh o1) = Stop (Exit x) ->
                         x = EXIT_SUCCESS \/ x = EXIT_FAILURE).
  { intros c d s p cor st pcoh o1 Hc.
    destruct (shutdown_sound c d s p cor st pcoh o1 Hc) as (h & -> & R).
    remember (fst (shutdown c d s p cor st pcoh o1)) as t eqn:Et. clear Et.
    destruct R as [k Hk|k rc Hk Hrc| |rc1|rc1 rc2 rel h F [-> | ->]];
      (split; [discriminate|intros x Hx; first [discriminate Hx|injection Hx as <-; auto]]). }
  destruct (main_cases cl o) as [E|(a & url & rest & Ha & Hu & [[x E]|[Hv E]])].
  - rewrite E. split.
    + intros st H. injection H as <-. now right.
    + intros a _. split; discriminate.
  - rewrite E. split.
    + intros st H. injection H as <-. now right.
    + intros a' _. split; discriminate.
  - rewrite E.
    destruct (launch_cases url (getRequests (requests a)) (getConcurrentReqs (concurr a))
                (getTimeout (timeout a)) (verbose a) o)
      as [(d & s & p & st & cor & m & hs & o1 & _ & _ & _ & _ & _ & _ & _ & B & E')
         |(h & Hh & Hn & Hu' & _)]; [lia|..].
    + rewrite E'. cbn [snd].
      destruct (S (getConcurrentReqs (concurr a)) d s p cor st hs o1) as [S1 S2];
        [lia|].
      split; [exact S2|]. intros a' Ha'. rewrite Ha in Ha'. injection Ha' as <-.
      split; [contradiction|intros _; lia].
    + rewrite Hh. split.
      * intros st H. injection H as ->.
        destruct (launch_sound url (getRequests (requests a))
                    (getConcurrentReqs (concurr a)) (getTimeout (timeout a))
                    (verbose a) o) as (h' & Hh' & R); [lia|].
        rewrite Hh in Hh'. injection Hh' as <-.
        remember (fst (launch url (getRequests (requests a))
                         (getConcurrentReqs (concurr a)) (getTimeout (timeout a))
                         (verbose a) o)) as t eqn:Et. clear Et.
        remember (Exit st) as h eqn:Eh.
        destruct R as [t h _ [-> | ->]|q e cs m Hq Fe Ke Fc|q e cs Hq Fe Ke Fc
                      |d s p st' cor m hs t h Hd Hs Hp Hcor Hm F L B R];
          try discriminate Eh.
        -- injection Eh as <-. now right.
        -- destruct R as [k Hk|k rc Hk Hrc| |rc1|rc1 rc2 rel h Fr [-> | ->]];
             try discriminate Eh; injection Eh as <-; auto.
      * intros a' Ha'. rewrite Ha in Ha'. injection Ha' as <-.
        split; [intros H; injection H as ->; now apply Hu'|].
        intros H. injection H as ->. contradiction.
Qed.

(** *** A whole run *)

(** The run time is [difftime]'s [double]: three seconds are printed as
    they are, and a difference of [2^53 + 1] seconds as [2^53]. *)
Lemma run_time_line_rounds :
  run_time_line 1000 1003 = ("Run time: 3.000000s" ++ nl)%string
  /\ run_time_line 0 9007199254740993 = ("Run time: 9007199254740992.000000s" ++ nl)%string
  /\ run_time_line 1003 1000 = ("Run time: -3.000000s" ++ nl)%string.
Proof. repeat split; reflexivity. Qed.

(** X14: [main] goes through whenever it is let: the command line accepted,
    at most [INT_MAX] workers asked for, every call of the set-up answered
    well ([chmake] and [go] with a handle, [malloc] with memory) and each of
    the [C] receives of the barrier answered with a signal, the two times
    read being values of [time_t]. What the stop exchange and the [C + 4]
    calls of [hclose] answer makes no difference: the run is the one of
    [success_trace], which ends with the run time as [difftime] gives it,
    and the process exits with [EXIT_SUCCESS]. *)
Theorem run_goes_through
    (cl : cmdline) (a : args) (url : string) (rest : list string)
    (d s p st cor m : Z) (hs : list Z) (rc1 rc2 : Z) (rcs : list Z)
    (r1 r2 r3 r4 e : Z) (more : list Z)
    (qs : list (Z * reqstats)) (cs : list choose_ret) :
  getopt_loop (options cl) args0 = Some a ->
  operands cl = url :: rest ->
  0 < getConcurrentReqs (concurr a) <= getRequests (requests a) ->
  getConcurrentReqs (concurr a) <= INT_MAX ->
  0 <= d -> 0 <= s -> 0 <= p -> 0 <= cor -> m <> 0 ->
  LONG_MIN <= st <= LONG_MAX -> LONG_MIN <= e <= LONG_MAX ->
  Forall (fun h => 0 <= h) hs ->
  List.length hs = Z.to_nat (getConcurrentReqs (concurr a)) ->
  List.length rcs = List.length hs ->
  main cl
    (mk_oracle
       ([d; s; p; st; cor; m] ++ hs
          ++ repeat 0 (Z.to_nat (getConcurrentReqs (concurr a)))
          ++ [rc1; rc2] ++ rcs ++ [r1; r2; r3; r4; e] ++ more)
       qs cs)
  = (success_trace url (getRequests (requests a)) (getConcurrentReqs (concurr a))
       (getTimeout (timeout a)) (verbose a)
       d s p st cor m hs rc1 rc2 rcs r1 r2 r3 r4 e,
     Stop (Exit EXIT_SUCCESS)).
Proof.
  intros Ha Hu Hv Hc Hd Hs Hp Hcor Hm _ _ F L Lr.
  rewrite (main_start cl a url rest Ha Hu), start_launches by lia.
  apply launch_goes_through; auto. lia.
Qed.

Lemma run_goes_through_witness :
  main two_by_two (answers (-1) (-1))
  = (success_trace "http://localhost/" 2 2 5000 0 3 4 5 1000 6 77 [7; 8]
       (-1) (-1) [0; 0] 0 0 0 0 1003,
     Stop (Exit EXIT_SUCCESS)).
Proof.
  apply (run_goes_through two_by_two two_by_two_args "http://localhost/" []
           3 4 5 1000 6 77 [7; 8] (-1) (-1) [0; 0] 0 0 0 0 1003 [] [] []).
  - reflexivity.
  - reflexivity.
  - split; [reflexivity|discriminate].
  - discriminate.
  - discriminate.
  - discriminate.
  - discriminate.
  - discriminate.
  - discriminate.
  - split; discriminate.
  - split; discriminate.
  - repeat constructor; discriminate.
  - reflexivity.
  - reflexivity.
Defined.

(** *** A run on the default counts *)

Lemma spawns_started (w : coroutine) (hs : list Z) :
  Forall (fun h => 0 <= h) hs ->
  flat_map (fun h => if h <? 0 then [] else [w]) hs = repeat w (List.length hs).
Proof.
  intros F. induction F as [|h hs Hh _ IH]; [reflexivity|].
  cbn [flat_map List.length repeat]. rewrite IH.
  apply Z.ltb_ge in Hh. now rewrite Hh.
Qed.

(** X3: without [-n] and [-c] the counts are the defaults, 10 requests over
    5 workers, with the time-out of [-t] (5000 ms without it) and the
    verbose flag of [-v]; they pass the validation. In every environment
    the run prints the banner with them and its first call is the [chmake]
    of the completion channel; and where the calls of the set-up are
    answered well, the five signals arrive and the times are values of
    [time_t], it goes through to [EXIT_SUCCESS], with five workers started
    on 2 requests each. *)
Theorem defaults_without_counts
    (opts : list (ascii * string)) (url : string) (rest : list string) :
  forallb (fun x => known_option (fst x)) opts = true ->
  optarg_of "n" opts = None ->
  optarg_of "c" opts = None ->
  (forall o,
     exists t,
       fst (main (mk_cmdline opts (url :: rest)) o)
       = Stdout (banner url 10 5 (getTimeout (optarg_of "t" opts))) :: t
       /\ (forall r l, rets o = r :: l -> exists t', t = Chmake sizeof_int r :: t'))
  /\ (forall d s p st cor m hs rc1 rc2 rcs r1 r2 r3 r4 e more qs cs,
        0 <= d -> 0 <= s -> 0 <= p -> 0 <= cor -> m <> 0 ->
        LONG_MIN <= st <= LONG_MAX -> LONG_MIN <= e <= LONG_MAX ->
        Forall (fun h => 0 <= h) hs ->
        List.length hs = 5%nat ->
        List.length rcs = 5%nat ->
        let run :=
          main (mk_cmdline opts (url :: rest))
            (mk_oracle
               ([d; s; p; st; cor; m] ++ hs ++ repeat 0 5
                  ++ [rc1; rc2] ++ rcs ++ [r1; r2; r3; r4; e] ++ more)
               qs cs) in
        run = (success_trace url 10 5 (getTimeout (optarg_of "t" opts))
                 (if given "v" opts then 1 else 0)
                 d s p st cor m hs rc1 rc2 rcs r1 r2 r3 r4 e,
               Stop (Exit EXIT_SUCCESS))
        /\ workers (fst run)
           = repeat (Boom url 2 (getTimeout (optarg_of "t" opts)) d s) 5).
Proof.
  intros Hk Hn Hc.
  assert (L : main (mk_cmdline opts (url :: rest))
              = launch url 10 5 (getTimeout (optarg_of "t" opts))
                  (if given "v" opts then 1 else 0)).
  { unfold main. cbn [options operands].
    rewrite getopt_loop_acc, Hk, Hn, Hc. unfold start.
    cbn [requests concurr timeout verbose args0].
    change (getRequests None) with 10.
    change (getConcurrentReqs None) with 5.
    change ((10 =? 0) || (5 =? 0))%bool with false.
    change (10 <? 5) with false.
    cbn iota. now destruct (optarg_of "t" opts). }
  rewrite L. split.
  - intros o. apply launch_begins.
  - intros d s p st cor m hs rc1 rc2 rcs r1 r2 r3 r4 e more qs cs
      Hd Hs Hp Hcor Hm _ _ F Lh Lr run.
    assert (E : run = (success_trace url 10 5 (getTimeout (optarg_of "t" opts))
                         (if given "v" opts then 1 else 0)
                         d s p st cor m hs rc1 rc2 rcs r1 r2 r3 r4 e,
                       Stop (Exit EXIT_SUCCESS))).
    { subst run. change 5%nat with (Z.to_nat 5) at 1.
      apply launch_goes_through; auto; try (rewrite Lh, ?Lr; reflexivity).
      split; discriminate. }
    split; [exact E|]. rewrite E. cbn [fst].
    rewrite workers_flat, obs_success_trace by reflexivity.
    cbn [app]. rewrite (obs_none _ (combine hs rcs)) by reflexivity.
    rewrite spawns_started, Lh, !app_nil_r by assumption. reflexivity.
Qed.

Lemma defaults_without_counts_witness :
  main (mk_cmdline [("v"%char, ""); ("t"%char, "250")] ["http://localhost/"])
    (mk_oracle [3; 4; 5; 1000; 6; 77; 7; 8; 9; 10; 11; 0; 0; 0; 0; 0; 0; -1;
                0; 0; 0; 0; 0; 0; 0; 0; 0; 1003] [] [])
  = (success_trace "http://localhost/" 10 5 250 1 3 4 5 1000 6 77 [7; 8; 9; 10; 11]
       0 (-1) [0; 0; 0; 0; 0] 0 0 0 0 1003,
     Stop (Exit EXIT_SUCCESS)).
Proof.
  destruct (defaults_without_counts [("v"%char, ""); ("t"%char, "250")]
              "http://localhost/" [] eq_refl eq_refl eq_refl) as [_ H].
  apply (H 3 4 5 1000 6 77 [7; 8; 9; 10; 11] 0 (-1) [0; 0; 0; 0; 0] 0 0 0 0 1003
           [] [] []);
    try discriminate; try reflexivity; try (split; discriminate).
  repeat constructor; discriminate.
Defined.
